(** * mcp-superstack: the dual-transport MCP client core

    A shallow embedding of the client managers ([src/client.ts],
    [src/http-client.ts]), the registry ([src/config.ts]), the entry
    points ([src/index.ts]), the per-server modules, the connectivity
    test and the Codex stdio wrapper
    ([templates/codex-cli/polydev-stdio-wrapper.js], both versions),
    followed by the properties proved about them.

    Layout: the definitions come first, one module per source file; the
    lemmas and theorems follow. *)

From Stdlib Require Import ZArith List String Ascii Bool Lia.
From stdpp Require Import base option list gmap strings pretty.
Import ListNotations.
Local Open Scope string_scope.
Local Open Scope list_scope.
Set Warnings "-register-all".

(* ===================================================================== *)
(** * Part I: definitions                                                 *)
(* ===================================================================== *)

(** ** JavaScript values and the few primitive operations the code uses *)

Module JS.

(** Values that travel over JSON-RPC, plus [undefined].  A number is kept
    as an integer: the code under study never computes on payload
    numbers; the integers meant are those of absolute value below
    10^21, which JavaScript writes in decimal.  An object lists each key
    once, in insertion order. *)
Inductive value : Type :=
| VUndef
| VNull
| VBool (b : bool)
| VNum (n : Z)
| VStr (s : string)
| VArr (items : list value)
| VObj (props : list (string * value)).

(** A thrown [Error] object: its [name] and its [message]. *)
Record js_error : Type := JsError { err_name : string; err_message : string }.

(** The completion of an expression or call: a value, or a throw (for an
    [async] function: the promise fulfilled, or rejected). *)
Inductive completion (A : Type) : Type :=
| Return (a : A)
| Throw (e : js_error).
Arguments Return {A} a.
Arguments Throw {A} e.

#[global] Instance completion_ret : MRet completion := fun A a => Return a.
#[global] Instance completion_bind : MBind completion := fun A B f m =>
  match m with
  | Return a => f a
  | Throw e => Throw e
  end.

(** First binding of a key in an association list ([obj[k]] on own
    properties). *)
Fixpoint assoc {A : Type} (k : string) (l : list (string * A)) : option A :=
  match l with
  | [] => None
  | (k', a) :: rest => if String.eqb k k' then Some a else assoc k rest
  end.

Definition Error (msg : string) : js_error := JsError "Error" msg.

(** V8's message for a property read on [null] or [undefined]. *)
Definition TypeError_read (what k : string) : js_error :=
  JsError "TypeError"
    ("Cannot read properties of " +:+ what +:+ " (reading '" +:+ k +:+ "')").

(** [v.k] for the property names the sources read ([content], [type],
    [text], [error], [result], [code], [message], [method], [id],
    [params]): none of them is defined on a built-in prototype, so the
    read yields an own property of an object and [undefined] on anything
    else, and throws on [null] and [undefined]. *)
Definition get_prop (v : value) (k : string) : completion value :=
  match v with
  | VUndef => Throw (TypeError_read "undefined" k)
  | VNull => Throw (TypeError_read "null" k)
  | VObj props => Return (default VUndef (assoc k props))
  | _ => Return VUndef
  end.

(** [k in v] for an object or array [v] and the same property names. *)
Definition has_prop (k : string) (v : value) : bool :=
  match v with
  | VObj props => bool_decide (is_Some (assoc k props))
  | _ => false
  end.

(** [ToBoolean]. *)
Definition truthy (v : value) : bool :=
  match v with
  | VUndef | VNull => false
  | VBool b => b
  | VNum n => negb (n =? 0)%Z
  | VStr s => negb (String.eqb s "")
  | VArr _ | VObj _ => true
  end.

(** [typeof v === 'object']. *)
Definition typeof_object (v : value) : bool :=
  match v with
  | VNull | VArr _ | VObj _ => true
  | _ => false
  end.

(** [Array.isArray]. *)
Definition is_array (v : value) : bool :=
  match v with
  | VArr _ => true
  | _ => false
  end.

(** [v === s] for a string literal [s]. *)
Definition strict_eq_str (v : value) (s : string) : bool :=
  match v with
  | VStr s' => String.eqb s' s
  | _ => false
  end.

(** [ToString], as a template literal applies it (a number: the decimal
    numeral, as for every integer below 10^21 in absolute value). *)
Fixpoint ToString (v : value) : string :=
  match v with
  | VUndef => "undefined"
  | VNull => "null"
  | VBool true => "true"
  | VBool false => "false"
  | VNum n => pretty n
  | VStr s => s
  | VArr items =>
      String.concat ","
        (map (fun x => match x with
                       | VUndef | VNull => ""
                       | _ => ToString x
                       end) items)
  | VObj _ => "[object Object]"
  end.

(** A string of the model lists the bytes of a text, a JavaScript string
    its UTF-16 code units.  For text of ASCII characters the two agree
    unit for unit, so that lengths and positions are the same. *)
Fixpoint ascii_text (s : string) : bool :=
  match s with
  | EmptyString => true
  | String a rest => Nat.ltb (nat_of_ascii a) 128 && ascii_text rest
  end.

(** A number that holds an integer [0 <= n <= 2^53], incremented by
    [++]: a double represents [n + 1] exactly up to [2^53]; at [2^53] the
    sum rounds back to [2^53] (ties to even). *)
Definition MAX_EXACT : Z := 2 ^ 53.

Definition incr (n : Z) : Z := if (n <? MAX_EXACT)%Z then (n + 1)%Z else n.

End JS.

(** ** The result normalizer: [callMCPTool] and [HTTPMCPClient.callTool] *)

Module Normalizer.
Import JS.

Section WithParser.

(** [JSON.parse] is a built-in; it is applied to whatever [text] holds
    and converts a non-string argument itself. *)
Variable JSON_parse : value -> completion value.

(** [try { return JSON.parse(c0.text); } catch { return c0.text; }] *)
Definition parse_or_text (c0 : value) : completion value :=
  text ← get_prop c0 "text";
  match JSON_parse text with
  | Return v => Return v
  | Throw _ => Return text
  end.

(** [client.ts], lines 159-171. *)
Definition callMCPTool_extract (result : value) : completion value :=
  content ← get_prop result "content";
  if truthy content && is_array content then
    match content with
    | VArr [c0] =>
        ty ← get_prop c0 "type";
        if strict_eq_str ty "text" then parse_or_text c0 else Return content
    | _ => Return content
    end
  else Return result.

(** [http-client.ts], lines 205-218. *)
Definition callTool_extract (result : value) : completion value :=
  if truthy result && typeof_object result && has_prop "content" result then
    content ← get_prop result "content";
    match content with
    | VArr [c0] =>
        ty ← get_prop c0 "type";
        if strict_eq_str ty "text" then parse_or_text c0 else Return content
    | _ => Return content
    end
  else Return result.

(** *** The policy in the specification's words (section 4.4) *)

(** The content list a result carries, if any. *)
Definition content_list (result : value) : option (list value) :=
  match result with
  | VObj props =>
      match assoc "content" props with
      | Some (VArr l) => Some l
      | _ => None
      end
  | _ => None
  end.

(** A text-typed entry. *)
Definition is_text_entry (e : value) : bool :=
  match e with
  | VObj props =>
      match assoc "type" props with
      | Some ty => strict_eq_str ty "text"
      | None => false
      end
  | _ => false
  end.

Definition text_of (e : value) : value :=
  match e with
  | VObj props => default VUndef (assoc "text" props)
  | _ => VUndef
  end.

(** Exactly one text-typed entry: the parsed text, or the raw text when
    parsing fails.  More than one entry, or an entry of non-text kind:
    the list.  Otherwise (there is no content list, or it is empty): the
    raw result. *)
Definition spec_normalize (result : value) : value :=
  match content_list result with
  | Some [e] =>
      if is_text_entry e then
        match JSON_parse (text_of e) with
        | Return v => v
        | Throw _ => text_of e
        end
      else VArr [e]
  | Some (e1 :: e2 :: rest) => VArr (e1 :: e2 :: rest)
  | Some [] => result
  | None => result
  end.

(** The shapes on which the two implementations follow the policy. *)

(** The content list, if there is one, has an entry. *)
Definition content_nonempty (result : value) : Prop :=
  content_list result <> Some [].

(** A one-entry content list whose entry is [null] makes the read of
    [content[0].type] throw. *)
Definition entry_readable (result : value) : Prop :=
  content_list result <> Some [VNull] /\ content_list result <> Some [VUndef].

(** The [content] field, when the result has one, is a list. *)
Definition content_absent_or_list (result : value) : Prop :=
  has_prop "content" result = true -> is_Some (content_list result).

End WithParser.

End Normalizer.

(** ** The registry: [src/config.ts] *)

Module Config.
Import JS.

(** The connection descriptors.  The [description] and [tools] fields
    are documentation and are left out. *)
Record StdioServerConfig : Type := {
  command : string;
  args : list string;
  env : option (list (string * string)) }.

Record HTTPServerConfig : Type := {
  url : string;
  headers : option (list (string * string)) }.

(** What [registry[name]] evaluates to.  Both registries are object
    literals, so a name that is no key of theirs still resolves when
    [Object.prototype] defines it: to a built-in function or object,
    which is truthy and has none of the descriptor's fields. *)
Inductive property (A : Type) : Type :=
| Own (a : A)
| Inherited
| Absent.
Arguments Own {A} a.
Arguments Inherited {A}.
Arguments Absent {A}.

Definition Object_prototype : list string :=
  [ "constructor"; "__defineGetter__"; "__defineSetter__"; "hasOwnProperty";
    "__lookupGetter__"; "__lookupSetter__"; "isPrototypeOf";
    "propertyIsEnumerable"; "toString"; "valueOf"; "__proto__";
    "toLocaleString" ].

Definition lookup {A : Type} (registry : list (string * A)) (name : string)
  : property A :=
  match assoc name registry with
  | Some a => Own a
  | None =>
      if bool_decide (name ∈ Object_prototype) then Inherited else Absent
  end.

(** [Object.keys(registry)] (no key of the registries is an integer, so
    the order is the order of definition). *)
Definition keys {A : Type} (registry : list (string * A)) : list string :=
  map fst registry.

Section Env.

(** [process.env], after [dotenv.config] has run. *)
Variable process_env : string -> option string.

(** [process.env.NAME || dflt] *)
Definition env_or (name dflt : string) : string :=
  match process_env name with
  | Some v => if String.eqb v "" then dflt else v
  | None => dflt
  end.

Definition stdioServers : list (string * StdioServerConfig) :=
  [ ("memory",
     {| command := "npx";
        args := ["-y"; "@modelcontextprotocol/server-memory"];
        env := None |});
    ("seq_thinking",
     {| command := "npx";
        args := ["-y"; "@modelcontextprotocol/server-sequential-thinking"];
        env := None |});
    ("filesystem",
     {| command := "npx";
        args := ["-y"; "@modelcontextprotocol/server-filesystem";
                 env_or "FILESYSTEM_ALLOWED_PATH" "/tmp"];
        env := None |});
    ("supabase",
     {| command := "npx";
        args := ["-y"; "@supabase/mcp-server-supabase@latest";
                 "--access-token"; env_or "SUPABASE_ACCESS_TOKEN" "";
                 "--project-ref"; env_or "SUPABASE_PROJECT_REF" ""];
        env := Some [ ("SUPABASE_URL", env_or "SUPABASE_URL" "");
                      ("SUPABASE_ANON_KEY", env_or "SUPABASE_ANON_KEY" "");
                      ("SUPABASE_SERVICE_ROLE_KEY",
                       env_or "SUPABASE_SERVICE_ROLE_KEY" "") ] |});
    ("upstash",
     {| command := "npx";
        args := ["-y"; "@upstash/mcp-server"; "run";
                 env_or "UPSTASH_EMAIL" ""; env_or "UPSTASH_API_KEY" ""];
        env := None |});
    ("github",
     {| command := "npx";
        args := ["-y"; "@modelcontextprotocol/server-github"];
        env := Some [ ("GITHUB_PERSONAL_ACCESS_TOKEN",
                       env_or "GITHUB_PERSONAL_ACCESS_TOKEN" "") ] |});
    ("git",
     {| command := "uvx"; args := ["mcp-server-git"]; env := None |});
    ("polydev",
     {| command := "npx";
        args := ["-y"; "polydev-ai@latest"];
        env := Some [ ("POLYDEV_USER_TOKEN", env_or "POLYDEV_USER_TOKEN" "") ] |});
    ("context7",
     {| command := "npx";
        args := ["-y"; "@upstash/context7-mcp@latest"];
        env := None |});
    ("deepwiki",
     {| command := "npx"; args := ["-y"; "mcp-deepwiki@latest"]; env := None |});
    ("perplexity",
     {| command := "node";
        args := [env_or "PERPLEXITY_MCP_PATH"
                   "./custom-servers/perplexity/index.js"];
        env := Some [ ("PERPLEXITY_API_KEY", env_or "PERPLEXITY_API_KEY" "") ] |});
    ("morpho",
     {| command := "npx";
        args := ["-y"; "@morphllm/morphmcp"];
        env := Some [ ("MORPH_API_KEY", env_or "MORPH_API_KEY" "");
                      ("ENABLED_TOOLS", "edit_file,warpgrep_codebase_search");
                      ("WORKSPACE_MODE", "true") ] |});
    ("resend",
     {| command := "node";
        args := [env_or "RESEND_MCP_PATH" "./custom-servers/resend/index.js"];
        env := Some [ ("RESEND_API_KEY", env_or "RESEND_API_KEY" "") ] |}) ].

Definition httpServers : list (string * HTTPServerConfig) :=
  [ ("exa",
     {| url := "https://mcp.exa.ai/mcp?exaApiKey=" +:+ env_or "EXA_API_KEY" "";
        headers := Some [ ("Content-Type", "application/json") ] |});
    ("vercel",
     {| url := env_or "VERCEL_MCP_URL" "https://mcp.vercel.com";
        headers := Some [ ("Content-Type", "application/json");
                          ("Authorization",
                           "Bearer " +:+ env_or "VERCEL_ACCESS_TOKEN" "") ] |});
    ("stripe",
     {| url := "https://mcp.stripe.com";
        headers := Some [ ("Content-Type", "application/json");
                          ("Authorization",
                           "Bearer " +:+ env_or "STRIPE_API_KEY" "") ] |}) ].

(** [isHTTPServer]: [name in httpServers]. *)
Definition isHTTPServer (name : string) : bool :=
  match lookup httpServers name with
  | Absent => false
  | _ => true
  end.

(** [getAllServerNames], lines 257-259. *)
Definition getAllServerNames : list string :=
  keys stdioServers ++ keys httpServers.

(** [getServerConfig], lines 271-273:
    [stdioServers[name] || httpServers[name] || null].  A descriptor and
    an inherited built-in are truthy; [Absent] stands for [null]. *)
Definition getServerConfig (name : string)
  : property (StdioServerConfig + HTTPServerConfig) :=
  match lookup stdioServers name with
  | Own c => Own (inl c)
  | Inherited => Inherited
  | Absent =>
      match lookup httpServers name with
      | Own c => Own (inr c)
      | Inherited => Inherited
      | Absent => Absent
      end
  end.

End Env.

End Config.

(** ** The stdio client manager: [src/client.ts] *)

Module Stdio.
Import JS Config.

(** What [new StdioClientTransport({command, args, env})] receives.  A
    field read from an inherited built-in is [undefined] ([None]);
    [sp_env] is the descriptor's own [env], which line 64 spreads over
    [process.env]. *)
Record StdioServerParameters : Type := {
  sp_command : option string;
  sp_args : option (list string);
  sp_env : option (list (string * string)) }.

(** SDK [Client] and [StdioClientTransport] objects are opaque; each is
    identified by the order of its allocation.  A promise returned by
    [createClient] is identified by its position in [promises]. *)
Inductive promise_state : Type :=
| Connecting (serverName : string) (client transport : nat)
    (* [createClient] is suspended at line 74, [await client.connect] *)
| Fulfilled (client : nat)
| Rejected (e : js_error).

(** What the manager does to the outside world, in order. *)
Inductive io_event : Type :=
| Connect (serverName : string) (client transport : nat)
    (params : StdioServerParameters)
    (* [client.connect(transport)] is called: the process is spawned and
       the handshake sent *)
| Connected (client : nat)
    (* the handshake of [client] has completed *)
| Close (client : nat)
| ToolsCall (client : nat) (toolName : string) (arguments : value)
| ToolsList (client : nat).

Record World : Type := {
  clients : gmap string nat;
  transports : gmap string nat;
  initializing : gmap string nat;
  promises : list promise_state;
  objects : nat;
  io : list io_event }.

(** [new StdioClientManager()] in a process that has done nothing yet. *)
Definition fresh : World :=
  {| clients := ∅; transports := ∅; initializing := ∅;
     promises := []; objects := 0; io := [] |}.

Definition set_initializing (m : gmap string nat) (w : World) : World :=
  {| clients := clients w; transports := transports w; initializing := m;
     promises := promises w; objects := objects w; io := io w |}.

Definition set_promises (ps : list promise_state) (w : World) : World :=
  {| clients := clients w; transports := transports w;
     initializing := initializing w;
     promises := ps; objects := objects w; io := io w |}.

Definition emit (e : io_event) (w : World) : World :=
  {| clients := clients w; transports := transports w;
     initializing := initializing w;
     promises := promises w; objects := objects w; io := io w ++ [e] |}.

Section Manager.

Variable stdioServers : list (string * StdioServerConfig).

Definition unknown_server (serverName : string) : js_error :=
  Error ("Unknown stdio server: " +:+ serverName +:+ ". Available: "
         +:+ String.concat ", " (keys stdioServers)).

Definition params_of (config : property StdioServerConfig)
  : StdioServerParameters :=
  match config with
  | Own c =>
      {| sp_command := Some (command c); sp_args := Some (args c);
         sp_env := env c |}
  | _ => {| sp_command := None; sp_args := None; sp_env := None |}
  end.

(** [createClient], lines 54-74: from the call to the first suspension.
    The promise it returns is the next one allocated. *)
Definition createClient (serverName : string) (w : World) : World * nat :=
  let p := length (promises w) in
  match lookup stdioServers serverName with
  | Absent =>
      (set_promises (promises w ++ [Rejected (unknown_server serverName)]) w, p)
  | config =>
      let transport := objects w in
      let client := S (objects w) in
      ({| clients := clients w; transports := transports w;
          initializing := initializing w;
          promises := promises w ++ [Connecting serverName client transport];
          objects := S (S (objects w));
          io := io w ++ [Connect serverName client transport (params_of config)] |},
       p)
  end.

(** [client.connect(transport)] settles for the creation behind promise
    [p]: [createClient] resumes at line 77 and stores the references, or
    rejects with what [connect] threw. *)
Definition connect_done (p : nat) (r : option js_error) (w : World) : World :=
  match promises w !! p with
  | Some (Connecting serverName client transport) =>
      match r with
      | None =>
          {| clients := <[serverName := client]> (clients w);
             transports := <[serverName := transport]> (transports w);
             initializing := initializing w;
             promises := <[p := Fulfilled client]> (promises w);
             objects := objects w;
             io := io w ++ [Connected client] |}
      | Some e => set_promises (<[p := Rejected e]> (promises w)) w
      end
  | _ => w
  end.

(** Where a call of [getClient] stands after its synchronous part. *)
Inductive getClient_frame : Type :=
| Cached (client : nat)                   (* returned at line 29 *)
| Joined (p : nat)                        (* returned promise [p] at line 34 *)
| Owner (serverName : string) (p : nat).  (* suspended at line 42 *)

(** [getClient], lines 26-42. *)
Definition getClient (serverName : string) (w : World)
  : World * getClient_frame :=
  match clients w !! serverName with
  | Some client => (w, Cached client)
  | None =>
      match initializing w !! serverName with
      | Some p => (w, Joined p)
      | None =>
          let '(w', p) := createClient serverName w in
          (set_initializing (<[serverName := p]> (initializing w')) w',
           Owner serverName p)
      end
  end.

(** What the caller of [getClient] receives once the promise it waits on
    has settled ([None]: still pending).  The owner first deletes the
    in-progress entry (lines 43 and 46). *)
Definition getClient_resume (f : getClient_frame) (w : World)
  : option (World * completion nat) :=
  match f with
  | Cached client => Some (w, Return client)
  | Joined p =>
      match promises w !! p with
      | Some (Fulfilled client) => Some (w, Return client)
      | Some (Rejected e) => Some (w, Throw e)
      | _ => None
      end
  | Owner serverName p =>
      match promises w !! p with
      | Some (Fulfilled client) =>
          Some (set_initializing (delete serverName (initializing w)) w,
                Return client)
      | Some (Rejected e) =>
          Some (set_initializing (delete serverName (initializing w)) w,
                Throw e)
      | _ => None
      end
  end.

(** [disconnect], lines 93-104, run to completion.  Whether [close]
    throws makes no difference: the error is caught and logged. *)
Definition disconnect (serverName : string) (w : World) : World :=
  match clients w !! serverName with
  | Some client =>
      {| clients := delete serverName (clients w);
         transports := delete serverName (transports w);
         initializing := initializing w;
         promises := promises w; objects := objects w;
         io := io w ++ [Close client] |}
  | None => w
  end.

(** The two halves of [disconnect], for calls that overlap: up to
    [await client.close()] (did line 95 find a client?), and after it. *)
Definition disconnect_begin (serverName : string) (w : World) : World * bool :=
  match clients w !! serverName with
  | Some client => (emit (Close client) w, true)
  | None => (w, false)
  end.

Definition disconnect_end (serverName : string) (found : bool) (w : World)
  : World :=
  if found then
    {| clients := delete serverName (clients w);
       transports := delete serverName (transports w);
       initializing := initializing w;
       promises := promises w; objects := objects w; io := io w |}
  else w.

(** N callers in one turn of the event loop: each runs the synchronous
    part of [getClient] before any of them resumes. *)
Fixpoint getClient_times (n : nat) (serverName : string) (w : World)
  : World * list getClient_frame :=
  match n with
  | O => (w, [])
  | S n' =>
      let '(w1, f) := getClient serverName w in
      let '(w2, fs) := getClient_times n' serverName w1 in
      (w2, f :: fs)
  end.

(** The callers resume one after the other, in the order of the list. *)
Fixpoint resume_all (fs : list getClient_frame) (w : World)
  : option (World * list (completion nat)) :=
  match fs with
  | [] => Some (w, [])
  | f :: rest =>
      match getClient_resume f w with
      | Some (w1, r) =>
          match resume_all rest w1 with
          | Some (w2, rs) => Some (w2, r :: rs)
          | None => None
          end
      | None => None
      end
  end.

(** The number of [connect] calls made for a server. *)
Definition connects (serverName : string) (l : list io_event) : nat :=
  length (List.filter (fun e => match e with
                                | Connect s _ _ _ => String.eqb s serverName
                                | _ => false
                                end) l).

(** The state of the promise a settled creation leaves behind, and what
    a caller waiting on it receives. *)
Definition delivers (st : promise_state) (o : completion nat) : Prop :=
  match st with
  | Fulfilled client => o = Return client
  | Rejected e => o = Throw e
  | Connecting _ _ _ => False
  end.

(** The promise [createClient] hands out for a server. *)
Definition created (serverName : string) (w : World) : promise_state :=
  match lookup stdioServers serverName with
  | Absent => Rejected (unknown_server serverName)
  | _ => Connecting serverName (S (objects w)) (objects w)
  end.

(** The maps only hold names the registry resolves, except that the
    rejected creation of an unknown name stays registered until its
    owner resumes. *)
Definition registry_respected (w : World) : Prop :=
  (forall serverName client,
     clients w !! serverName = Some client ->
     lookup stdioServers serverName <> Absent)
  /\ (forall serverName p,
        initializing w !! serverName = Some p ->
        lookup stdioServers serverName = Absent ->
        promises w !! p = Some (Rejected (unknown_server serverName)))
  /\ (forall p serverName client transport,
        promises w !! p = Some (Connecting serverName client transport) ->
        lookup stdioServers serverName <> Absent).

(** One call of [connect] is made unless the name is unknown. *)
Definition attempts (serverName : string) : nat :=
  match lookup stdioServers serverName with
  | Absent => 0
  | _ => 1
  end.

(** *** The exported functions, as tasks on the event loop *)

Variable JSON_parse : value -> completion value.

Inductive call_kind : Type :=
| KInitializeServer
| KCallMCPTool (toolName : string) (args : value)
| KListTools.

Inductive task : Type :=
| InGetClient (k : call_kind) (f : getClient_frame)
    (* [await manager.getClient(serverName)] *)
| InTool (k : call_kind) (client : nat)
    (* [await client.callTool(...)], or the promise of [client.listTools()] *)
| Finished (r : completion value).

Inductive event : Type :=
| ECall (k : call_kind) (serverName : string)
| EConnectDone (p : nat) (r : option js_error)
| EResume (i : nat)
| EToolDone (i : nat) (r : completion value)
| EDisconnect (serverName : string).

(** The caller continues with the client it received. *)
Definition after_getClient (k : call_kind) (r : completion nat) (w : World)
  : World * task :=
  match r with
  | Throw e => (w, Finished (Throw e))
  | Return client =>
      match k with
      | KInitializeServer => (w, Finished (Return VUndef))
      | KCallMCPTool toolName args =>
          (emit (ToolsCall client toolName args) w, InTool k client)
      | KListTools => (emit (ToolsList client) w, InTool k client)
      end
  end.

Definition after_tool (k : call_kind) (r : completion value) : task :=
  match k with
  | KCallMCPTool _ _ =>
      Finished (result ← r; Normalizer.callMCPTool_extract JSON_parse result)
  | _ => Finished r
  end.

Definition step (e : event) (st : World * list task) : World * list task :=
  let '(w, tasks) := st in
  match e with
  | ECall k serverName =>
      let '(w', f) := getClient serverName w in
      (w', tasks ++ [InGetClient k f])
  | EConnectDone p r => (connect_done p r w, tasks)
  | EResume i =>
      match tasks !! i with
      | Some (InGetClient k f) =>
          match getClient_resume f w with
          | Some (w1, r) =>
              let '(w2, t) := after_getClient k r w1 in
              (w2, <[i := t]> tasks)
          | None => st
          end
      | _ => st
      end
  | EToolDone i r =>
      match tasks !! i with
      | Some (InTool k _) => (w, <[i := after_tool k r]> tasks)
      | _ => st
      end
  | EDisconnect serverName => (disconnect serverName w, tasks)
  end.

Definition run (evs : list event) (st : World * list task)
  : World * list task :=
  fold_left (fun st e => step e st) evs st.

(** Where the error of a failed call comes from: the registry does not
    know the name, [connect] has failed, the tool request has failed, or
    its result could not be unwrapped. *)
Definition failure_explained (evs : list event) (e : js_error) : Prop :=
  (exists serverName,
     lookup stdioServers serverName = Absent /\ e = unknown_server serverName)
  \/ (exists p, EConnectDone p (Some e) ∈ evs)
  \/ (exists i, EToolDone i (Throw e) ∈ evs)
  \/ (exists i result,
        EToolDone i (Return result) ∈ evs
        /\ Normalizer.callMCPTool_extract JSON_parse result = Throw e).

(** A tool request on [client], if the event is one. *)
Definition tool_request (e : io_event) : option nat :=
  match e with
  | ToolsCall client _ _ => Some client
  | ToolsList client => Some client
  | _ => None
  end.

(** Before position [j] of the log, the handshake of [client] has
    completed. *)
Definition connected_before (client : nat) (j : nat) (l : list io_event)
  : Prop :=
  exists i, i < j /\ l !! i = Some (Connected client).

(** Every tool request in the log comes after the completed handshake of
    its client. *)
Definition handshake_first (l : list io_event) : Prop :=
  forall j e client,
    l !! j = Some e -> tool_request e = Some client ->
    connected_before client j l.

(** *** What holds of every state the manager can reach *)

(** Cached clients and the clients of fulfilled promises are connected. *)
Definition world_ok (w : World) : Prop :=
  handshake_first (io w)
  /\ (forall serverName client,
        clients w !! serverName = Some client ->
        connected_before client (length (io w)) (io w))
  /\ (forall p client,
        promises w !! p = Some (Fulfilled client) ->
        connected_before client (length (io w)) (io w)).

Definition task_justified (w : World) (t : task) : Prop :=
  match t with
  | InGetClient _ (Cached client) =>
      connected_before client (length (io w)) (io w)
  | _ => True
  end.

Definition invariant (st : World * list task) : Prop :=
  world_ok (fst st) /\ Forall (task_justified (fst st)) (snd st).

(** A creation that has not settled is the registered one of its
    server; so is the creation of an owner that has not resumed, and a
    server has at most one such owner. *)
Definition creation_registered (st : World * list task) : Prop :=
  (forall p serverName client transport,
     promises (fst st) !! p = Some (Connecting serverName client transport) ->
     initializing (fst st) !! serverName = Some p)
  /\ (forall i k serverName p,
        snd st !! i = Some (InGetClient k (Owner serverName p)) ->
        initializing (fst st) !! serverName = Some p)
  /\ (forall i j k k' serverName p p',
        snd st !! i = Some (InGetClient k (Owner serverName p)) ->
        snd st !! j = Some (InGetClient k' (Owner serverName p')) ->
        i = j).

(** The creation behind promise [p] is under way for the server: no
    client is cached for it and [connect] has not settled. *)
Definition in_flight (serverName : string) (p : nat) (w : World) : Prop :=
  clients w !! serverName = None
  /\ initializing w !! serverName = Some p
  /\ exists client transport,
       promises w !! p = Some (Connecting serverName client transport).

(** *** The rest of the manager *)

(** [isConnected], lines 86-88. *)
Definition isConnected (serverName : string) (w : World) : bool :=
  bool_decide (is_Some (clients w !! serverName)).

(** [disconnectAll], lines 109-118 (which is all [cleanup] calls), up to
    the [await]: [close] is called on each cached client.  [entries]
    stands for
    [Array.from(this.clients.entries())], the cache in its order of
    insertion, which the map of the model does not keep. *)
Definition disconnectAll_begin (entries : list (string * nat)) (w : World)
  : World :=
  fold_left (fun w entry => emit (Close (snd entry)) w) entries w.

(** Lines 119-120, once every [close] has settled, whether it threw or
    not: both maps are cleared; [initializing] is not. *)
Definition disconnectAll_end (w : World) : World :=
  {| clients := ∅; transports := ∅; initializing := initializing w;
     promises := promises w; objects := objects w; io := io w |}.

(** Nothing disconnects the server and no [connect] fails. *)
Definition undisturbed (serverName : string) (e : event) : Prop :=
  e <> EDisconnect serverName
  /\ forall p err, e <> EConnectDone p (Some err).

(** No [connect] has been made for the server yet and none is under way,
    or one has been made and its client is cached or on its way. *)
Definition connected_once (serverName : string) (w : World) : Prop :=
  (connects serverName (io w) = 0
   /\ clients w !! serverName = None
   /\ forall p client transport,
        promises w !! p <> Some (Connecting serverName client transport))
  \/ (connects serverName (io w) = 1
      /\ (is_Some (clients w !! serverName)
          \/ exists p, in_flight serverName p w)).

End Manager.

End Stdio.

(** ** The platform's [fetch], [AbortController] and [setTimeout] *)

Module Net.
Import JS.

Record response : Type := {
  ok : bool;
  status : Z;
  body : string }.

(** What the remote end does with one request; times are milliseconds
    after the call of [fetch]. *)
Inductive behaviour : Type :=
| Fails (at_ms : N) (e : js_error)
    (* the exchange fails: no connection, a reset, ... *)
| Completes (at_ms : N) (r : response)
    (* the response has arrived, body included *)
| Silent
    (* the request is accepted and nothing ever comes back *)
| Streams.
    (* a response begins whose body never ends, bytes keep arriving (an
       event stream that is left open, say) *)

(** Node's [fetch] gives up on an exchange in which nothing has arrived
    for 300000 ms (the [headersTimeout] and [bodyTimeout] of its HTTP
    client): it rejects with a [TypeError]. *)
Definition PLATFORM_TIMEOUT_MS : N := 300000.

Definition fetch_failed : js_error := JsError "TypeError" "fetch failed".

(** The second argument of [fetch].  [f_signal] is [Some d] when the
    signal of an [AbortController] is passed whose [abort] a timer calls
    [d] milliseconds after the call. *)
Record fetch_init : Type := {
  f_method : string;
  f_headers : list (string * string);
  f_body : value;
  f_signal : option N }.

Inductive settlement : Type :=
| NetError (e : js_error)
| NetResponse (r : response)
| Aborted.

(** When and how the exchange settles when nothing aborts it; [None]:
    never. *)
Definition unaborted (b : behaviour) : option (N * settlement) :=
  match b with
  | Fails t e => Some (t, NetError e)
  | Completes t r => Some (t, NetResponse r)
  | Silent => Some (PLATFORM_TIMEOUT_MS, NetError fetch_failed)
  | Streams => None
  end.

(** When and how the exchange settles for the caller; [None]: never.  An
    exchange that has not finished when the timer fires is aborted. *)
Definition outcome (signal : option N) (b : behaviour)
  : option (N * settlement) :=
  match signal with
  | None => unaborted b
  | Some d =>
      match unaborted b with
      | Some (t, s) => if N.ltb t d then Some (t, s) else Some (d, Aborted)
      | None => Some (d, Aborted)
      end
  end.

(** The exchange finishes of its own accord before [d] milliseconds. *)
Definition in_time (d : N) (b : behaviour) : bool :=
  match unaborted b with
  | Some (t, _) => N.ltb t d
  | None => false
  end.

(** The [DOMException] an aborted [fetch] rejects with. *)
Definition AbortError : js_error :=
  JsError "AbortError" "This operation was aborted".

End Net.

(** ** The HTTP client and its manager: [src/http-client.ts] *)

Module Http.
Import JS Config.

Record JSONRPCRequest : Type := {
  req_id : Z;
  req_method : string;
  req_params : value }.

Record HTTPMCPClient : Type := {
  name : string;
  config : property HTTPServerConfig;
  requestId : Z;
  initialized : bool;
  serverInfo : value }.

(** [new HTTPMCPClient(name, config)] *)
Definition new_client (name : string) (config : property HTTPServerConfig)
  : HTTPMCPClient :=
  {| name := name; config := config; requestId := 0; initialized := false;
     serverInfo := VNull |}.

(** [this.config.url]: [undefined] on an inherited built-in. *)
Definition config_url (c : HTTPMCPClient) : option string :=
  match config c with
  | Own cfg => Some (url cfg)
  | _ => None
  end.

(** [{...headers, [k]: v}]: a key that is there already keeps its place. *)
Fixpoint set_header (k v : string) (l : list (string * string))
  : list (string * string) :=
  match l with
  | [] => [(k, v)]
  | (k', v') :: rest =>
      if String.eqb k' k then (k, v) :: rest
      else (k', v') :: set_header k v rest
  end.

(** [{...this.config.headers, 'Content-Type': 'application/json'}] *)
Definition request_headers (c : HTTPMCPClient) : list (string * string) :=
  set_header "Content-Type" "application/json"
    match config c with
    | Own cfg => default [] (headers cfg)
    | _ => []
    end.

(** What the clients do to the outside world, in order.  Client objects
    are identified by their position in the heap. *)
Inductive io_event : Type :=
| Post (client : nat) (url : option string) (init : Net.fetch_init)
    (request : JSONRPCRequest)
    (* [fetch(this.config.url, init)], the body being [request] *)
| Handshaken (client : nat) (id : Z).
    (* [initialize] has recorded the answer to request [id], line 184 *)

Record World : Type := {
  clients : gmap string nat;
  heap : list HTTPMCPClient;
  io : list io_event }.

Definition fresh : World := {| clients := ∅; heap := []; io := [] |}.

(** The JSON form of a request: [params] is left out when [undefined]. *)
Definition request_json (r : JSONRPCRequest) : value :=
  VObj ([("jsonrpc", VStr "2.0"); ("id", VNum (req_id r));
         ("method", VStr (req_method r))]
        ++ match req_params r with
           | VUndef => []
           | p => [("params", p)]
           end).

(** The [fetch] call of [sendRequest], lines 146-153: no [signal]. *)
Definition sendRequest_init (c : HTTPMCPClient) (r : JSONRPCRequest)
  : Net.fetch_init :=
  {| Net.f_method := "POST";
     Net.f_headers := request_headers c;
     Net.f_body := request_json r;
     Net.f_signal := None |}.

(** [sendRequest], lines 138-153: the request is numbered and posted. *)
Definition sendRequest_start (client : nat) (method : string) (params : value)
    (w : World) : World * Z :=
  match heap w !! client with
  | Some c =>
      let id := incr (requestId c) in
      let c' := {| name := name c; config := config c; requestId := id;
                   initialized := initialized c; serverInfo := serverInfo c |} in
      let r := {| req_id := id; req_method := method; req_params := params |} in
      ({| clients := clients w;
          heap := <[client := c']> (heap w);
          io := io w ++ [Post client (config_url c) (sendRequest_init c r) r] |},
       id)
  | None => (w, 0%Z)
  end.

Section Client.

Variable JSON_parse : value -> completion value.

(** [fetch] has settled for [sendRequest]. *)
Inductive fetch_result : Type :=
| Rejects (e : js_error)
| Responds (r : Net.response).

(** [sendRequest], lines 155-165. *)
Definition sendRequest_finish (r : fetch_result) : completion value :=
  match r with
  | Rejects e => Throw e
  | Responds resp =>
      if negb (Net.ok resp) then
        Throw (Error ("HTTP " +:+ pretty (Net.status resp) +:+ ": "
                      +:+ Net.body resp))
      else
        json ← JSON_parse (VStr (Net.body resp));
        err ← get_prop json "error";
        if truthy err then
          code ← get_prop err "code";
          message ← get_prop err "message";
          Throw (Error ("MCP Error " +:+ ToString code +:+ ": "
                        +:+ ToString message))
        else get_prop json "result"
  end.

(** When the call of [sendRequest] settles against a remote end that
    behaves as [b]: its [fetch] is the only thing it waits for. *)
Definition sendRequest_settles (c : HTTPMCPClient) (r : JSONRPCRequest)
    (b : Net.behaviour) : option (N * completion value) :=
  match Net.outcome (Net.f_signal (sendRequest_init c r)) b with
  | Some (t, Net.NetError e) => Some (t, sendRequest_finish (Rejects e))
  | Some (t, Net.NetResponse resp) => Some (t, sendRequest_finish (Responds resp))
  | Some (t, Net.Aborted) => Some (t, sendRequest_finish (Rejects Net.AbortError))
  | None => None
  end.

Inductive call_kind : Type :=
| KInitialize
| KListTools
| KCallTool (toolName : string) (args : value).

Inductive task : Type :=
| InInitialize (k : call_kind) (client : nat) (id : Z)
    (* inside [initialize], line 174: [await this.sendRequest('initialize')] *)
| AfterInitialize (k : call_kind) (client : nat)
    (* [initialize] has returned; the caller awaiting it resumes next *)
| InRequest (k : call_kind) (client : nat) (id : Z)
    (* line 192 or 200: awaiting the tool request *)
| Finished (r : completion value).

Definition initialize_params (c : HTTPMCPClient) : value :=
  VObj [ ("protocolVersion", VStr "2024-11-05");
         ("capabilities", VObj []);
         ("clientInfo",
          VObj [ ("name", VStr ("mcp-superstack-" +:+ name c));
                 ("version", VStr "1.0.0") ]) ].

(** [initialize], lines 171-181, entered on behalf of [k].  (A client
    is allocated before it is used, so the lookup succeeds.) *)
Definition initialize_start (k : call_kind) (client : nat) (w : World)
  : World * task :=
  match heap w !! client with
  | Some c =>
      if initialized c then (w, AfterInitialize k client)
      else
        let '(w', id) :=
          sendRequest_start client "initialize" (initialize_params c) w in
        (w', InInitialize k client id)
  | None => (w, Finished (Throw (TypeError_read "undefined" "initialize")))
  end.

(** [initialize], lines 183-184. *)
Definition set_handshake (result : value) (c : HTTPMCPClient) : HTTPMCPClient :=
  {| name := name c; config := config c; requestId := requestId c;
     initialized := true; serverInfo := result |}.

Definition record_handshake (client : nat) (id : Z) (result : value)
    (w : World) : World :=
  {| clients := clients w;
     heap := alter (set_handshake result) client (heap w);
     io := io w ++ [Handshaken client id] |}.

(** The caller of [initialize] goes on: lines 192 and 200. *)
Definition after_initialize (k : call_kind) (client : nat) (w : World)
  : World * task :=
  match k with
  | KInitialize => (w, Finished (Return VUndef))
  | KListTools =>
      let '(w', id) := sendRequest_start client "tools/list" VUndef w in
      (w', InRequest k client id)
  | KCallTool toolName args =>
      let '(w', id) :=
        sendRequest_start client "tools/call"
          (VObj [("name", VStr toolName); ("arguments", args)]) w in
      (w', InRequest k client id)
  end.

(** The tool request has settled: lines 192 and 205-218. *)
Definition after_request (k : call_kind) (r : fetch_result) : task :=
  match k with
  | KCallTool _ _ =>
      Finished (result ← sendRequest_finish r;
                Normalizer.callTool_extract JSON_parse result)
  | _ => Finished (sendRequest_finish r)
  end.

(** *** The manager *)

Variable httpServers : list (string * HTTPServerConfig).

Definition unknown_server (serverName : string) : js_error :=
  Error ("Unknown HTTP server: " +:+ serverName +:+ ". Available: "
         +:+ String.concat ", " (keys httpServers)).

(** [HTTPClientManager.getClient], lines 245-258. *)
Definition getClient (serverName : string) (w : World)
  : completion (World * nat) :=
  match clients w !! serverName with
  | Some client => Return (w, client)
  | None =>
      match lookup httpServers serverName with
      | Absent => Throw (unknown_server serverName)
      | config =>
          let client := length (heap w) in
          Return ({| clients := <[serverName := client]> (clients w);
                     heap := heap w ++ [new_client serverName config];
                     io := io w |},
                  client)
      end
  end.

(** [HTTPClientManager.disconnect], lines 271-273. *)
Definition disconnect (serverName : string) (w : World) : World :=
  {| clients := delete serverName (clients w); heap := heap w; io := io w |}.

(** [HTTPClientManager.disconnectAll], lines 278-280. *)
Definition disconnectAll (w : World) : World :=
  {| clients := ∅; heap := heap w; io := io w |}.

(** The cache only holds names the registry resolves. *)
Definition cache_resolves (w : World) : Prop :=
  forall serverName client,
    clients w !! serverName = Some client ->
    lookup httpServers serverName <> Absent.

(** *** The exported functions, as tasks on the event loop *)

Inductive event : Type :=
| ECall (k : call_kind) (serverName : string)
    (* [initializeHTTPServer], [listHTTPTools], [callHTTPMCPTool] *)
| ESettle (i : nat) (r : fetch_result)
| EResume (i : nat)
| EDisconnect (serverName : string)
| EDisconnectAll.

Definition step (e : event) (st : World * list task) : World * list task :=
  let '(w, tasks) := st in
  match e with
  | ECall k serverName =>
      match getClient serverName w with
      | Throw e => (w, tasks ++ [Finished (Throw e)])
      | Return (w1, client) =>
          let '(w2, t) := initialize_start k client w1 in
          (w2, tasks ++ [t])
      end
  | ESettle i r =>
      match tasks !! i with
      | Some (InInitialize k client id) =>
          match sendRequest_finish r with
          | Throw e => (w, <[i := Finished (Throw e)]> tasks)
          | Return result =>
              (record_handshake client id result w,
               <[i := AfterInitialize k client]> tasks)
          end
      | Some (InRequest k client id) => (w, <[i := after_request k r]> tasks)
      | _ => st
      end
  | EResume i =>
      match tasks !! i with
      | Some (AfterInitialize k client) =>
          let '(w', t) := after_initialize k client w in
          (w', <[i := t]> tasks)
      | _ => st
      end
  | EDisconnect serverName => (disconnect serverName w, tasks)
  | EDisconnectAll => (disconnectAll w, tasks)
  end.

Definition run (evs : list event) (st : World * list task)
  : World * list task :=
  fold_left (fun st e => step e st) evs st.

(** A caller that calls [initializeHTTPServer] again each time the
    request is refused: attempt number [i] is task number [i]. *)
Definition retry (serverName : string) (refusal : js_error) (i : nat)
  : list event :=
  [ECall KInitialize serverName; ESettle i (Rejects refusal)].

Definition retries (serverName : string) (refusal : js_error) (n : nat)
  : list event :=
  concat (map (retry serverName refusal) (seq 0 n)).

(** Where the error of a failed call comes from: the registry does not
    know the name, a request of the call has failed ([sendRequest]
    threw), or the result of its tool request could not be unwrapped. *)
Definition failure_explained (evs : list event) (e : js_error) : Prop :=
  (exists serverName,
     lookup httpServers serverName = Absent /\ e = unknown_server serverName)
  \/ (exists i r,
        ESettle i r ∈ evs
        /\ (sendRequest_finish r = Throw e
            \/ exists result,
                 sendRequest_finish r = Return result
                 /\ Normalizer.callTool_extract JSON_parse result = Throw e)).

End Client.

(** The requests a client has posted, oldest first. *)
Definition requests_of (client : nat) (l : list io_event)
  : list JSONRPCRequest :=
  omap (fun e => match e with
                 | Post c _ _ r => if Nat.eqb c client then Some r else None
                 | _ => None
                 end) l.

(** The identifiers a client has assigned, oldest first. *)
Definition ids_of (client : nat) (l : list io_event) : list Z :=
  map req_id (requests_of client l).

Definition is_tool_method (m : string) : bool :=
  String.eqb m "tools/call" || String.eqb m "tools/list".

(** Before position [j] of the log, [client] has posted an [initialize]
    request and, later, recorded its answer. *)
Definition handshaken_before (client : nat) (j : nat) (l : list io_event)
  : Prop :=
  exists i1 i2 u init r,
    i1 < i2 < j
    /\ l !! i1 = Some (Post client u init r)
    /\ req_method r = "initialize"
    /\ l !! i2 = Some (Handshaken client (req_id r)).

(** Every tool request in the log comes after an [initialize] request of
    the same client object and after its answer was recorded. *)
Definition handshake_first (l : list io_event) : Prop :=
  forall j client u init r,
    l !! j = Some (Post client u init r) ->
    is_tool_method (req_method r) = true ->
    handshaken_before client j l.

(** The identifier of the request number [k] (counting from 0) of a
    client object. *)
Definition nth_id (k : nat) : Z := Z.min (Z.of_nat (S k)) MAX_EXACT.

(** *** What holds of every state the manager can reach *)

(** The counter of each client object has followed its requests. *)
Definition counted (w : World) : Prop :=
  forall client,
    (forall i id, ids_of client (io w) !! i = Some id -> id = nth_id i)
    /\ match heap w !! client with
       | Some c =>
           requestId c
           = Z.min (Z.of_nat (length (ids_of client (io w)))) MAX_EXACT
       | None => ids_of client (io w) = []
       end.

(** A client object whose flag is set has completed a handshake. *)
Definition flag_justified (w : World) : Prop :=
  forall client c,
    heap w !! client = Some c -> initialized c = true ->
    handshaken_before client (length (io w)) (io w).

(** A task past [initialize] has a client with a completed handshake; a
    task inside [initialize] has posted its request. *)
Definition task_justified (w : World) (t : task) : Prop :=
  match t with
  | AfterInitialize _ client =>
      handshaken_before client (length (io w)) (io w)
  | InInitialize _ client id =>
      exists i u init r,
        io w !! i = Some (Post client u init r)
        /\ req_method r = "initialize" /\ req_id r = id
  | _ => True
  end.

(** The cache refers to allocated client objects. *)
Definition clients_valid (w : World) : Prop :=
  forall serverName client,
    clients w !! serverName = Some client -> client < length (heap w).

(** The cached flag of a client object is set. *)
Definition flag_set (client : nat) (w : World) : Prop :=
  exists c, heap w !! client = Some c /\ initialized c = true.

Definition world_ok (w : World) : Prop :=
  counted w /\ handshake_first (io w) /\ flag_justified w /\ clients_valid w.

Definition invariant (st : World * list task) : Prop :=
  world_ok (fst st) /\ Forall (task_justified (fst st)) (snd st).

(** [HTTPClientManager.isConnected], lines 263-266:
    [client?.isInitialized() || false]. *)
Definition isConnected (serverName : string) (w : World) : bool :=
  match clients w !! serverName with
  | Some client =>
      match heap w !! client with
      | Some c => initialized c
      | None => false
      end
  | None => false
  end.

(** The client object a suspended call works on. *)
Definition task_client (t : task) : option nat :=
  match t with
  | InInitialize _ client _ => Some client
  | AfterInitialize _ client => Some client
  | InRequest _ client _ => Some client
  | Finished _ => None
  end.

(** [initialize] has recorded an answer on [client]. *)
Definition handshake_recorded (client : nat) (l : list io_event) : Prop :=
  exists id, Handshaken client id ∈ l.

(** A recorded answer has set the flag, and suspended calls work on
    allocated client objects. *)
Definition sessions_ok (st : World * list task) : Prop :=
  (forall client,
     handshake_recorded client (io (fst st)) -> flag_set client (fst st))
  /\ (forall i t client,
        snd st !! i = Some t -> task_client t = Some client ->
        client < length (heap (fst st))).

End Http.

(** ** The entry points of the package: [src/index.ts] *)

Module Index.
Import JS Config.

Section Core.

Variable process_env : string -> option string.
Variable JSON_parse : value -> completion value.

(** The two managers of the process, each with its suspended calls. *)
Record World : Type := {
  stdio : Stdio.World * list Stdio.task;
  http : Http.World * list Http.task }.

Definition fresh : World :=
  {| stdio := (Stdio.fresh, []); http := (Http.fresh, []) |}.

Definition stdio_step (e : Stdio.event) (w : World) : World :=
  {| stdio := Stdio.step (stdioServers process_env) JSON_parse e (stdio w);
     http := http w |}.

Definition http_step (e : Http.event) (w : World) : World :=
  {| stdio := stdio w;
     http := Http.step JSON_parse (httpServers process_env) e (http w) |}.

(** [callTool], lines 133-147, once the modules are loaded. *)
Definition callTool (serverName toolName : string) (args : value) (w : World)
  : World :=
  if isHTTPServer process_env serverName then
    http_step (Http.ECall (Http.KCallTool toolName args) serverName) w
  else
    stdio_step (Stdio.ECall (Stdio.KCallMCPTool toolName args) serverName) w.

(** The function mapped over the names at lines 116-118. *)
Definition initializeOne (name : string) (w : World) : World :=
  if isHTTPServer process_env name then
    http_step (Http.ECall Http.KInitialize name) w
  else stdio_step (Stdio.ECall Stdio.KInitializeServer name) w.

(** [initializeServers], lines 110-120, up to the [await]: [map] calls
    the function on each name in turn, and each call runs until it first
    suspends. *)
Definition initializeServers (serverNames : list string) (w : World) : World :=
  fold_left (fun w name => initializeOne name w) serverNames w.

(** [initializeAll], lines 125-128. *)
Definition initializeAll (w : World) : World :=
  initializeServers (getAllServerNames process_env) w.

End Core.

(** The servers [connect] was called for, oldest first. *)
Definition connected_names (l : list Stdio.io_event) : list string :=
  omap (fun e => match e with
                 | Stdio.Connect s _ _ _ => Some s
                 | _ => None
                 end) l.

(** The requests posted, oldest first: client object, method and id. *)
Definition posted (l : list Http.io_event) : list (nat * string * Z) :=
  omap (fun e => match e with
                 | Http.Post c _ _ r =>
                     Some (c, Http.req_method r, Http.req_id r)
                 | _ => None
                 end) l.

(** The requests posted on the client object that is cached for a
    server. *)
Definition posts_for (serverName : string) (w : Http.World)
  : list Http.JSONRPCRequest :=
  match Http.clients w !! serverName with
  | Some client => Http.requests_of client (Http.io w)
  | None => []
  end.

(** How often a name occurs in a list. *)
Definition occurrences (name : string) (names : list string) : nat :=
  length (List.filter (String.eqb name) names).

End Index.

(** ** The per-server modules: [src/servers/*/index.ts] *)

Module Servers.
Import JS.

(** The manager a module imports its two functions from. *)
Inductive transport : Type := ViaStdio | ViaHTTP.

(** The [SERVER_NAME] of each module and the manager it calls. *)
Definition modules : list (string * transport) :=
  [ ("chrome", ViaStdio); ("context7", ViaStdio); ("deepwiki", ViaStdio);
    ("exa", ViaHTTP); ("filesystem", ViaStdio); ("git", ViaStdio);
    ("github", ViaStdio); ("memory", ViaStdio); ("morpho", ViaStdio);
    ("perplexity", ViaStdio); ("polydev", ViaStdio); ("resend", ViaStdio);
    ("seq_thinking", ViaStdio); ("stripe", ViaHTTP); ("supabase", ViaStdio);
    ("upstash", ViaStdio); ("vercel", ViaHTTP) ].

(** [servers/chrome/index.ts]: each exported function is one call of
    [initializeServer] or [callMCPTool] with [SERVER_NAME = 'chrome']. *)
Module Chrome.

Definition SERVER_NAME : string := "chrome".

Inductive call : Type :=
| initialize
| navigate (url : string)
| screenshot
| click (selector : string)
| type (selector text : string)
| getContent.

Definition event_of (c : call) : Stdio.event :=
  match c with
  | initialize => Stdio.ECall Stdio.KInitializeServer SERVER_NAME
  | navigate url =>
      Stdio.ECall (Stdio.KCallMCPTool "navigate" (VObj [("url", VStr url)]))
        SERVER_NAME
  | screenshot =>
      Stdio.ECall (Stdio.KCallMCPTool "screenshot" (VObj [])) SERVER_NAME
  | click selector =>
      Stdio.ECall (Stdio.KCallMCPTool "click"
                     (VObj [("selector", VStr selector)])) SERVER_NAME
  | type selector text =>
      Stdio.ECall (Stdio.KCallMCPTool "type"
                     (VObj [("selector", VStr selector); ("text", VStr text)]))
        SERVER_NAME
  | getContent =>
      Stdio.ECall (Stdio.KCallMCPTool "get_content" (VObj [])) SERVER_NAME
  end.

End Chrome.

End Servers.

(** ** The Codex stdio wrapper: [polydev-stdio-wrapper.js] *)

Module Wrapper.
Import JS.

(** The local tool list, lines 47-76. *)
Definition TOOLS : value :=
  VArr
    [ VObj [ ("name", VStr "get_perspectives");
             ("description",
              VStr "Get multiple AI perspectives on a prompt using Polydev (GPT-4, Claude, Gemini, Grok)");
             ("inputSchema",
              VObj [ ("type", VStr "object");
                     ("properties",
                      VObj [ ("prompt",
                              VObj [ ("type", VStr "string");
                                     ("description",
                                      VStr "The prompt to get perspectives on") ]);
                             ("models",
                              VObj [ ("type", VStr "array");
                                     ("items", VObj [("type", VStr "string")]);
                                     ("description",
                                      VStr "Optional: specific models to use") ]) ]);
                     ("required", VArr [VStr "prompt"]) ]) ];
      VObj [ ("name", VStr "list_available_models");
             ("description", VStr "List all available AI models");
             ("inputSchema",
              VObj [ ("type", VStr "object");
                     ("properties", VObj []);
                     ("required", VArr []) ]) ] ].

Definition result_envelope (id result : value) : value :=
  VObj [("jsonrpc", VStr "2.0"); ("id", id); ("result", result)].

Definition error_envelope (id : value) (code : Z) (message : string) : value :=
  VObj [("jsonrpc", VStr "2.0"); ("id", id);
        ("error", VObj [("code", VNum code); ("message", VStr message)])].

(** A property of a destructured value: [request || {}] is never [null]
    or [undefined], so the read cannot throw. *)
Definition field (v : value) (k : string) : value :=
  match get_prop v k with
  | Return x => x
  | Throw _ => VUndef
  end.

(** What [handle] does with a request: it returns a value at once
    ([null] meaning that nothing is to be written), or it returns what
    [forward] yields. *)
Inductive handled : Type :=
| Reply (response : value)
| Forward.

(** [handle], version 2.1, lines 137-183. *)
Definition handle (request : value) : handled :=
  let r := if truthy request then request else VObj [] in
  let method := field r "method" in
  let id := field r "id" in
  if strict_eq_str method "initialize" then
    Reply (result_envelope id
             (VObj [ ("protocolVersion", VStr "2025-06-18");
                     ("capabilities", VObj [("tools", VObj [])]);
                     ("serverInfo",
                      VObj [ ("name", VStr "polydev-stdio");
                             ("version", VStr "2.1.0") ]) ]))
  else if strict_eq_str method "notifications/initialized" then Reply VNull
  else if strict_eq_str method "ping" then Reply (result_envelope id (VObj []))
  else if strict_eq_str method "tools/list" then
    Reply (result_envelope id (VObj [("tools", TOOLS)]))
  else if strict_eq_str method "tools/call" then Forward
  else if truthy method then
    Reply (error_envelope id (-32601) ("Method not found: " +:+ ToString method))
  else Reply (error_envelope id (-32600) "Invalid request").

(** [handle], version 1, lines 367-402. *)
Definition handle_v1 (request : value) : handled :=
  let r := if truthy request then request else VObj [] in
  let method := field r "method" in
  let id := field r "id" in
  if strict_eq_str method "initialize" then
    Reply (result_envelope id
             (VObj [ ("protocolVersion", VStr "2024-11-05");
                     ("capabilities", VObj [("tools", VObj [])]);
                     ("serverInfo",
                      VObj [ ("name", VStr "polydev-stdio");
                             ("version", VStr "1.0.0") ]) ]))
  else if strict_eq_str method "tools/list" then
    Reply (result_envelope id (VObj [("tools", TOOLS)]))
  else if truthy method then Forward
  else Reply (error_envelope id (-32601) "Method not found").

Definition TIMEOUT_MS : N := 180000.

Section Process.

Variable JSON_parse : value -> completion value.

(** [!line.trim()] *)
Variable blank : string -> bool.

(** [POLYDEV_USER_TOKEN], the empty string when it is not set. *)
Variable TOKEN : string.

(** [text.slice(0, 200)] on ASCII text: the first 200 characters.  (The
    code counts UTF-16 code units; the properties that quote the excerpt
    are stated for ASCII text.) *)
Definition slice200 (text : string) : string := String.substring 0 200 text.

(** The [fetch] call of [forward], version 2.1, lines 84-97: the signal
    of a controller that a timer aborts after 180000 ms. *)
Definition forward_init (request : value) : Net.fetch_init :=
  {| Net.f_method := "POST";
     Net.f_headers := [ ("Content-Type", "application/json");
                        ("Authorization", "Bearer " +:+ TOKEN);
                        ("User-Agent", "polydev-stdio-wrapper/2.0.0") ];
     Net.f_body := request;
     Net.f_signal := Some TIMEOUT_MS |}.

(** Version 1, lines 297-305: no signal. *)
Definition forward_v1_init (request : value) : Net.fetch_init :=
  {| Net.f_method := "POST";
     Net.f_headers := [ ("Content-Type", "application/json");
                        ("Authorization", "Bearer " +:+ TOKEN);
                        ("User-Agent", "polydev-stdio-wrapper/1.0.0") ];
     Net.f_body := request;
     Net.f_signal := None |}.

(** Lines 99-115 (and 307-319): the body is parsed before the status is
    looked at. *)
Definition read_response (resp : Net.response) : completion value :=
  match JSON_parse (VStr (Net.body resp)) with
  | Throw _ =>
      Throw (Error ("Invalid JSON from server: " +:+ slice200 (Net.body resp)))
  | Return json =>
      if negb (Net.ok resp) then
        Throw (Error ("Remote MCP error " +:+ pretty (Net.status resp) +:+ ": "
                      +:+ slice200 (Net.body resp)))
      else Return json
  end.

(** Lines 116-122. *)
Definition forward_catch (err : js_error) : completion value :=
  if String.eqb (err_name err) "AbortError" then
    Throw (Error "Request timed out after 180 seconds")
  else Throw err.

(** What [forward] fails with when its timer has fired. *)
Definition timed_out : completion value :=
  Throw (Error "Request timed out after 180 seconds").

(** [forward], version 2.1, against a remote end that behaves as [b]:
    when the call settles, and how ([None]: never). *)
Definition forward (request : value) (b : Net.behaviour)
  : option (N * completion value) :=
  match Net.outcome (Net.f_signal (forward_init request)) b with
  | Some (t, Net.NetResponse resp) =>
      Some (t, match read_response resp with
               | Return json => Return json
               | Throw err => forward_catch err
               end)
  | Some (t, Net.NetError err) => Some (t, forward_catch err)
  | Some (t, Net.Aborted) => Some (t, forward_catch Net.AbortError)
  | None => None
  end.

(** [forward], version 1. *)
Definition forward_v1 (request : value) (b : Net.behaviour)
  : option (N * completion value) :=
  match Net.outcome (Net.f_signal (forward_v1_init request)) b with
  | Some (t, Net.NetResponse resp) => Some (t, read_response resp)
  | Some (t, Net.NetError err) => Some (t, Throw err)
  | Some (t, Net.Aborted) => Some (t, Throw Net.AbortError)
  | None => None
  end.

(** The envelope the [catch] of [processLine] writes, lines 214-218. *)
Definition internal_error (err : js_error) : value :=
  error_envelope VNull (-32603) (err_message err).

(** A call of [processLine] that is suspended at [await handle(request)]. *)
Inductive task : Type :=
| Replying (response : value)
| Forwarding (request : value)
| Settled.

(** The state the wrapper reads and writes; what it has written to
    standard output is kept apart, since it never reads it back. *)
Record control : Type := {
  pendingRequests : Z;
  stdinEnded : bool;
  exited : option Z;
  tasks : list task }.

(** A message [respond] was called with stands for the line it writes:
    [JSON.stringify(message)] and a newline. *)
Record World : Type := {
  ctl : control;
  stdout : list value }.

(** The process once the script has run to its last line: the guard of
    lines 38-41 has ended it with status 1 if the token is missing
    ([!TOKEN]), and otherwise it waits for its first event. *)
Definition started : World :=
  {| ctl := {| pendingRequests := 0; stdinEnded := false;
               exited := if String.eqb TOKEN "" then Some 1%Z else None;
               tasks := [] |};
     stdout := [] |}.

Definition set_tasks (ts : list task) (c : control) : control :=
  {| pendingRequests := pendingRequests c; stdinEnded := stdinEnded c;
     exited := exited c; tasks := ts |}.

Definition add_pending (d : Z) (c : control) : control :=
  {| pendingRequests := (pendingRequests c + d)%Z; stdinEnded := stdinEnded c;
     exited := exited c; tasks := tasks c |}.

(** [checkExit], lines 192-197. *)
Definition checkExit (c : control) : control :=
  if stdinEnded c && (pendingRequests c =? 0)%Z then
    {| pendingRequests := pendingRequests c; stdinEnded := stdinEnded c;
       exited := Some 0%Z; tasks := tasks c |}
  else c.

(** The [finally] block, lines 219-222. *)
Definition finally (c : control) : control := checkExit (add_pending (-1) c).

(** Lines 209-211: [null] means that nothing is written. *)
Definition written (response : value) : list value :=
  match response with
  | VNull => []
  | _ => [response]
  end.

Inductive event : Type :=
| ELine (line : string)
    (* [processLine(line)] is called *)
| EResume (i : nat)
    (* [handle] had returned at once; [processLine] resumes *)
| ESettle (i : nat) (b : Net.behaviour)
    (* the remote end has behaved as [b]; [forward] settles *)
| EStdinEnd
| EUncaught.
    (* an exception nothing catches (an error of a stream, say) reaches
       the ['uncaughtException'] handler, lines 250-253 *)

(** One event: the new state and the messages written, in order. *)
Definition step_ctl (e : event) (c : control) : control * list value :=
  match exited c with
  | Some _ => (c, [])
  | None =>
      match e with
      | ELine line =>
          if blank line then (c, [])
          else
            let c1 := add_pending 1 c in
            match JSON_parse (VStr line) with
            | Throw err => (finally c1, [internal_error err])
            | Return request =>
                match handle request with
                | Reply response =>
                    (set_tasks (tasks c1 ++ [Replying response]) c1, [])
                | Forward =>
                    (set_tasks (tasks c1 ++ [Forwarding request]) c1, [])
                end
            end
      | EResume i =>
          match tasks c !! i with
          | Some (Replying response) =>
              (finally (set_tasks (<[i := Settled]> (tasks c)) c),
               written response)
          | _ => (c, [])
          end
      | ESettle i b =>
          match tasks c !! i with
          | Some (Forwarding request) =>
              match forward request b with
              | Some (_, Return response) =>
                  (finally (set_tasks (<[i := Settled]> (tasks c)) c),
                   written response)
              | Some (_, Throw err) =>
                  (finally (set_tasks (<[i := Settled]> (tasks c)) c),
                   [internal_error err])
              | None => (c, [])
              end
          | _ => (c, [])
          end
      | EStdinEnd =>
          (checkExit {| pendingRequests := pendingRequests c;
                        stdinEnded := true;
                        exited := exited c; tasks := tasks c |}, [])
      | EUncaught =>
          ({| pendingRequests := pendingRequests c;
              stdinEnded := stdinEnded c;
              exited := Some 1%Z; tasks := tasks c |}, [])
      end
  end.

Definition step (e : event) (w : World) : World :=
  let '(c, out) := step_ctl e (ctl w) in
  {| ctl := c; stdout := stdout w ++ out |}.

Definition run (evs : list event) (w : World) : World :=
  fold_left (fun w e => step e w) evs w.

(** The same run, from the state alone: where it ends and what it
    writes. *)
Fixpoint run_ctl (evs : list event) (c : control) : control * list value :=
  match evs with
  | [] => (c, [])
  | e :: rest =>
      let '(c1, out1) := step_ctl e c in
      let '(c2, out2) := run_ctl rest c1 in
      (c2, out1 ++ out2)
  end.

(** What version 1 writes for one line, lines 431-448, against a remote
    end that behaves as [b] ([None]: the loop never gets past the line). *)
Definition line_v1 (line : string) (b : Net.behaviour) : option (list value) :=
  if blank line then Some []
  else
    match JSON_parse (VStr line) with
    | Throw err => Some [internal_error err]
    | Return request =>
        match handle_v1 request with
        | Reply response => Some [response]
        | Forward =>
            match forward_v1 request b with
            | Some (_, Return response) => Some [response]
            | Some (_, Throw err) => Some [internal_error err]
            | None => None
            end
        end
    end.

(** *** Standard input, lines 229-247 *)

(** The line feed. *)
Definition LF : ascii := ascii_of_nat 10.

(** [text.split('\n')]: the pieces between the line feeds, of which there
    is always at least one. *)
Fixpoint split_lines (text : string) : list string :=
  match text with
  | EmptyString => [EmptyString]
  | String a rest =>
      if Ascii.eqb a LF then EmptyString :: split_lines rest
      else
        match split_lines rest with
        | first :: others => String a first :: others
        | [] => [String a EmptyString]
        end
  end.

(** The text holds no line feed. *)
Fixpoint one_line (text : string) : bool :=
  match text with
  | EmptyString => true
  | String a rest => negb (Ascii.eqb a LF) && one_line rest
  end.

(** The text of a line, terminated. *)
Definition terminated (line : string) : string :=
  line +:+ String LF EmptyString.

(** The ['data'] handler, lines 232-241, on the buffer and the state:
    the chunk is appended, the last piece is kept back as the new buffer
    and [processLine] is called on each piece before it, in order. *)
Definition on_data (chunk : string) (st : string * World) : string * World :=
  let lines := split_lines (fst st +:+ chunk) in
  (List.last lines EmptyString,
   run (map ELine (removelast lines)) (snd st)).

(** The ['end'] handler, lines 243-247: the buffer is not looked at. *)
Definition on_end (st : string * World) : string * World :=
  (fst st, step EStdinEnd (snd st)).

(** What the event loop brings, one thing at a time: a chunk of standard
    input, its end, or one of the events that let a suspended call of
    [processLine] go on. *)
Inductive input : Type :=
| IData (chunk : string)
| IResume (i : nat)
| ISettle (i : nat) (b : Net.behaviour)
| IEnd
| IUncaught.

Definition on_input (x : input) (st : string * World) : string * World :=
  match x with
  | IData chunk => on_data chunk st
  | IResume i => (fst st, step (EResume i) (snd st))
  | ISettle i b => (fst st, step (ESettle i b) (snd st))
  | IEnd => on_end st
  | IUncaught => (fst st, step EUncaught (snd st))
  end.

Definition feed (inputs : list input) (st : string * World)
  : string * World :=
  fold_left (fun st x => on_input x st) inputs st.

(** The events some inputs amount to, given what is in the buffer: a
    chunk stands for the calls of [processLine] on the lines it
    completes. *)
Fixpoint events_of (inputs : list input) (buffer : string) : list event :=
  match inputs with
  | [] => []
  | IData chunk :: rest =>
      let lines := split_lines (buffer +:+ chunk) in
      map ELine (removelast lines)
      ++ events_of rest (List.last lines EmptyString)
  | IResume i :: rest => EResume i :: events_of rest buffer
  | ISettle i b :: rest => ESettle i b :: events_of rest buffer
  | IEnd :: rest => EStdinEnd :: events_of rest buffer
  | IUncaught :: rest => EUncaught :: events_of rest buffer
  end.

(** The text of some lines, each terminated, and of what follows them. *)
Definition text_of_lines (lines : list string) (tail : string) : string :=
  fold_right (fun line acc => terminated line +:+ acc) tail lines.

(** The event is a call of [processLine] that gets past line 203. *)
Definition accepts (e : event) : bool :=
  match e with
  | ELine line => negb (blank line)
  | _ => false
  end.

(** *** Version 1: the ['data'] handler, lines 426-450 *)

(** Where a run of the handler's loop stands: suspended at
    [await handle(request)], with the lines of its chunk that are still
    to come, or finished. *)
Inductive loop : Type :=
| AwaitReply (response : value) (rest : list string)
    (* [handle] had returned at once *)
| AwaitForward (request : value) (rest : list string)
    (* [handle] waits for [forward] *)
| Done.

Record state_v1 : Type := {
  buffer_v1 : string;
  pending_v1 : Z;
  ended_v1 : bool;
  exited_v1 : option Z;
  loops_v1 : list loop;
  stdout_v1 : list value }.

(** The process once the script has run to its last line; the guard of
    lines 288-291 is that of version 2.1. *)
Definition started_v1 : state_v1 :=
  {| buffer_v1 := EmptyString; pending_v1 := 0; ended_v1 := false;
     exited_v1 := if String.eqb TOKEN "" then Some 1%Z else None;
     loops_v1 := []; stdout_v1 := [] |}.

(** [pendingRequests++], line 434. *)
Definition count_v1 (st : state_v1) : state_v1 :=
  {| buffer_v1 := buffer_v1 st; pending_v1 := (pending_v1 st + 1)%Z;
     ended_v1 := ended_v1 st; exited_v1 := exited_v1 st;
     loops_v1 := loops_v1 st; stdout_v1 := stdout_v1 st |}.

(** [respond(message)] and the [finally] block, lines 438-448. *)
Definition settle_v1 (message : value) (st : state_v1) : state_v1 :=
  let pending := (pending_v1 st - 1)%Z in
  {| buffer_v1 := buffer_v1 st; pending_v1 := pending;
     ended_v1 := ended_v1 st;
     exited_v1 := if ended_v1 st && (pending =? 0)%Z then Some 0%Z
                  else exited_v1 st;
     loops_v1 := loops_v1 st; stdout_v1 := stdout_v1 st ++ [message] |}.

(** The loop of lines 431-449 from one line on, until it suspends, its
    lines run out or the process has exited. *)
Fixpoint advance_v1 (lines : list string) (st : state_v1)
  : state_v1 * loop :=
  match lines with
  | [] => (st, Done)
  | line :: rest =>
      match exited_v1 st with
      | Some _ => (st, Done)
      | None =>
          if blank line then advance_v1 rest st
          else
            match JSON_parse (VStr line) with
            | Throw err =>
                advance_v1 rest (settle_v1 (internal_error err) (count_v1 st))
            | Return request =>
                match handle_v1 request with
                | Reply response => (count_v1 st, AwaitReply response rest)
                | Forward => (count_v1 st, AwaitForward request rest)
                end
            end
      end
  end.

Definition set_loops_v1 (ls : list loop) (st : state_v1) : state_v1 :=
  {| buffer_v1 := buffer_v1 st; pending_v1 := pending_v1 st;
     ended_v1 := ended_v1 st; exited_v1 := exited_v1 st;
     loops_v1 := ls; stdout_v1 := stdout_v1 st |}.

(** The loop numbered [i] resumes with the message to write. *)
Definition continue_v1 (i : nat) (message : value) (rest : list string)
    (st : state_v1) : state_v1 :=
  let '(st', l) := advance_v1 rest (settle_v1 message st) in
  set_loops_v1 (<[i := l]> (loops_v1 st')) st'.

Inductive event_v1 : Type :=
| V1Data (chunk : string)
| V1Resume (i : nat)
| V1Settle (i : nat) (b : Net.behaviour)
| V1End.

Definition step_v1 (e : event_v1) (st : state_v1) : state_v1 :=
  match exited_v1 st with
  | Some _ => st
  | None =>
      match e with
      | V1Data chunk =>
          let lines := split_lines (buffer_v1 st +:+ chunk) in
          let st0 := {| buffer_v1 := List.last lines EmptyString;
                        pending_v1 := pending_v1 st; ended_v1 := ended_v1 st;
                        exited_v1 := exited_v1 st; loops_v1 := loops_v1 st;
                        stdout_v1 := stdout_v1 st |} in
          let '(st', l) := advance_v1 (removelast lines) st0 in
          set_loops_v1 (loops_v1 st' ++ [l]) st'
      | V1Resume i =>
          match loops_v1 st !! i with
          | Some (AwaitReply response rest) => continue_v1 i response rest st
          | _ => st
          end
      | V1Settle i b =>
          match loops_v1 st !! i with
          | Some (AwaitForward request rest) =>
              match forward_v1 request b with
              | Some (_, Return response) => continue_v1 i response rest st
              | Some (_, Throw err) =>
                  continue_v1 i (internal_error err) rest st
              | None => st
              end
          | _ => st
          end
      | V1End =>
          {| buffer_v1 := buffer_v1 st; pending_v1 := pending_v1 st;
             ended_v1 := true;
             exited_v1 := if (pending_v1 st =? 0)%Z then Some 0%Z
                          else exited_v1 st;
             loops_v1 := loops_v1 st; stdout_v1 := stdout_v1 st |}
      end
  end.

Definition run_v1 (evs : list event_v1) (st : state_v1) : state_v1 :=
  fold_left (fun st e => step_v1 e st) evs st.

End Process.

(** The loop is suspended. *)
Definition awaiting (l : loop) : bool :=
  match l with
  | Done => false
  | _ => true
  end.

Definition awaited (l : loop) : Z := if awaiting l then 1%Z else 0%Z.

(** Version 1 counts the suspended loops. *)
Definition counted_v1 (st : state_v1) : Prop :=
  pending_v1 st = Z.of_nat (length (List.filter awaiting (loops_v1 st))).

(** The calls of [processLine] that have not reached their [finally]. *)
Definition unsettled (t : task) : bool :=
  match t with
  | Settled => false
  | _ => true
  end.

Definition open_calls (c : control) : Z :=
  Z.of_nat (length (List.filter unsettled (tasks c))).

(** While the wrapper runs, the counter counts the open calls, and
    standard input has not ended with nothing pending. *)
Definition running_ok (c : control) : Prop :=
  exited c = None ->
  pendingRequests c = open_calls c
  /\ (stdinEnded c = true -> pendingRequests c <> 0%Z).

(** The counter counts the open calls.  The wrapper has exited with
    status 0 once standard input has ended and no call is open, or with
    status 1 after something abnormal (the token is missing, an
    exception was not caught); it runs as long as neither is the case. *)
Definition exit_ok (abnormal : Prop) (c : control) : Prop :=
  pendingRequests c = open_calls c
  /\ match exited c with
     | Some code =>
         (code = 0%Z /\ stdinEnded c = true /\ open_calls c = 0%Z)
         \/ (code = 1%Z /\ abnormal)
     | None =>
         ~ abnormal /\ (stdinEnded c = true -> open_calls c <> 0%Z)
     end.

(** The chunks of standard input among some inputs, in order. *)
Definition chunks_of (inputs : list input) : list string :=
  omap (fun x => match x with
                 | IData chunk => Some chunk
                 | _ => None
                 end) inputs.

(** The lines [processLine] is called on among some events, in order. *)
Definition lines_of (evs : list event) : list string :=
  omap (fun e => match e with
                 | ELine line => Some line
                 | _ => None
                 end) evs.

(** The methods version 2.1 answers itself. *)
Definition local_methods : list string := ["initialize"; "ping"; "tools/list"].

(** A JSON-RPC notification: a request object without an [id]. *)
Definition is_notification (request : value) : Prop :=
  exists props, request = VObj props /\ assoc "id" props = None
                /\ exists m, assoc "method" props = Some (VStr m).

End Wrapper.

(** ** The connectivity test run by [npm test] *)

Module SelfTest.
Import JS.

(** [new Error(v).message]: an [undefined] argument gives the empty
    message. *)
Definition new_Error (v : value) : js_error :=
  match v with
  | VUndef => Error ""
  | _ => Error (ToString v)
  end.

Inductive status : Type :=
| Ok
| Failed (error : string).

Section Run.

Variable process_env : string -> option string.
Variable JSON_parse : value -> completion value.

(** How the [fetch] of a URL settles: the remote ends are inputs. *)
Variable fetch : string -> Http.fetch_result.

(** [checkEnv], lines 32-38. *)
Definition checkEnv (name : string) : completion string :=
  match process_env name with
  | Some v =>
      if String.eqb v "" then
        Throw (Error ("Missing " +:+ name +:+ " environment variable"))
      else Return v
  | None => Throw (Error ("Missing " +:+ name +:+ " environment variable"))
  end.

(** [if (!response.ok) throw new Error(`HTTP ${response.status}`)], after
    the [await fetch(...)]. *)
Definition require_ok (r : Http.fetch_result) : completion Net.response :=
  match r with
  | Http.Rejects e => Throw e
  | Http.Responds resp =>
      if Net.ok resp then Return resp
      else Throw (Error ("HTTP " +:+ pretty (Net.status resp)))
  end.

(** A test function: the URLs it has fetched and how it ends. *)
Definition test : Type := list string * completion unit.

Definition POLYDEV_URL : string := "https://www.polydev.ai/api/mcp".
Definition GITHUB_URL : string := "https://api.github.com/user".

(** Lines 42-70. *)
Definition test_polydev : test :=
  match checkEnv "POLYDEV_USER_TOKEN" with
  | Throw e => ([], Throw e)
  | Return token =>
      ([POLYDEV_URL],
       resp ← require_ok (fetch POLYDEV_URL);
       json ← JSON_parse (VStr (Net.body resp));
       err ← get_prop json "error";
       if truthy err then
         message ← get_prop err "message";
         Throw (new_Error message)
       else Return tt)
  end.

(** Lines 73-93. *)
Definition test_exa : test :=
  match checkEnv "EXA_API_KEY" with
  | Throw e => ([], Throw e)
  | Return key =>
      let url := "https://mcp.exa.ai/mcp?exaApiKey=" +:+ key in
      ([url], resp ← require_ok (fetch url); Return tt)
  end.

(** Lines 96-121. *)
Definition test_vercel : test :=
  match checkEnv "VERCEL_TOKEN" with
  | Throw e => ([], Throw e)
  | Return token =>
      match checkEnv "VERCEL_TEAM" with
      | Throw e => ([], Throw e)
      | Return team =>
          match checkEnv "VERCEL_PROJECT" with
          | Throw e => ([], Throw e)
          | Return project =>
              let url := "https://mcp.vercel.com/" +:+ team +:+ "/"
                         +:+ project in
              ([url], resp ← require_ok (fetch url); Return tt)
          end
      end
  end.

(** Lines 124-129: no request is made. *)
Definition test_supabase : test :=
  ([], _ ← checkEnv "SUPABASE_ACCESS_TOKEN";
       _ ← checkEnv "SUPABASE_PROJECT_REF";
       Return tt).

(** Lines 132-144. *)
Definition test_github : test :=
  match checkEnv "GITHUB_TOKEN" with
  | Throw e => ([], Throw e)
  | Return token =>
      ([GITHUB_URL],
       resp ← require_ok (fetch GITHUB_URL);
       user ← JSON_parse (VStr (Net.body resp));
       login ← get_prop user "login";
       Return tt)
  end.

(** What [main] has done so far: the URLs fetched and the [results]. *)
Record report : Type := {
  fetched : list string;
  results : list (string * status) }.

(** [testServer], lines 18-29. *)
Definition testServer (name : string) (t : test) (r : report) : report :=
  {| fetched := fetched r ++ fst t;
     results := results r
                ++ [(name, match snd t with
                           | Return _ => Ok
                           | Throw err => Failed (err_message err)
                           end)] |}.

(** [main], lines 40-144: the five checks, one after the other. *)
Definition main_checks : report :=
  testServer "github" test_github
    (testServer "supabase" test_supabase
       (testServer "vercel" test_vercel
          (testServer "exa" test_exa
             (testServer "polydev" test_polydev
                {| fetched := []; results := [] |})))).

Definition is_ok (r : string * status) : bool :=
  match snd r with
  | Ok => true
  | Failed _ => false
  end.

(** The two counts of the summary, lines 148-149. *)
Definition passed (r : report) : nat := length (List.filter is_ok (results r)).
Definition failed (r : report) : nat :=
  length (List.filter (fun x => negb (is_ok x)) (results r)).

(** Lines 154-161: [process.exit(1)] when a check has failed; otherwise
    [main] returns and the process ends of its own accord. *)
Definition main_exit (r : report) : option Z :=
  if Nat.ltb 0 (failed r) then Some 1%Z else None.

(** The value of a variable that [checkEnv] accepts. *)
Definition credential (name : string) : option string :=
  match process_env name with
  | Some v => if String.eqb v "" then None else Some v
  | None => None
  end.

(** The first of some variables that [checkEnv] refuses. *)
Definition first_missing (names : list string) : option string :=
  List.find (fun name => bool_decide (credential name = None)) names.

End Run.

(** The variables each check asks for, in the order it asks. *)
Definition required : list (string * list string) :=
  [ ("polydev", ["POLYDEV_USER_TOKEN"]);
    ("exa", ["EXA_API_KEY"]);
    ("vercel", ["VERCEL_TOKEN"; "VERCEL_TEAM"; "VERCEL_PROJECT"]);
    ("supabase", ["SUPABASE_ACCESS_TOKEN"; "SUPABASE_PROJECT_REF"]);
    ("github", ["GITHUB_TOKEN"]) ].

(** The variables the checks read. *)
Definition variables_read : list string :=
  [ "POLYDEV_USER_TOKEN"; "EXA_API_KEY"; "VERCEL_TOKEN"; "VERCEL_TEAM";
    "VERCEL_PROJECT"; "SUPABASE_ACCESS_TOKEN"; "SUPABASE_PROJECT_REF";
    "GITHUB_TOKEN" ].

End SelfTest.

(** ** Sample data for the examples *)

Module Samples.
Import JS.

(** The double quote character. *)
Definition dq : string := String (ascii_of_nat 34) EmptyString.

(** The text [{"x":1}]. *)
Definition text_x1 : string := "{" +:+ dq +:+ "x" +:+ dq +:+ ":1}".

(** The line [{"jsonrpc":"2.0","method":"notifications/cancelled"}]. *)
Definition line_cancelled : string :=
  "{" +:+ dq +:+ "jsonrpc" +:+ dq +:+ ":" +:+ dq +:+ "2.0" +:+ dq +:+ ","
  +:+ dq +:+ "method" +:+ dq +:+ ":" +:+ dq +:+ "notifications/cancelled"
  +:+ dq +:+ "}".

Definition request_cancelled : value :=
  VObj [("jsonrpc", VStr "2.0"); ("method", VStr "notifications/cancelled")].

(** The line [{"jsonrpc":"2.0","id":7,"method":"ping"}]. *)
Definition line_ping : string :=
  "{" +:+ dq +:+ "jsonrpc" +:+ dq +:+ ":" +:+ dq +:+ "2.0" +:+ dq +:+ ","
  +:+ dq +:+ "id" +:+ dq +:+ ":7," +:+ dq +:+ "method" +:+ dq +:+ ":"
  +:+ dq +:+ "ping" +:+ dq +:+ "}".

Definition request_ping : value :=
  VObj [("jsonrpc", VStr "2.0"); ("id", VNum 7); ("method", VStr "ping")].

(** The body [{"jsonrpc":"2.0","id":1,"result":{}}]. *)
Definition body_initialized : string :=
  "{" +:+ dq +:+ "jsonrpc" +:+ dq +:+ ":" +:+ dq +:+ "2.0" +:+ dq +:+ ","
  +:+ dq +:+ "id" +:+ dq +:+ ":1," +:+ dq +:+ "result" +:+ dq +:+ ":{}}".

Definition answer_initialized : value :=
  VObj [("jsonrpc", VStr "2.0"); ("id", VNum 1); ("result", VObj [])].

Definition SyntaxError : js_error :=
  JsError "SyntaxError" "Unexpected token in JSON".

(** [JSON.parse] on the texts the examples use; the other texts that
    occur there ([plain], [{oops]) are not JSON. *)
Definition JSON_parse (v : value) : completion value :=
  match v with
  | VStr s =>
      if String.eqb s text_x1 then Return (VObj [("x", VNum 1)])
      else if String.eqb s line_cancelled then Return request_cancelled
      else if String.eqb s line_ping then Return request_ping
      else if String.eqb s body_initialized then Return answer_initialized
      else Throw SyntaxError
  | _ => Throw SyntaxError
  end.

(** [!line.trim()] on lines of ASCII text. *)
Definition is_space (a : ascii) : bool :=
  let n := nat_of_ascii a in
  Nat.eqb n 32 || (Nat.leb 9 n && Nat.leb n 13).

Fixpoint blank (line : string) : bool :=
  match line with
  | EmptyString => true
  | String a rest => is_space a && blank rest
  end.

(** A process environment without any of the variables. *)
Definition no_env (_ : string) : option string := None.

(** The line
    [{"jsonrpc":"2.0","id":8,"method":"tools/call","params":{"name":"list_available_models"}}]. *)
Definition line_call : string :=
  "{" +:+ dq +:+ "jsonrpc" +:+ dq +:+ ":" +:+ dq +:+ "2.0" +:+ dq +:+ ","
  +:+ dq +:+ "id" +:+ dq +:+ ":8," +:+ dq +:+ "method" +:+ dq +:+ ":"
  +:+ dq +:+ "tools/call" +:+ dq +:+ "," +:+ dq +:+ "params" +:+ dq +:+ ":{"
  +:+ dq +:+ "name" +:+ dq +:+ ":" +:+ dq +:+ "list_available_models" +:+ dq
  +:+ "}}".

Definition request_call : value :=
  VObj [("jsonrpc", VStr "2.0"); ("id", VNum 8); ("method", VStr "tools/call");
        ("params", VObj [("name", VStr "list_available_models")])].

(** The body [{"jsonrpc":"2.0","id":2,"result":{}}]. *)
Definition body_initialized_2 : string :=
  "{" +:+ dq +:+ "jsonrpc" +:+ dq +:+ ":" +:+ dq +:+ "2.0" +:+ dq +:+ ","
  +:+ dq +:+ "id" +:+ dq +:+ ":2," +:+ dq +:+ "result" +:+ dq +:+ ":{}}".

Definition answer_initialized_2 : value :=
  VObj [("jsonrpc", VStr "2.0"); ("id", VNum 2); ("result", VObj [])].

(** An answer with status 200. *)
Definition answer_200 (body : string) : Net.response :=
  {| Net.ok := true; Net.status := 200; Net.body := body |}.

(** An environment that holds a GitHub token for the connectivity test
    and nothing else. *)
Definition env_github_token (name : string) : option string :=
  if String.eqb name "GITHUB_TOKEN" then Some "ghp_example" else None.

(** The same with the token the registry reads as well. *)
Definition env_github_both (name : string) : option string :=
  if String.eqb name "GITHUB_PERSONAL_ACCESS_TOKEN" then Some "ghp_other"
  else env_github_token name.

(** A network without connectivity. *)
Definition offline (url : string) : Http.fetch_result :=
  Http.Rejects (JsError "TypeError" "fetch failed").

(** [JSON.parse] on the texts above, on [line_call] and on
    [body_initialized_2]. *)
Definition JSON_parse_call (v : value) : completion value :=
  match v with
  | VStr s => if String.eqb s line_call then Return request_call
              else if String.eqb s body_initialized_2
                   then Return answer_initialized_2
              else JSON_parse v
  | _ => JSON_parse v
  end.

(** The line [{"jsonrpc":"2.0","method":"notifications/initialized"}]. *)
Definition line_initialized : string :=
  "{" +:+ dq +:+ "jsonrpc" +:+ dq +:+ ":" +:+ dq +:+ "2.0" +:+ dq +:+ ","
  +:+ dq +:+ "method" +:+ dq +:+ ":" +:+ dq +:+ "notifications/initialized"
  +:+ dq +:+ "}".

Definition request_initialized : value :=
  VObj [("jsonrpc", VStr "2.0"); ("method", VStr "notifications/initialized")].

(** [JSON.parse] on the texts above and on [line_initialized]. *)
Definition JSON_parse_notes (v : value) : completion value :=
  match v with
  | VStr s => if String.eqb s line_initialized then Return request_initialized
              else JSON_parse_call v
  | _ => JSON_parse_call v
  end.

End Samples.

(* ===================================================================== *)
(** * Part II: properties                                                 *)
(* ===================================================================== *)

Import JS.

(** ** The result normalizer *)

Section NormalizerProps.
Import Normalizer.

Variable JSON_parse : value -> completion value.

Lemma get_prop_obj props k :
  get_prop (VObj props) k = Return (default VUndef (assoc k props)).
Proof. reflexivity. Qed.

Lemma is_text_entry_type e ty :
  get_prop e "type" = Return ty ->
  strict_eq_str ty "text" = is_text_entry e.
Proof.
  destruct e as [| |b|n|s|items|props]; simpl; intros H;
    try discriminate; injection H as <-; try reflexivity.
  destruct (assoc "type" props); reflexivity.
Qed.

Lemma parse_or_text_spec e :
  is_text_entry e = true ->
  parse_or_text JSON_parse e =
  Return match JSON_parse (text_of e) with
         | Return v => v
         | Throw _ => text_of e
         end.
Proof.
  destruct e as [| |b|n|s|items|props]; simpl; try discriminate.
  intros _. unfold parse_or_text. simpl.
  destruct (JSON_parse _); reflexivity.
Qed.

(** The shared inner part of both implementations, on a content list. *)
Lemma extract_list l result :
  content_list result = Some l ->
  entry_readable result -> content_nonempty result ->
  match l with
  | [c0] =>
      ty ← get_prop c0 "type";
      if strict_eq_str ty "text" then parse_or_text JSON_parse c0
      else Return (VArr l)
  | _ => Return (VArr l)
  end = Return (spec_normalize JSON_parse result).
Proof.
  intros Hl [Hnull Hundef] Hne. unfold spec_normalize. rewrite Hl.
  destruct l as [|c0 [|c1 rest]]; try reflexivity; [congruence|].
  destruct (get_prop c0 "type") as [ty|err] eqn:Hty.
  - simpl. rewrite (is_text_entry_type _ _ Hty).
    destruct (is_text_entry c0) eqn:Htext; [|reflexivity].
    by apply parse_or_text_spec.
  - destruct c0; try discriminate; congruence.
Qed.

Lemma content_list_obj props :
  content_list (VObj props) =
  match assoc "content" props with
  | Some (VArr l) => Some l
  | _ => None
  end.
Proof. reflexivity. Qed.

Lemma callMCPTool_extract_spec result :
  entry_readable result -> content_nonempty result ->
  result <> VUndef -> result <> VNull ->
  callMCPTool_extract JSON_parse result = Return (spec_normalize JSON_parse result).
Proof.
  intros Hread Hne Hu Hn.
  destruct result as [| |b|n|s|items|props]; try congruence; try reflexivity.
  unfold callMCPTool_extract. rewrite get_prop_obj. simpl.
  destruct (assoc "content" props) as [content|] eqn:Hc; simpl.
  - destruct content as [| |b|n|s|l|ps]; simpl; rewrite ?andb_false_r;
      try (unfold spec_normalize; by rewrite content_list_obj, Hc).
    apply (extract_list l); [|done|done]. by rewrite content_list_obj, Hc.
  - unfold spec_normalize. by rewrite content_list_obj, Hc.
Qed.

Lemma callTool_extract_spec result :
  entry_readable result -> content_nonempty result ->
  content_absent_or_list result ->
  callTool_extract JSON_parse result = Return (spec_normalize JSON_parse result).
Proof.
  intros Hread Hne Hlist.
  destruct result as [| |b|n|s|items|props]; try reflexivity.
  - unfold callTool_extract. simpl. by destruct b.
  - unfold callTool_extract. simpl. by destruct (negb _).
  - unfold callTool_extract. simpl. by destruct (negb _).
  - unfold callTool_extract. simpl.
    destruct (assoc "content" props) as [content|] eqn:Hc.
    + rewrite bool_decide_eq_true_2 by eauto. simpl.
      destruct (Hlist) as [l Hl].
      { simpl. rewrite Hc. by apply bool_decide_eq_true_2. }
      pose proof Hl as Hl'. rewrite content_list_obj, Hc in Hl'.
      destruct content; try discriminate. injection Hl' as ->.
      by apply (extract_list l).
    + rewrite bool_decide_eq_false_2 by (intros [? ?]; discriminate).
      unfold spec_normalize. by rewrite content_list_obj, Hc.
Qed.

(** Where the two implementations do follow the policy of C2: on every
    raw result whose content list, if it has one, is not empty and does
    not consist of [null] alone, the normalizer of [callMCPTool] (whose
    result is the SDK's result object, never [null] or [undefined])
    returns what the policy says: the parsed text of a single text entry,
    or its raw text when parsing fails; a list of several entries or of
    one entry of non-text kind unmodified; the raw result otherwise.  So
    does the normalizer of [HTTPMCPClient.callTool] whenever the
    [content] field, if there is one, is a list. *)
Theorem normalizers_follow_policy (result : value) :
  entry_readable result -> content_nonempty result ->
  (result <> VUndef -> result <> VNull ->
   callMCPTool_extract JSON_parse result
   = Return (spec_normalize JSON_parse result))
  /\ (content_absent_or_list result ->
      callTool_extract JSON_parse result
      = Return (spec_normalize JSON_parse result)).
Proof.
  intros Hread Hne. split.
  - by apply callMCPTool_extract_spec.
  - by apply callTool_extract_spec.
Qed.

End NormalizerProps.

(** The three results of section 8 of the specification, and the
    hypotheses of [normalizers_follow_policy] at the first of them. *)
Lemma normalizers_follow_policy_witness :
  let one_text t := VObj [("content", VArr [VObj [("type", VStr "text"); ("text", VStr t)]])] in
  Normalizer.entry_readable (one_text Samples.text_x1)
  /\ Normalizer.content_nonempty (one_text Samples.text_x1)
  /\ Normalizer.callMCPTool_extract Samples.JSON_parse (one_text Samples.text_x1)
     = Return (VObj [("x", VNum 1)])
  /\ Normalizer.callTool_extract Samples.JSON_parse (one_text Samples.text_x1)
     = Return (VObj [("x", VNum 1)]).
Proof.
  intros one_text.
  assert (Hread : Normalizer.entry_readable (one_text Samples.text_x1))
    by (split; discriminate).
  assert (Hne : Normalizer.content_nonempty (one_text Samples.text_x1))
    by discriminate.
  destruct (normalizers_follow_policy Samples.JSON_parse _ Hread Hne)
    as [H1 H2].
  split; [exact Hread|]. split; [exact Hne|]. split.
  - rewrite H1 by discriminate. reflexivity.
  - rewrite H2; [reflexivity|]. intros _. eexists. reflexivity.
Defined.

Example normalize_plain_text :
  Normalizer.callTool_extract Samples.JSON_parse
    (VObj [("content", VArr [VObj [("type", VStr "text"); ("text", VStr "plain")]])])
  = Return (VStr "plain").
Proof. reflexivity. Qed.

Example normalize_two_entries :
  let l := [VObj [("type", VStr "text"); ("text", VStr "a")];
            VObj [("type", VStr "text"); ("text", VStr "b")]] in
  Normalizer.callMCPTool_extract Samples.JSON_parse (VObj [("content", VArr l)])
  = Return (VArr l).
Proof. reflexivity. Qed.

(** On an empty content list both implementations return the list,
    where the last clause of the policy, as it is worded, gives the raw
    result. *)
Example normalize_empty_list :
  let r0 := VObj [("content", VArr [])] in
  Normalizer.spec_normalize Samples.JSON_parse r0 = r0
  /\ Normalizer.callMCPTool_extract Samples.JSON_parse r0 = Return (VArr [])
  /\ Normalizer.callTool_extract Samples.JSON_parse r0 = Return (VArr []).
Proof. repeat split. Qed.

(** C2 at two failing inputs.  A result whose [content] is not a list
    carries no content list, so the policy returns the raw result, and so
    does [callMCPTool], which tests [Array.isArray] before it looks
    inside; [HTTPMCPClient.callTool] tests it only afterwards and returns
    the [content] field.  And on a one-entry list holding [null], which
    is an entry of non-text kind, both read [content[0].type] unguarded
    and throw instead of returning the list. *)
Lemma normalizer_departs_from_policy :
  let r1 := VObj [("content", VStr "x")] in
  let r2 := VObj [("content", VArr [VNull])] in
  Normalizer.spec_normalize Samples.JSON_parse r1 = r1
  /\ Normalizer.callMCPTool_extract Samples.JSON_parse r1 = Return r1
  /\ Normalizer.callTool_extract Samples.JSON_parse r1 = Return (VStr "x")
  /\ Normalizer.spec_normalize Samples.JSON_parse r2 = VArr [VNull]
  /\ Normalizer.callMCPTool_extract Samples.JSON_parse r2
     = Throw (TypeError_read "null" "type")
  /\ Normalizer.callTool_extract Samples.JSON_parse r2
     = Throw (TypeError_read "null" "type").
Proof. repeat split. Qed.

(** ** The stdio client manager *)

Section StdioProps.
Import Config Stdio.

Variable stdioServers : list (string * StdioServerConfig).

Local Abbreviation createClient := (Stdio.createClient stdioServers).
Local Abbreviation getClient := (Stdio.getClient stdioServers).
Local Abbreviation getClient_times := (Stdio.getClient_times stdioServers).
Local Abbreviation created := (Stdio.created stdioServers).
Local Abbreviation attempts := (Stdio.attempts stdioServers).

Lemma connects_app s l1 l2 :
  connects s (l1 ++ l2) = connects s l1 + connects s l2.
Proof. unfold connects. by rewrite List.filter_app, length_app. Qed.

Lemma createClient_spec s w :
  let w' := fst (createClient s w) in
  snd (createClient s w) = length (promises w)
  /\ clients w' = clients w
  /\ transports w' = transports w
  /\ initializing w' = initializing w
  /\ promises w' = promises w ++ [created s w]
  /\ connects s (io w') = connects s (io w) + attempts s.
Proof.
  unfold Stdio.createClient, Stdio.created, Stdio.attempts.
  destruct (lookup stdioServers s); simpl; repeat split;
    rewrite ?connects_app; simpl; unfold connects; simpl;
    rewrite ?String.eqb_refl; simpl; lia.
Qed.

(** The first caller starts the creation and registers its promise. *)
Lemma getClient_owner s w :
  clients w !! s = None -> initializing w !! s = None ->
  exists w1,
    getClient s w = (w1, Owner s (length (promises w)))
    /\ clients w1 = clients w
    /\ initializing w1 !! s = Some (length (promises w))
    /\ promises w1 = promises w ++ [created s w]
    /\ connects s (io w1) = connects s (io w) + attempts s.
Proof.
  intros Hc Hi. unfold Stdio.getClient. rewrite Hc, Hi.
  pose proof (createClient_spec s w) as H.
  destruct (createClient s w) as [w' p]. simpl in H.
  destruct H as (-> & H1 & H2 & H3 & H4 & H5).
  eexists. split; [reflexivity|]. simpl.
  repeat split; try done. by rewrite lookup_insert_eq.
Qed.

(** A caller that finds the creation in progress changes nothing and is
    handed the promise of that creation. *)
Lemma getClient_joins s p w :
  clients w !! s = None -> initializing w !! s = Some p ->
  getClient s w = (w, Joined p).
Proof. intros Hc Hi. unfold Stdio.getClient. by rewrite Hc, Hi. Qed.

Lemma getClient_times_join n s p w :
  clients w !! s = None -> initializing w !! s = Some p ->
  getClient_times n s w = (w, replicate n (Joined p)).
Proof.
  intros Hc Hi. induction n as [|n IH]; simpl; [done|].
  by rewrite (getClient_joins s p w), IH.
Qed.

(** Resuming callers that wait on one settled promise: each receives
    what the promise delivers, whatever the order. *)
Lemma resume_all_settled s p st o fs : forall w,
  promises w !! p = Some st -> delivers st o ->
  Forall (fun f => f = Owner s p \/ f = Joined p) fs ->
  exists w',
    resume_all fs w = Some (w', replicate (length fs) o)
    /\ promises w' = promises w /\ clients w' = clients w
    /\ io w' = io w
    /\ (initializing w' = initializing w
        \/ initializing w' = delete s (initializing w))
    /\ (Owner s p ∈ fs -> initializing w' = delete s (initializing w)).
Proof.
  induction fs as [|f fs IH]; intros w Hp Hst Hall.
  - exists w. repeat split; eauto. by intros ?%elem_of_nil.
  - apply Forall_cons in Hall as [Hf Hall].
    destruct Hf as [-> | ->]; simpl; rewrite Hp;
      destruct st as [? ? ?|c|e]; simpl in Hst; try done; subst o.
    + destruct (IH (set_initializing (delete s (initializing w)) w))
        as (w' & -> & Hp' & Hc' & Hio' & Hi' & _); [done..|].
      exists w'. simpl in *. rewrite delete_delete_eq in Hi'.
      assert (initializing w' = delete s (initializing w)) by (by destruct Hi').
      repeat split; eauto.
    + destruct (IH (set_initializing (delete s (initializing w)) w))
        as (w' & -> & Hp' & Hc' & Hio' & Hi' & _); [done..|].
      exists w'. simpl in *. rewrite delete_delete_eq in Hi'.
      assert (initializing w' = delete s (initializing w)) by (by destruct Hi').
      repeat split; eauto.
    + destruct (IH w) as (w' & -> & Hp' & Hc' & Hio' & Hi' & Ho'); [done..|].
      exists w'. repeat split; eauto.
      intros [?|?]%elem_of_cons; [done|eauto].
    + destruct (IH w) as (w' & -> & Hp' & Hc' & Hio' & Hi' & Ho'); [done..|].
      exists w'. repeat split; eauto.
      intros [?|?]%elem_of_cons; [done|eauto].
Qed.

Lemma delivers_after_connect s p r w st :
  promises w !! p = Some st ->
  clients w !! s = None ->
  (st = Rejected (Stdio.unknown_server stdioServers s) /\ attempts s = 0
   \/ (exists c t, st = Connecting s c t) /\ attempts s = 1) ->
  let w2 := connect_done p r w in
  exists st2 o,
    promises w2 !! p = Some st2 /\ delivers st2 o
    /\ initializing w2 = initializing w
    /\ connects s (io w2) = connects s (io w)
    /\ match o with
       | Return client => clients w2 !! s = Some client
       | Throw e => clients w2 !! s = None
       end
    /\ (r = None -> attempts s = 1 -> exists client, o = Return client)
    /\ (forall e, r = Some e -> attempts s = 1 -> o = Throw e)
    /\ (attempts s = 0 -> o = Throw (Stdio.unknown_server stdioServers s)).
Proof.
  intros Hp Hc Hst. pose proof (lookup_lt_Some _ _ _ Hp) as Hlt.
  unfold connect_done. rewrite Hp.
  destruct Hst as [[-> Ha] | [(c & t & ->) Ha]].
  - exists (Rejected (Stdio.unknown_server stdioServers s)), (Throw (Stdio.unknown_server stdioServers s)).
    rewrite Ha. repeat split; try done; intros; lia.
  - destruct r as [e|].
    + exists (Rejected e), (Throw e). simpl.
      rewrite list_lookup_insert_eq by done.
      repeat split; try done; intros; try congruence; lia.
    + exists (Fulfilled c), (Return c). simpl.
      rewrite list_lookup_insert_eq by done. rewrite lookup_insert_eq.
      repeat split; try done; intros; try congruence; try lia; eauto.
      rewrite connects_app. unfold connects at 2. simpl. lia.
Qed.


End StdioProps.


(** ** Disconnecting *)

Section DisconnectProps.

Lemma stdio_disconnect_absent s (w : Stdio.World) :
  Stdio.clients w !! s = None -> Stdio.disconnect s w = w.
Proof. intros H. unfold Stdio.disconnect. by rewrite H. Qed.

Lemma stdio_disconnect_clients s (w : Stdio.World) :
  Stdio.clients (Stdio.disconnect s w) = delete s (Stdio.clients w).
Proof.
  unfold Stdio.disconnect.
  destruct (Stdio.clients w !! s) eqn:H; [done|]. by rewrite delete_id.
Qed.

Lemma stdio_disconnect_halves s (w : Stdio.World) :
  Stdio.disconnect s w
  = Stdio.disconnect_end s (snd (Stdio.disconnect_begin s w))
      (fst (Stdio.disconnect_begin s w)).
Proof.
  unfold Stdio.disconnect, Stdio.disconnect_begin.
  by destruct (Stdio.clients w !! s).
Qed.

(** Two calls of [disconnect] that overlap (neither awaited before the
    other starts) leave the maps as one call does. *)
Lemma stdio_disconnect_overlapping s (w : Stdio.World) :
  let '(w1, f1) := Stdio.disconnect_begin s w in
  let '(w2, f2) := Stdio.disconnect_begin s w1 in
  let w4 := Stdio.disconnect_end s f2 (Stdio.disconnect_end s f1 w2) in
  Stdio.clients w4 = Stdio.clients (Stdio.disconnect s w)
  /\ Stdio.transports w4 = Stdio.transports (Stdio.disconnect s w)
  /\ Stdio.initializing w4 = Stdio.initializing (Stdio.disconnect s w).
Proof.
  unfold Stdio.disconnect_begin, Stdio.disconnect. simpl.
  destruct (Stdio.clients w !! s) eqn:H; simpl; rewrite ?H; simpl;
    by rewrite ?delete_delete_eq.
Qed.

(** C8: [disconnect] of a server that has no cached session (unknown,
    or disconnected before) changes nothing at all; a second
    [disconnect] after a first leaves the state the first one left; and
    no other server's cached session is touched.  This holds for the
    stdio manager and for the HTTP manager. *)
Theorem disconnect_idempotent (s : string) (w : Stdio.World) (h : Http.World) :
  (Stdio.clients w !! s = None -> Stdio.disconnect s w = w)
  /\ Stdio.disconnect s (Stdio.disconnect s w) = Stdio.disconnect s w
  /\ (forall s', s' <> s ->
      Stdio.clients (Stdio.disconnect s w) !! s' = Stdio.clients w !! s')
  /\ (Http.clients h !! s = None -> Http.disconnect s h = h)
  /\ Http.disconnect s (Http.disconnect s h) = Http.disconnect s h
  /\ (forall s', s' <> s ->
      Http.clients (Http.disconnect s h) !! s' = Http.clients h !! s').
Proof.
  repeat split.
  - apply stdio_disconnect_absent.
  - apply stdio_disconnect_absent.
    rewrite stdio_disconnect_clients. apply lookup_delete_eq.
  - intros s' Hne. rewrite stdio_disconnect_clients.
    by apply lookup_delete_ne.
  - intros H. destruct h as [cs hp l]. unfold Http.disconnect. simpl in *.
    by rewrite delete_id.
  - unfold Http.disconnect. simpl. by rewrite delete_delete_eq.
  - intros s' Hne. simpl. by apply lookup_delete_ne.
Qed.

End DisconnectProps.

(** A manager that holds [memory] and [git]: disconnecting [memory]
    twice, and an unknown name once. *)
Lemma disconnect_idempotent_witness :
  let w := {| Stdio.clients := {[ "memory" := 1; "git" := 3 ]};
              Stdio.transports := {[ "memory" := 0; "git" := 2 ]};
              Stdio.initializing := ∅; Stdio.promises := [];
              Stdio.objects := 4; Stdio.io := [] |} in
  Stdio.clients (Stdio.disconnect "memory" (Stdio.disconnect "memory" w)) !! "git"
  = Some 3
  /\ Stdio.disconnect "nowhere" w = w.
Proof.
  intros w.
  destruct (disconnect_idempotent "memory" w Http.fresh) as (_ & H2 & H3 & _).
  destruct (disconnect_idempotent "nowhere" w Http.fresh) as (H1 & _).
  split.
  - rewrite H2, H3 by discriminate. reflexivity.
  - apply H1. reflexivity.
Defined.

(** ** Names the registry does not know *)

(** A name that is neither a key of the registry nor a member of
    [Object.prototype] is rejected by [createClient] before anything is
    allocated or connected: the promise is born rejected with the error
    that names the server. *)
Lemma stdio_unknown_rejected reg s (w : Stdio.World) :
  Config.lookup reg s = Config.Absent ->
  Stdio.clients w !! s = None -> Stdio.initializing w !! s = None ->
  exists w1,
    Stdio.getClient reg s w = (w1, Stdio.Owner s (length (Stdio.promises w)))
    /\ Stdio.io w1 = Stdio.io w
    /\ Stdio.objects w1 = Stdio.objects w
    /\ Stdio.promises w1
       = Stdio.promises w ++ [Stdio.Rejected (Stdio.unknown_server reg s)].
Proof.
  intros Hl Hc Hi. unfold Stdio.getClient, Stdio.createClient.
  rewrite Hc, Hi, Hl. eexists. split; [reflexivity|]. by simpl.
Qed.

(** Likewise [HTTPClientManager.getClient] throws it, and the exported
    functions finish with it, the world untouched. *)
Lemma http_unknown_rejected parse reg s k (w : Http.World) tasks :
  Config.lookup reg s = Config.Absent ->
  Http.clients w !! s = None ->
  Http.getClient reg s w = Throw (Http.unknown_server reg s)
  /\ Http.step parse reg (Http.ECall k s) (w, tasks)
     = (w, tasks ++ [Http.Finished (Throw (Http.unknown_server reg s))]).
Proof.
  intros Hl Hc. unfold Http.step, Http.getClient. by rewrite Hc, Hl.
Qed.

(** The error names the server. *)
Lemma unknown_server_names_it reg s :
  err_message (Stdio.unknown_server reg s)
  = "Unknown stdio server: " +:+ s +:+ ". Available: "
    +:+ String.concat ", " (Config.keys reg).
Proof. reflexivity. Qed.

(** C3 at a failing input.  [constructor] is a key of neither registry,
    yet [stdioServers['constructor']] and [httpServers['constructor']]
    are truthy (the inherited [Object]), so the check for an unknown
    server passes: [createClient] builds a transport whose command is
    [undefined] and calls [connect], and the HTTP manager caches a client
    without a URL whose [initialize] calls [fetch].  Neither fails with
    the error that names the server. *)
Theorem unknown_check_misses_inherited_names
    (process_env : string -> option string)
    (JSON_parse : value -> completion value) :
  let stdio := Config.stdioServers process_env in
  let http := Config.httpServers process_env in
  let s := "constructor" in
  (s ∉ Config.keys stdio) /\ (s ∉ Config.keys http)
  /\ Config.isHTTPServer process_env s = true
  /\ (let '(w1, f) := Stdio.getClient stdio s Stdio.fresh in
      f = Stdio.Owner s 0
      /\ Stdio.promises w1 = [Stdio.Connecting s 1 0]
      /\ Stdio.io w1
         = [Stdio.Connect s 1 0
              {| Stdio.sp_command := None; Stdio.sp_args := None;
                 Stdio.sp_env := None |}])
  /\ (let '(w2, tasks) :=
        Http.step JSON_parse http (Http.ECall Http.KInitialize s)
          (Http.fresh, []) in
      tasks = [Http.InInitialize Http.KInitialize 0 1]
      /\ Http.clients w2 !! s = Some 0
      /\ exists init r,
           Http.io w2 = [Http.Post 0 None init r]
           /\ Http.req_method r = "initialize").
Proof.
  intros stdio http s. split; [|split].
  - unfold stdio, s. simpl. rewrite !elem_of_cons, elem_of_nil.
    intros H. repeat destruct H as [H|H]; try discriminate; done.
  - unfold http, s. simpl. rewrite !elem_of_cons, elem_of_nil.
    intros H. repeat destruct H as [H|H]; try discriminate; done.
  - split; [reflexivity|]. split; [by repeat split|].
    simpl. split; [reflexivity|]. split; [reflexivity|].
    eexists _, _. split; reflexivity.
Qed.

(** ** The HTTP client *)

Section HttpProps.
Import Config Http.

Variable JSON_parse : value -> completion value.
Variable httpServers : list (string * HTTPServerConfig).

Local Abbreviation step := (Http.step JSON_parse httpServers).
Local Abbreviation run := (Http.run JSON_parse httpServers).

Lemma MAX_EXACT_value : MAX_EXACT = 9007199254740992%Z.
Proof. reflexivity. Qed.

(** [++] on a counter that has counted [n] requests. *)
Lemma incr_counts n :
  incr (Z.min (Z.of_nat n) MAX_EXACT) = Z.min (Z.of_nat (S n)) MAX_EXACT.
Proof.
  unfold incr. rewrite MAX_EXACT_value.
  destruct (Z.ltb_spec (Z.min (Z.of_nat n) 9007199254740992) 9007199254740992);
    lia.
Qed.

Lemma http_run_snoc evs e st : run (evs ++ [e]) st = step e (run evs st).
Proof. unfold Http.run. by rewrite fold_left_app. Qed.

Lemma ids_of_snoc client l e :
  ids_of client (l ++ [e])
  = ids_of client l
    ++ match e with
       | Post c _ _ r => if Nat.eqb c client then [req_id r] else []
       | _ => []
       end.
Proof.
  unfold ids_of, requests_of. rewrite omap_app, map_app. f_equal.
  destruct e as [c u init r|c id]; simpl; [|done]. by destruct (Nat.eqb c client).
Qed.

Lemma handshaken_before_mono client j j' l l' :
  handshaken_before client j l -> j <= j' -> l `prefix_of` l' ->
  handshaken_before client j' l'.
Proof.
  intros (i1 & i2 & u & init & r & Hlt & H1 & Hm & H2) Hj [k ->].
  exists i1, i2, u, init, r. repeat split; try lia; try done.
  - by apply lookup_app_l_Some.
  - by apply lookup_app_l_Some.
Qed.

Lemma task_justified_mono w w' t :
  io w `prefix_of` io w' -> task_justified w t -> task_justified w' t.
Proof.
  intros Hpre. destruct t as [k c id|k c|k c id|r]; simpl; try done.
  - intros (i & u & init & r & H & Hm & Hid). destruct Hpre as [suffix ->].
    exists i, u, init, r. split; [by apply lookup_app_l_Some|done].
  - intros H. eapply handshaken_before_mono; [done| |done].
    by apply prefix_length.
Qed.

(** *** [sendRequest]: the request is numbered and posted *)

Lemma sendRequest_start_spec client method params w c :
  heap w !! client = Some c ->
  exists w' r c',
    sendRequest_start client method params w = (w', req_id r)
    /\ req_id r = incr (requestId c)
    /\ req_method r = method /\ req_params r = params
    /\ clients w' = clients w
    /\ heap w' = <[client := c']> (heap w)
    /\ requestId c' = req_id r
    /\ initialized c' = initialized c
    /\ io w' = io w ++ [Post client (config_url c) (sendRequest_init c r) r].
Proof.
  intros H. unfold sendRequest_start. rewrite H.
  eexists _, {| req_id := _ |}, _. by repeat split.
Qed.

Lemma sendRequest_start_none client method params w :
  heap w !! client = None ->
  sendRequest_start client method params w = (w, 0%Z).
Proof. intros H. unfold sendRequest_start. by rewrite H. Qed.

(** Posting a request keeps the world's invariants, provided that a tool
    request is only posted by a client whose handshake is complete. *)
Lemma sendRequest_start_invariant client method params w :
  world_ok w ->
  (is_tool_method method = true ->
   handshaken_before client (length (io w)) (io w)) ->
  let w' := fst (sendRequest_start client method params w) in
  world_ok w' /\ io w `prefix_of` io w'.
Proof.
  intros (Hcount & Hfirst & Hflag & Hvalid) Htool.
  destruct (heap w !! client) as [c|] eqn:Hc.
  2:{ rewrite sendRequest_start_none by done. simpl. by split_and!. }
  destruct (sendRequest_start_spec client method params w c Hc)
    as (w' & r & c' & -> & Hid & Hm & Hp & Hcl & Hheap & Hrid & Hinit & Hio).
  simpl. pose proof (lookup_lt_Some _ _ _ Hc) as Hlt.
  unfold world_ok. split_and!.
  - intros cj. destruct (Hcount cj) as [Hids Hreq].
    rewrite Hio, ids_of_snoc, Hheap.
    destruct (Nat.eqb_spec client cj) as [<-|Hne].
    + rewrite Hc in Hreq. rewrite list_lookup_insert_eq by done. split.
      * intros i id [[Hi Hl]|[-> <-]]%lookup_snoc_Some; [by apply Hids|].
        rewrite Hid, Hreq. apply incr_counts.
      * rewrite Hrid, Hid, Hreq, length_app. simpl.
        rewrite incr_counts. f_equal. lia.
    + rewrite list_lookup_insert_ne by done. by rewrite app_nil_r.
  - rewrite Hio.
    intros j cj u init rj [[Hj Hl]|[-> Heq]]%lookup_snoc_Some Htm.
    + eapply handshaken_before_mono; [by eapply Hfirst|lia|].
      by apply prefix_app_r.
    + injection Heq as <- <- <- <-.
      apply (handshaken_before_mono client (length (io w)) _ (io w));
        [apply Htool; by rewrite <- Hm|lia|by apply prefix_app_r].
  - intros cj c2. rewrite Hheap, Hio. intros Hl2 Hi2.
    apply (handshaken_before_mono cj (length (io w)) _ (io w));
      [|rewrite length_app; lia|by apply prefix_app_r].
    destruct (decide (client = cj)) as [<-|Hne].
    + rewrite list_lookup_insert_eq in Hl2 by done.
      injection Hl2 as <-. apply (Hflag client c); congruence.
    + rewrite list_lookup_insert_ne in Hl2 by done. by apply (Hflag cj c2).
  - intros sj cj. rewrite Hcl, Hheap, length_insert. apply Hvalid.
  - rewrite Hio. by apply prefix_app_r.
Qed.

(** *** The manager's [getClient] *)

Lemma getClient_invariant s w w1 client :
  world_ok w ->
  getClient httpServers s w = Return (w1, client) ->
  world_ok w1 /\ io w1 = io w /\ client < length (heap w1)
  /\ clients w1 !! s = Some client
  /\ (forall cj c, heap w !! cj = Some c -> heap w1 !! cj = Some c).
Proof.
  intros (Hcount & Hfirst & Hflag & Hvalid). unfold getClient.
  destruct (clients w !! s) as [c0|] eqn:Hs.
  { intros [= <- <-]. split_and!; try done. by eapply Hvalid. }
  assert (Hnew : forall config,
    Return ({| clients := <[s := length (heap w)]> (clients w);
               heap := heap w ++ [new_client s config];
               io := io w |}, length (heap w))
    = Return (w1, client) ->
    world_ok w1 /\ io w1 = io w /\ client < length (heap w1)
    /\ clients w1 !! s = Some client
    /\ (forall cj c, heap w !! cj = Some c -> heap w1 !! cj = Some c)).
  { intros config [= <- <-]. simpl. unfold world_ok.
    split_and!; try done.
    - intros cj. destruct (Hcount cj) as [Hids Hreq]. simpl.
      split; [done|].
      destruct (lt_eq_lt_dec cj (length (heap w))) as [[Hlt| ->]|Hgt].
      + by rewrite lookup_app_l.
      + rewrite list_lookup_middle by done. simpl.
        rewrite lookup_ge_None_2 in Hreq by lia. by rewrite Hreq.
      + rewrite lookup_ge_None_2 by (rewrite length_app; simpl; lia).
        by rewrite lookup_ge_None_2 in Hreq by lia.
    - intros cj c2. simpl. intros Hl Hi.
      destruct (lt_eq_lt_dec cj (length (heap w))) as [[Hlt| ->]|Hgt].
      + rewrite lookup_app_l in Hl by done. by apply (Hflag cj c2).
      + rewrite list_lookup_middle in Hl by done.
        injection Hl as <-. discriminate.
      + rewrite lookup_ge_None_2 in Hl by (rewrite length_app; simpl; lia).
        discriminate.
    - intros sj cj. simpl. rewrite length_app. simpl.
      destruct (decide (s = sj)) as [<-|Hne].
      + rewrite lookup_insert_eq. intros [= <-]. lia.
      + rewrite lookup_insert_ne by done. intros H%Hvalid. lia.
    - rewrite length_app. simpl. lia.
    - by rewrite lookup_insert_eq.
    - intros cj c H. by apply lookup_app_l_Some. }
  destruct (lookup httpServers s); [apply Hnew|apply Hnew|discriminate].
Qed.

(** *** Entering [initialize] *)

Lemma initialize_start_invariant k client w :
  world_ok w ->
  let '(w', t) := initialize_start k client w in
  world_ok w' /\ io w `prefix_of` io w' /\ task_justified w' t.
Proof.
  intros Hok. unfold initialize_start.
  destruct (heap w !! client) as [c|] eqn:Hc; [|by split_and!].
  destruct (initialized c) eqn:Hinit.
  { split_and!; try done. destruct Hok as (_ & _ & Hflag & _).
    by apply (Hflag client c). }
  pose proof (sendRequest_start_invariant client "initialize"
                (initialize_params c) w Hok) as Hinv.
  destruct (sendRequest_start_spec client "initialize" (initialize_params c)
              w c Hc)
    as (w' & r & c' & Heq & Hid & Hm & _ & _ & _ & _ & _ & Hio).
  rewrite Heq in Hinv |- *. simpl in Hinv.
  destruct Hinv as (H1 & H2); [discriminate|].
  split_and!; try done.
  simpl. exists (length (io w)), (config_url c), (sendRequest_init c r), r.
  rewrite Hio. split; [by apply list_lookup_middle|done].
Qed.

(** *** One step of the event loop keeps the invariant *)

Lemma Forall_task_mono w w' ts :
  io w `prefix_of` io w' ->
  Forall (task_justified w) ts -> Forall (task_justified w') ts.
Proof.
  intros Hpre H. eapply Forall_impl; [exact H|].
  intros t. by apply task_justified_mono.
Qed.

Lemma record_handshake_invariant client id result w :
  world_ok w ->
  task_justified w (InInitialize KInitialize client id) ->
  let w' := record_handshake client id result w in
  world_ok w' /\ io w `prefix_of` io w'
  /\ handshaken_before client (length (io w')) (io w').
Proof.
  intros (Hcount & Hfirst & Hflag & Hvalid)
         (i & u & init & r & Hpost & Hm & Hid).
  unfold record_handshake. simpl.
  assert (Hnow : handshaken_before client
                   (length (io w ++ [Handshaken client id]))
                   (io w ++ [Handshaken client id])).
  { exists i, (length (io w)), u, init, r.
    pose proof (lookup_lt_Some _ _ _ Hpost).
    rewrite length_app. simpl. split_and!; try lia; try done.
    - by apply lookup_app_l_Some.
    - rewrite Hid. by apply list_lookup_middle. }
  unfold world_ok. split_and!; try done; [| | | |by apply prefix_app_r].
  - intros cj. destruct (Hcount cj) as [Hids Hreq]. simpl.
    rewrite ids_of_snoc, app_nil_r. split; [done|].
    destruct (decide (client = cj)) as [<-|Hne].
    + rewrite list_lookup_alter_eq.
      by destruct (heap w !! client).
    + by rewrite list_lookup_alter_ne.
  - intros j cj u' init' r' [[Hj Hl]|[-> Heq]]%lookup_snoc_Some Htm;
      [|discriminate].
    eapply handshaken_before_mono; [by eapply Hfirst|lia|].
    by apply prefix_app_r.
  - intros cj c2. simpl. intros Hl Hi.
    destruct (decide (client = cj)) as [<-|Hne]; [done|].
    rewrite list_lookup_alter_ne in Hl by done.
    apply (handshaken_before_mono cj (length (io w)) _ (io w));
      [by apply (Hflag cj c2)|rewrite length_app; lia|by apply prefix_app_r].
  - intros sj cj. simpl. rewrite length_alter. apply Hvalid.
Qed.

Lemma disconnect_ok s w : world_ok w -> world_ok (disconnect s w).
Proof.
  intros (Hcount & Hfirst & Hflag & Hvalid). unfold world_ok.
  split_and!; try done.
  intros sj cj. simpl. intros H. apply (Hvalid sj).
  by apply lookup_delete_Some in H as [_ H].
Qed.

Lemma disconnectAll_ok w : world_ok w -> world_ok (disconnectAll w).
Proof.
  intros (Hcount & Hfirst & Hflag & Hvalid). unfold world_ok.
  split_and!; try done; intros sj cj; simpl; by rewrite lookup_empty.
Qed.

Lemma step_invariant e st : invariant st -> invariant (step e st).
Proof.
  destruct st as [w tasks]. intros (Hok & Htasks).
  simpl in *. destruct e as [k s|i r|i|s|]; simpl.
  - (* a call of an exported function *)
    destruct (getClient httpServers s w) as [[w1 client]|err] eqn:Hget.
    + destruct (getClient_invariant s w w1 client Hok Hget)
        as (H1 & Hio & _).
      pose proof (initialize_start_invariant k client w1 H1) as Hinit.
      destruct (initialize_start k client w1) as [w2 t].
      destruct Hinit as (H4 & Hpre & Ht).
      split; [done|]. simpl. apply Forall_app. split.
      * apply (Forall_task_mono w); [by rewrite <- Hio|done].
      * by constructor.
    + split; [done|]. simpl. apply Forall_app. split; [done|].
      by constructor.
  - (* a request settles *)
    destruct (tasks !! i) as [[k client id|k client|k client id|res]|] eqn:Hi;
      try by split.
    + pose proof (Forall_lookup_1 _ _ _ _ Htasks Hi) as Hti.
      destruct (sendRequest_finish JSON_parse r) as [result|err].
      * destruct (record_handshake_invariant client id result w Hok Hti)
          as (H1 & Hpre & Hnow).
        split; [done|]. simpl. apply Forall_insert; [|done].
        by apply (Forall_task_mono w).
      * split; [done|]. simpl. by apply Forall_insert.
    + split; [done|]. simpl. apply Forall_insert; [done|].
      by destruct k.
  - (* the caller of [initialize] resumes *)
    destruct (tasks !! i) as [[k client id|k client|k client id|res]|] eqn:Hi;
      try by split.
    pose proof (Forall_lookup_1 _ _ _ _ Htasks Hi) as Hti. simpl in Hti.
    destruct k as [| |toolName args]; simpl.
    + split; [done|]. simpl. by apply Forall_insert.
    + pose proof (sendRequest_start_invariant client "tools/list" VUndef w
                    Hok (fun _ => Hti)) as Hinv.
      destruct (sendRequest_start client "tools/list" VUndef w) as [w' id].
      destruct Hinv as (H1 & Hpre).
      split; [done|]. simpl. apply Forall_insert; [|done].
      by apply (Forall_task_mono w).
    + pose proof (sendRequest_start_invariant client "tools/call"
                    (VObj [("name", VStr toolName); ("arguments", args)]) w
                    Hok (fun _ => Hti)) as Hinv.
      destruct (sendRequest_start client "tools/call" _ w) as [w' id].
      destruct Hinv as (H1 & Hpre).
      split; [done|]. simpl. apply Forall_insert; [|done].
      by apply (Forall_task_mono w).
  - split; [by apply disconnect_ok|done].
  - split; [by apply disconnectAll_ok|done].
Qed.

Lemma fresh_invariant : invariant (Http.fresh, []).
Proof.
  split; [|by constructor]. unfold world_ok. simpl. split_and!.
  - intros client. split; [|done]. intros i id H. by destruct i.
  - intros j client u init r H. by destruct j.
  - intros client c H. by destruct client.
  - intros sj cj. simpl. by rewrite lookup_empty.
Qed.

Lemma run_invariant evs : invariant (run evs (Http.fresh, [])).
Proof.
  induction evs as [|e evs IH] using rev_ind; [apply fresh_invariant|].
  rewrite http_run_snoc. by apply step_invariant.
Qed.

(** *** The cached flag *)

Lemma sendRequest_start_flag client method params cj w :
  flag_set cj w -> flag_set cj (fst (sendRequest_start client method params w)).
Proof.
  intros (c2 & Hc2 & Hi2).
  destruct (heap w !! client) as [c|] eqn:Hc.
  2:{ rewrite sendRequest_start_none by done. by exists c2. }
  destruct (sendRequest_start_spec client method params w c Hc)
    as (w' & r & c' & -> & _ & _ & _ & _ & Hheap & _ & Hinit & _).
  simpl. unfold flag_set. rewrite Hheap.
  destruct (decide (client = cj)) as [<-|Hne].
  - exists c'. rewrite list_lookup_insert_eq by (by eapply lookup_lt_Some).
    split; [done|congruence].
  - exists c2. by rewrite list_lookup_insert_ne.
Qed.

Lemma step_flag e st cj :
  flag_set cj (fst st) -> flag_set cj (fst (step e st)).
Proof.
  destruct st as [w tasks]. simpl. intros Hset.
  destruct e as [k s|i r|i|s|]; simpl; try done.
  - unfold getClient.
    assert (Hstart : forall w1 client, flag_set cj w1 ->
              flag_set cj (fst (initialize_start k client w1))).
    { intros w1 client H1. unfold initialize_start.
      destruct (heap w1 !! client) as [c|]; [|done].
      destruct (initialized c); [done|].
      pose proof (sendRequest_start_flag client "initialize"
                    (initialize_params c) cj w1 H1) as H.
      by destruct (sendRequest_start client "initialize" _ w1). }
    assert (Hnew : forall config,
              flag_set cj {| clients := <[s := length (heap w)]> (clients w);
                             heap := heap w ++ [new_client s config];
                             io := io w |}).
    { intros config. destruct Hset as (c2 & Hc2 & Hi2). exists c2.
      split; [by apply lookup_app_l_Some|done]. }
    destruct (clients w !! s) as [c0|].
    + specialize (Hstart w c0 Hset).
      by destruct (initialize_start k c0 w).
    + destruct (lookup httpServers s) as [cfg| |]; [| |done].
      * specialize (Hstart _ (length (heap w)) (Hnew (Own cfg))).
        by destruct (initialize_start k (length (heap w)) _).
      * specialize (Hstart _ (length (heap w)) (Hnew Inherited)).
        by destruct (initialize_start k (length (heap w)) _).
  - destruct (tasks !! i) as [[k client id|k client|k client id|res]|];
      try done.
    destruct (sendRequest_finish JSON_parse r) as [result|err]; [|done].
    simpl. destruct Hset as (c2 & Hc2 & Hi2). unfold flag_set. simpl.
    destruct (decide (client = cj)) as [<-|Hne].
    + exists (set_handshake result c2).
      by rewrite list_lookup_alter_eq, Hc2.
    + exists c2. by rewrite list_lookup_alter_ne.
  - destruct (tasks !! i) as [[k client id|k client|k client id|res]|];
      try done.
    destruct k as [| |toolName args]; simpl; [done| |].
    + pose proof (sendRequest_start_flag client "tools/list" VUndef cj w Hset).
      by destruct (sendRequest_start client "tools/list" VUndef w).
    + pose proof (sendRequest_start_flag client "tools/call"
                    (VObj [("name", VStr toolName); ("arguments", args)])
                    cj w Hset).
      by destruct (sendRequest_start client "tools/call" _ w).
Qed.

Lemma run_flag evs : forall st cj,
  flag_set cj (fst st) -> flag_set cj (fst (run evs st)).
Proof.
  induction evs as [|e evs IH]; intros st cj H; [done|].
  simpl. apply IH. by apply step_flag.
Qed.

Lemma assoc_set_header k v l : assoc k (set_header k v l) = Some v.
Proof.
  induction l as [|[k' v'] l IH]; simpl; [by rewrite String.eqb_refl|].
  destruct (String.eqb_spec k' k) as [->|Hne]; simpl.
  - by rewrite String.eqb_refl.
  - destruct (String.eqb_spec k k'); [congruence|done].
Qed.

Lemma assoc_set_header_ne k k' v l :
  k' <> k -> assoc k' (set_header k v l) = assoc k' l.
Proof.
  intros Hne. induction l as [|[k0 v0] l IH]; simpl.
  - by destruct (String.eqb_spec k' k).
  - destruct (String.eqb_spec k0 k) as [->|Hk0]; simpl.
    + by destruct (String.eqb_spec k' k).
    + by rewrite IH.
Qed.

(** C5: [initialize] on a client whose flag is not set makes exactly one
    call of [fetch]: a POST to the URL of the client's descriptor, with
    the descriptor's headers and the content type of JSON, whose body is
    the JSON-RPC request with the client's next identifier, the method
    [initialize] and the handshake parameters.
    When that request is answered with a result the flag is set and the
    result recorded, with no further request by any client, and when it
    fails the client is left as it was.  Once the flag is set it stays
    set, and every later [initialize] returns at once: the world, its log
    of requests included, is unchanged. *)
Theorem initialize_once
    (w : World) (tasks : list task) (client : nat) (c : HTTPMCPClient) :
  heap w !! client = Some c ->
  (initialized c = false ->
   exists w1 r,
     initialize_start KInitialize client w
     = (w1, InInitialize KInitialize client (req_id r))
     /\ io w1 = io w ++ [Post client (config_url c) (sendRequest_init c r) r]
     /\ req_method r = "initialize"
     /\ req_id r = incr (requestId c)
     /\ Net.f_method (sendRequest_init c r) = "POST"
     /\ assoc "Content-Type" (Net.f_headers (sendRequest_init c r))
        = Some "application/json"
     /\ (forall cfg k,
          config c = Own cfg -> k <> "Content-Type" ->
          config_url c = Some (url cfg)
          /\ assoc k (Net.f_headers (sendRequest_init c r))
             = assoc k (default [] (headers cfg)))
     /\ Net.f_body (sendRequest_init c r)
        = VObj [ ("jsonrpc", VStr "2.0"); ("id", VNum (req_id r));
                 ("method", VStr "initialize");
                 ("params",
                  VObj [ ("protocolVersion", VStr "2024-11-05");
                         ("capabilities", VObj []);
                         ("clientInfo",
                          VObj [ ("name", VStr ("mcp-superstack-" +:+ name c));
                                 ("version", VStr "1.0.0") ]) ]) ]
     /\ forall answer,
          let st1 := (w1, tasks ++ [InInitialize KInitialize client (req_id r)]) in
          match sendRequest_finish JSON_parse answer with
          | Return result =>
              exists w2 c2,
                step (ESettle (length tasks) answer) st1
                = (w2, tasks ++ [AfterInitialize KInitialize client])
                /\ heap w2 !! client = Some c2
                /\ initialized c2 = true /\ serverInfo c2 = result
                /\ requests_of client (io w2) = requests_of client (io w1)
                /\ io w2 = io w1 ++ [Handshaken client (req_id r)]
          | Throw e =>
              step (ESettle (length tasks) answer) st1
              = (w1, tasks ++ [Finished (Throw e)])
          end)
  /\ (initialized c = true ->
      forall evs k,
        let w' := fst (run evs (w, tasks)) in
        initialize_start k client w' = (w', AfterInitialize k client)
        /\ after_initialize KInitialize client w'
           = (w', Finished (Return VUndef))).
Proof.
  intros Hc. split.
  - intros Hinit. unfold initialize_start. rewrite Hc, Hinit.
    destruct (sendRequest_start_spec client "initialize" (initialize_params c)
                w c Hc)
      as (w1 & r & c' & -> & Hid & Hm & Hp & Hcl & Hheap & _ & Hinit' & Hio).
    exists w1, r. split_and!; try done.
    { simpl. apply assoc_set_header. }
    { intros cfg k Hcfg Hk. unfold config_url. simpl.
      unfold request_headers. rewrite Hcfg. split; [done|].
      by apply assoc_set_header_ne. }
    { simpl. unfold request_json. by rewrite Hm, Hp. }
    intros answer. simpl.
    rewrite list_lookup_middle by done.
    destruct (sendRequest_finish JSON_parse answer) as [result|e];
      rewrite insert_app_r_alt by done; rewrite Nat.sub_diag; simpl; [|done].
    exists (record_handshake client (req_id r) result w1),
           (set_handshake result c').
    split_and!; try done.
    + simpl. rewrite list_lookup_alter_eq, Hheap.
      by rewrite list_lookup_insert_eq by (by eapply lookup_lt_Some).
    + simpl. unfold requests_of. by rewrite omap_app, app_nil_r.
  - intros Hinit evs k w'.
    destruct (run_flag evs (w, tasks) client) as (c2 & Hc2 & Hi2).
    { by exists c. }
    fold w' in Hc2. unfold initialize_start. by rewrite Hc2, Hi2.
Qed.

(** *** Calls enter [initialize] first *)

(** A call for a server the registry resolves is never turned away: on
    a client whose flag is not set it posts the [initialize] request and
    waits for it, on a client whose flag is set it goes on directly. *)
Lemma call_enters_initialize evs k s :
  lookup httpServers s <> Absent ->
  let st := run evs (Http.fresh, []) in
  exists client,
    (exists r,
       snd (step (ECall k s) st)
       = snd st ++ [InInitialize k client (req_id r)]
       /\ req_method r = "initialize"
       /\ exists u init,
            io (fst (step (ECall k s) st))
            = io (fst st) ++ [Post client u init r])
    \/ (snd (step (ECall k s) st) = snd st ++ [AfterInitialize k client]
        /\ io (fst (step (ECall k s) st)) = io (fst st)
        /\ handshaken_before client (length (io (fst st))) (io (fst st))).
Proof.
  intros Hknown st. destruct (run_invariant evs) as [Hok _]. fold st in Hok.
  destruct st as [w tasks]. simpl in *.
  assert (Hget : exists w1 client, getClient httpServers s w = Return (w1, client)).
  { unfold getClient. destruct (clients w !! s); [by eexists _, _|].
    destruct (lookup httpServers s); [by eexists _, _..|done]. }
  destruct Hget as (w1 & client & Hget). rewrite Hget.
  destruct (getClient_invariant s w w1 client Hok Hget)
    as (Hok1 & Hio1 & Hlt & _).
  exists client. unfold initialize_start.
  destruct (lookup_lt_is_Some_2 _ _ Hlt) as [c Hc]. rewrite Hc.
  destruct (initialized c) eqn:Hinit.
  - right. simpl. split_and!; try done. rewrite <- Hio1.
    destruct Hok1 as (_ & _ & Hflag & _). by apply (Hflag client c).
  - left.
    destruct (sendRequest_start_spec client "initialize" (initialize_params c)
                w1 c Hc)
      as (w2 & r & c' & -> & _ & Hm & _ & _ & _ & _ & _ & Hio).
    exists r. simpl. split_and!; try done.
    eexists _, _. by rewrite Hio, Hio1.
Qed.

(** *** Names the HTTP registry does not resolve *)

Lemma sendRequest_start_clients client method params w :
  clients (fst (sendRequest_start client method params w)) = clients w.
Proof.
  destruct (heap w !! client) as [c|] eqn:Hc.
  - by destruct (sendRequest_start_spec client method params w c Hc)
      as (w' & r & c' & -> & _ & _ & _ & Hcl & _).
  - by rewrite sendRequest_start_none.
Qed.

Lemma initialize_start_clients k client w :
  clients (fst (initialize_start k client w)) = clients w.
Proof.
  unfold initialize_start. destruct (heap w !! client) as [c|]; [|done].
  destruct (initialized c); [done|].
  pose proof (sendRequest_start_clients client "initialize"
                (initialize_params c) w) as H.
  by destruct (sendRequest_start client "initialize" _ w).
Qed.

Lemma step_cache_resolves e st :
  cache_resolves httpServers (fst st) ->
  cache_resolves httpServers (fst (step e st)).
Proof.
  destruct st as [w tasks]. simpl. intros Hres.
  destruct e as [k s|i r|i|s|]; simpl.
  - unfold getClient. destruct (clients w !! s) as [c0|] eqn:Hs.
    + pose proof (initialize_start_clients k c0 w) as H.
      destruct (initialize_start k c0 w) as [w2 t]. simpl in *.
      unfold cache_resolves. by rewrite H.
    + destruct (lookup httpServers s) as [cfg| |] eqn:Hl; [| |done].
      * pose proof (initialize_start_clients k (length (heap w))
          {| clients := <[s := length (heap w)]> (clients w);
             heap := heap w ++ [new_client s (Own cfg)]; io := io w |}) as H.
        destruct (initialize_start k (length (heap w)) _) as [w2 t].
        simpl in *. unfold cache_resolves. rewrite H.
        intros sj cj [[<- _]|[_ Hj]]%lookup_insert_Some;
          [by rewrite Hl|by eapply Hres].
      * pose proof (initialize_start_clients k (length (heap w))
          {| clients := <[s := length (heap w)]> (clients w);
             heap := heap w ++ [new_client s Inherited]; io := io w |}) as H.
        destruct (initialize_start k (length (heap w)) _) as [w2 t].
        simpl in *. unfold cache_resolves. rewrite H.
        intros sj cj [[<- _]|[_ Hj]]%lookup_insert_Some;
          [by rewrite Hl|by eapply Hres].
  - destruct (tasks !! i) as [[k client id|k client|k client id|res]|];
      try done.
    by destruct (sendRequest_finish JSON_parse r).
  - destruct (tasks !! i) as [[k client id|k client|k client id|res]|];
      try done.
    destruct k as [| |toolName args]; simpl; [done| |].
    + pose proof (sendRequest_start_clients client "tools/list" VUndef w) as H.
      destruct (sendRequest_start client "tools/list" VUndef w).
      simpl in *. unfold cache_resolves. by rewrite H.
    + pose proof (sendRequest_start_clients client "tools/call"
                    (VObj [("name", VStr toolName); ("arguments", args)]) w)
        as H.
      destruct (sendRequest_start client "tools/call" _ w).
      simpl in *. unfold cache_resolves. by rewrite H.
  - intros sj cj. simpl. intros [_ H]%lookup_delete_Some. by eapply Hres.
  - intros sj cj. simpl. by rewrite lookup_empty.
Qed.

Lemma run_cache_resolves evs :
  cache_resolves httpServers (fst (run evs (Http.fresh, []))).
Proof.
  induction evs as [|e evs IH] using rev_ind.
  - intros sj cj. simpl. by rewrite lookup_empty.
  - rewrite http_run_snoc. by apply step_cache_resolves.
Qed.

(** In every state the HTTP manager can reach, a call for a name the
    registry does not resolve finishes at once with the error that names
    the server; the world (cache, client objects, log of requests) is
    left exactly as it was. *)
Theorem http_unknown_server_fails_first (evs : list event) k name :
  lookup httpServers name = Absent ->
  let st := run evs (Http.fresh, []) in
  step (ECall k name) st
  = (fst st, snd st ++ [Finished (Throw (unknown_server httpServers name))]).
Proof.
  intros Habsent st. pose proof (run_cache_resolves evs) as Hres.
  fold st in Hres. destruct st as [w tasks]. simpl in *.
  unfold getClient. destruct (clients w !! name) as [c|] eqn:Hc.
  - by destruct (Hres name c Hc).
  - by rewrite Habsent.
Qed.

(** *** Request identifiers *)

Lemma nth_id_exact i :
  (Z.of_nat i < MAX_EXACT)%Z -> nth_id i = (Z.of_nat i + 1)%Z.
Proof. unfold nth_id. lia. Qed.

(** C4 (as amended): the request identifiers a session (one
    [HTTPMCPClient] object) assigns start at 1 and go up by one with each
    request sent, for its first [2^53] requests: among these no
    identifier is reused, so no two calls in flight share one.  This
    holds of every state the manager can reach, whatever the
    interleaving of calls, answers and disconnects. *)
Theorem request_ids_count_up (evs : list event) (client i : nat) (id : Z) :
  let ids := ids_of client (io (fst (run evs (Http.fresh, [])))) in
  ids !! i = Some id ->
  (Z.of_nat i < MAX_EXACT)%Z ->
  id = (Z.of_nat i + 1)%Z
  /\ forall j id',
       i < j -> (Z.of_nat j < MAX_EXACT)%Z -> ids !! j = Some id' ->
       (id < id')%Z.
Proof.
  intros ids Hi Hlt.
  destruct (run_invariant evs) as ((Hcount & _) & _).
  destruct (Hcount client) as [Hids _]. fold ids in Hids.
  rewrite (Hids i id Hi), nth_id_exact by done. split; [done|].
  intros j id' Hij Hj Hl. rewrite (Hids j id' Hl), nth_id_exact by done. lia.
Qed.

(** A caller retrying [n] times against a server that refuses every
    request: [n] requests have been posted by the one client object. *)
Lemma retries_state s refusal n :
  lookup httpServers s <> Absent ->
  let st := run (retries s refusal n) (Http.fresh, []) in
  length (snd st) = n
  /\ length (ids_of 0 (io (fst st))) = n
  /\ (n = 0 -> st = (Http.fresh, []))
  /\ (0 < n ->
      clients (fst st) !! s = Some 0
      /\ exists c, heap (fst st) !! 0 = Some c /\ initialized c = false).
Proof.
  intros Hknown. induction n as [|n IH].
  { simpl. split_and!; try done. lia. }
  cbv zeta in *. destruct IH as (Hlen & Hids & Hzero & Hpos).
  unfold retries in *. rewrite seq_S, map_app, concat_app. simpl.
  unfold Http.run in *. rewrite fold_left_app.
  set (st := fold_left _ (concat (map (retry s refusal) (seq 0 n))) _) in *.
  destruct st as [w tasks]. simpl in Hlen, Hids, Hzero, Hpos.
  assert (Hcall : exists w1 c,
    getClient httpServers s w = Return (w1, 0)
    /\ io w1 = io w /\ clients w1 !! s = Some 0
    /\ heap w1 !! 0 = Some c /\ initialized c = false).
  { destruct n as [|n].
    - injection (Hzero eq_refl) as -> ->. unfold getClient. simpl.
      rewrite lookup_empty.
      destruct (lookup httpServers s) eqn:Hl; [| |done];
        eexists _, _; (split; [reflexivity|]); simpl;
        by rewrite lookup_insert_eq.
    - destruct Hpos as (Hcl & c & Hc & Hinit); [lia|].
      exists w, c. unfold getClient. by rewrite Hcl. }
  destruct Hcall as (w1 & c & Hget & Hio1 & Hcl1 & Hc1 & Hinit1).
  simpl. rewrite Hget. unfold initialize_start. rewrite Hc1, Hinit1.
  destruct (sendRequest_start_spec 0 "initialize" (initialize_params c) w1 c Hc1)
    as (w2 & r & c' & -> & Hid & Hm & _ & Hcl2 & Hheap2 & _ & Hinit2 & Hio2).
  simpl. rewrite lookup_app_r by lia. rewrite Hlen, Nat.sub_diag. simpl.
  simpl. split_and!.
  - rewrite length_insert, length_app. simpl. lia.
  - rewrite Hio2, ids_of_snoc, length_app, Hio1, Hids. simpl. lia.
  - lia.
  - intros _. split; [by rewrite Hcl2|].
    exists c'. rewrite Hheap2.
    rewrite list_lookup_insert_eq by (by eapply lookup_lt_Some).
    split; [done|congruence].
Qed.

Lemma retries_ids s refusal n i :
  lookup httpServers s <> Absent -> i < n ->
  ids_of 0 (io (fst (run (retries s refusal n) (Http.fresh, [])))) !! i
  = Some (nth_id i).
Proof.
  intros Hknown Hi.
  destruct (retries_state s refusal n Hknown) as (_ & Hlen & _).
  destruct (run_invariant (retries s refusal n)) as ((Hcount & _) & _).
  destruct (Hcount 0) as [Hids _].
  destruct (lookup_lt_is_Some_2
              (ids_of 0 (io (fst (run (retries s refusal n) (Http.fresh, [])))))
              i) as [id Hid]; [lia|].
  rewrite Hid. f_equal. by apply Hids.
Qed.

(** Once [2^53] requests have been sent the counter stays where it is. *)
Lemma retries_ids_saturate s refusal n :
  lookup httpServers s <> Absent ->
  Z.of_nat n = (MAX_EXACT + 1)%Z ->
  let ids := ids_of 0 (io (fst (run (retries s refusal n) (Http.fresh, [])))) in
  ids !! (n - 2) = Some MAX_EXACT /\ ids !! (n - 1) = Some MAX_EXACT.
Proof.
  intros Hknown Hn ids. unfold ids.
  assert (H0 : (0 < MAX_EXACT)%Z) by (rewrite MAX_EXACT_value; lia).
  rewrite !retries_ids by (try done; lia).
  unfold nth_id. split; f_equal; lia.
Qed.

End HttpProps.

(** Two calls of [initializeHTTPServer("exa")] before either is answered:
    the requests carry 1 and 2. *)
Lemma request_ids_count_up_witness :
  let reg := Config.httpServers Samples.no_env in
  let evs := [Http.ECall Http.KInitialize "exa";
              Http.ECall Http.KInitialize "exa"] in
  let ids := Http.ids_of 0
               (Http.io (fst (Http.run Samples.JSON_parse reg evs
                                (Http.fresh, [])))) in
  ids !! 1 = Some 2%Z /\ (Z.of_nat 1 < MAX_EXACT)%Z
  /\ 2%Z = (Z.of_nat 1 + 1)%Z.
Proof.
  intros reg evs ids.
  assert (H : ids !! 1 = Some 2%Z) by reflexivity.
  assert (Hlt : (Z.of_nat 1 < MAX_EXACT)%Z) by reflexivity.
  destruct (request_ids_count_up Samples.JSON_parse reg evs 0 1 2%Z H Hlt)
    as [Heq _].
  split; [exact H|]. split; [exact Hlt|exact Heq].
Defined.

(** C4 (as stated) fails: the counter is a JavaScript number.  A caller
    that retries [initializeHTTPServer("exa")] against an endpoint that
    refuses every request sends request after request on one session;
    the requests number [2^53] and [2^53 + 1] both carry [2^53]. *)
Lemma request_ids_repeat :
  let reg := Config.httpServers Samples.no_env in
  let refusal := JsError "TypeError" "fetch failed" in
  let n := Z.to_nat (MAX_EXACT + 1) in
  let w := fst (Http.run Samples.JSON_parse reg
                  (Http.retries "exa" refusal n) (Http.fresh, [])) in
  Http.ids_of 0 (Http.io w) !! (n - 2) = Some MAX_EXACT
  /\ Http.ids_of 0 (Http.io w) !! (n - 1) = Some MAX_EXACT.
Proof.
  intros reg refusal n w.
  apply (retries_ids_saturate Samples.JSON_parse reg "exa" refusal n).
  - discriminate.
  - unfold n. apply Z2Nat.id. discriminate.
Qed.

(** A cached [stripe] client from its first [initialize] on: the request
    that is posted; the answer [{"jsonrpc":"2.0","id":1,"result":{}}]
    sets the flag; after that, [initialize] returns at once whatever
    calls have gone by, and a further [initializeHTTPServer] posts
    nothing. *)
Lemma initialize_once_witness :
  let reg := Config.httpServers Samples.no_env in
  let c := Http.new_client "stripe" (Config.lookup reg "stripe") in
  let w := {| Http.clients := {[ "stripe" := 0 ]}; Http.heap := [c];
              Http.io := [] |} in
  let request :=
    {| Http.req_id := 1; Http.req_method := "initialize";
       Http.req_params :=
         VObj [ ("protocolVersion", VStr "2024-11-05");
                ("capabilities", VObj []);
                ("clientInfo",
                 VObj [ ("name", VStr "mcp-superstack-stripe");
                        ("version", VStr "1.0.0") ]) ] |} in
  let posted :=
    Http.Post 0 (Some "https://mcp.stripe.com")
      {| Net.f_method := "POST";
         Net.f_headers := [ ("Content-Type", "application/json");
                           ("Authorization", "Bearer ") ];
         Net.f_body :=
           VObj [ ("jsonrpc", VStr "2.0"); ("id", VNum 1);
                  ("method", VStr "initialize");
                  ("params", Http.req_params request) ];
         Net.f_signal := None |}
      request in
  let answer := Http.Responds (Samples.answer_200 Samples.body_initialized) in
  let c2 := {| Http.name := "stripe"; Http.config := Config.lookup reg "stripe";
               Http.requestId := 1; Http.initialized := true;
               Http.serverInfo := VObj [] |} in
  let w2 := {| Http.clients := {[ "stripe" := 0 ]}; Http.heap := [c2];
               Http.io := [posted; Http.Handshaken 0 1] |} in
  let later := [Http.ECall Http.KInitialize "stripe";
                Http.ECall Http.KListTools "stripe"; Http.EResume 1] in
  (Http.heap w !! 0 = Some c /\ Http.initialized c = false
   /\ exists w1,
        Http.initialize_start Http.KInitialize 0 w
        = (w1, Http.InInitialize Http.KInitialize 0 1)
        /\ Http.io w1 = [posted]
        /\ Http.step Samples.JSON_parse reg (Http.ESettle 0 answer)
             (w1, [Http.InInitialize Http.KInitialize 0 1])
           = (w2, [Http.AfterInitialize Http.KInitialize 0]))
  /\ (Http.heap w2 !! 0 = Some c2 /\ Http.initialized c2 = true
      /\ let w3 := fst (Http.run Samples.JSON_parse reg later (w2, [])) in
         Http.initialize_start Http.KInitialize 0 w3
         = (w3, Http.AfterInitialize Http.KInitialize 0)
         /\ Http.requests_of 0 (Http.io w3)
            = [request;
               {| Http.req_id := 2; Http.req_method := "tools/list";
                  Http.req_params := VUndef |}]).
Proof.
  intros reg c w request posted answer c2 w2 later. split.
  - assert (H : Http.heap w !! 0 = Some c) by reflexivity.
    destruct (initialize_once Samples.JSON_parse reg w [] 0 c H)
      as [Hfirst _].
    destruct (Hfirst eq_refl)
      as (w1 & r & Hstart & Hio & Hm & Hid & Hpost & Htype & Hcfg & Hbody
          & Hanswer).
    split; [exact H|]. split; [reflexivity|].
    injection Hstart as <- Hr.
    eexists. split; [reflexivity|]. split; reflexivity.
  - assert (H : Http.heap w2 !! 0 = Some c2) by reflexivity.
    destruct (initialize_once Samples.JSON_parse reg w2 [] 0 c2 H)
      as [_ Hlater].
    split; [exact H|]. split; [reflexivity|].
    destruct (Hlater eq_refl later Http.KInitialize) as [Hstart _].
    split; [exact Hstart|reflexivity].
Defined.

(** ** The stdio manager on the event loop *)

Section StdioTraceProps.
Import Config Stdio.

Variable stdioServers : list (string * StdioServerConfig).
Variable JSON_parse : value -> completion value.

Local Abbreviation step := (Stdio.step stdioServers JSON_parse).
Local Abbreviation run := (Stdio.run stdioServers JSON_parse).

Lemma stdio_run_snoc evs e st : run (evs ++ [e]) st = step e (run evs st).
Proof. unfold Stdio.run. by rewrite fold_left_app. Qed.

Lemma connected_before_mono client j j' l l' :
  connected_before client j l -> j <= j' -> l `prefix_of` l' ->
  connected_before client j' l'.
Proof.
  intros (i & Hi & Hl) Hj [k ->]. exists i.
  split; [lia|by apply lookup_app_l_Some].
Qed.

Lemma handshake_first_snoc l e :
  handshake_first l ->
  (forall client, tool_request e = Some client ->
                  connected_before client (length l) l) ->
  handshake_first (l ++ [e]).
Proof.
  intros Hfirst He j e' client [[Hj Hl]|[-> <-]]%lookup_snoc_Some Ht.
  - eapply connected_before_mono; [by eapply Hfirst|lia|by apply prefix_app_r].
  - apply (connected_before_mono client (length l) _ l);
      [by apply He|lia|by apply prefix_app_r].
Qed.

Lemma stdio_task_justified_mono w w' t :
  io w `prefix_of` io w' -> task_justified w t -> task_justified w' t.
Proof.
  intros Hpre. destruct t as [k [c|p|s p]|k c|r]; simpl; try done.
  intros H. eapply connected_before_mono; [done| |done].
  by apply prefix_length.
Qed.

Lemma Forall_stdio_task_mono w w' ts :
  io w `prefix_of` io w' ->
  Forall (task_justified w) ts -> Forall (task_justified w') ts.
Proof.
  intros Hpre H. eapply Forall_impl; [exact H|].
  intros t. by apply stdio_task_justified_mono.
Qed.

Lemma getClient_ok s w :
  world_ok w ->
  let '(w', f) := Stdio.getClient stdioServers s w in
  world_ok w' /\ io w `prefix_of` io w'
  /\ forall k, task_justified w' (InGetClient k f).
Proof.
  intros Hok. pose proof Hok as (Hfirst & Hcl & Hpr). unfold Stdio.getClient.
  destruct (clients w !! s) as [c|] eqn:Hs.
  { split_and!; try done. intros k. simpl. by eapply Hcl. }
  destruct (initializing w !! s) as [p|] eqn:Hi; [by split_and!|].
  unfold Stdio.createClient.
  assert (Hsnoc : forall st, (forall c, st <> Fulfilled c) ->
            forall p c, (promises w ++ [st]) !! p = Some (Fulfilled c) ->
                        promises w !! p = Some (Fulfilled c)).
  { intros st Hst p c [[_ H]|[_ H]]%lookup_snoc_Some; [done|].
    by destruct (Hst c). }
  destruct (lookup stdioServers s) as [cfg| |]; simpl.
  - split_and!; try done; [|by apply prefix_app_r].
    unfold world_ok. simpl. split_and!.
    + by apply handshake_first_snoc.
    + intros s' c H.
      apply (connected_before_mono c (length (io w)) _ (io w));
        [by eapply Hcl|rewrite length_app; lia|by apply prefix_app_r].
    + intros p c H%Hsnoc; [|done].
      apply (connected_before_mono c (length (io w)) _ (io w));
        [by eapply Hpr|rewrite length_app; lia|by apply prefix_app_r].
  - split_and!; try done; [|by apply prefix_app_r].
    unfold world_ok. simpl. split_and!.
    + by apply handshake_first_snoc.
    + intros s' c H.
      apply (connected_before_mono c (length (io w)) _ (io w));
        [by eapply Hcl|rewrite length_app; lia|by apply prefix_app_r].
    + intros p c H%Hsnoc; [|done].
      apply (connected_before_mono c (length (io w)) _ (io w));
        [by eapply Hpr|rewrite length_app; lia|by apply prefix_app_r].
  - split_and!; try done.
    unfold world_ok. simpl. split_and!; try done.
    intros p c H%Hsnoc; [by eapply Hpr|done].
Qed.

Lemma connect_done_ok p r w :
  world_ok w ->
  world_ok (connect_done p r w) /\ io w `prefix_of` io (connect_done p r w).
Proof.
  intros Hok. pose proof Hok as (Hfirst & Hcl & Hpr). unfold connect_done.
  destruct (promises w !! p) as [[s c t|c|e]|] eqn:Hp; try done.
  destruct r as [e|]; simpl.
  - split; [|done]. unfold world_ok. simpl. split_and!; try done.
    intros p' c' [[-> [H _]]|[_ H]]%list_lookup_insert_Some;
      [done|by eapply Hpr].
  - split; [|by apply prefix_app_r].
    assert (Hnow : connected_before c (length (io w ++ [Connected c]))
                     (io w ++ [Connected c])).
    { exists (length (io w)). rewrite length_app. simpl.
      split; [lia|by apply list_lookup_middle]. }
    unfold world_ok. simpl. split_and!.
    + by apply handshake_first_snoc.
    + intros s' c'. destruct (decide (s = s')) as [<-|Hne].
      * rewrite lookup_insert_eq. by intros [= <-].
      * rewrite lookup_insert_ne by done. intros H.
        apply (connected_before_mono c' (length (io w)) _ (io w));
          [by eapply Hcl|rewrite length_app; lia|by apply prefix_app_r].
    + intros p' c' [[-> [H _]]|[_ H]]%list_lookup_insert_Some.
      * by injection H as <-.
      * apply (connected_before_mono c' (length (io w)) _ (io w));
          [by eapply Hpr|rewrite length_app; lia|by apply prefix_app_r].
Qed.

Lemma getClient_resume_ok f w w1 r k :
  world_ok w -> task_justified w (InGetClient k f) ->
  getClient_resume f w = Some (w1, r) ->
  world_ok w1 /\ io w1 = io w
  /\ forall c, r = Return c -> connected_before c (length (io w)) (io w).
Proof.
  intros Hok Ht. pose proof Hok as (Hfirst & Hcl & Hpr).
  destruct f as [c|p|s p]; simpl.
  - intros [= <- <-]. split_and!; try done. by intros c' [= <-].
  - destruct (promises w !! p) as [[? ? ?|c|e]|] eqn:Hp; try done;
      intros [= <- <-]; split_and!; try done.
    intros c' [= <-]. by eapply Hpr.
  - destruct (promises w !! p) as [[? ? ?|c|e]|] eqn:Hp; try done;
      intros [= <- <-]; split_and!; try done.
    intros c' [= <-]. by eapply Hpr.
Qed.

Lemma after_getClient_ok k r w :
  world_ok w ->
  (forall c, r = Return c -> connected_before c (length (io w)) (io w)) ->
  let '(w', t) := after_getClient k r w in
  world_ok w' /\ io w `prefix_of` io w' /\ task_justified w' t.
Proof.
  intros Hok Hr. pose proof Hok as (Hfirst & Hcl & Hpr).
  destruct r as [c|e]; simpl; [|by split_and!].
  destruct k as [|toolName args|]; simpl; [by split_and!| |].
  - split_and!; try done; [|by apply prefix_app_r].
    unfold world_ok. simpl. split_and!.
    + apply handshake_first_snoc; [done|]. intros c' [= <-]. by apply Hr.
    + intros s' c' H.
      apply (connected_before_mono c' (length (io w)) _ (io w));
        [by eapply Hcl|rewrite length_app; lia|by apply prefix_app_r].
    + intros p c' H.
      apply (connected_before_mono c' (length (io w)) _ (io w));
        [by eapply Hpr|rewrite length_app; lia|by apply prefix_app_r].
  - split_and!; try done; [|by apply prefix_app_r].
    unfold world_ok. simpl. split_and!.
    + apply handshake_first_snoc; [done|]. intros c' [= <-]. by apply Hr.
    + intros s' c' H.
      apply (connected_before_mono c' (length (io w)) _ (io w));
        [by eapply Hcl|rewrite length_app; lia|by apply prefix_app_r].
    + intros p c' H.
      apply (connected_before_mono c' (length (io w)) _ (io w));
        [by eapply Hpr|rewrite length_app; lia|by apply prefix_app_r].
Qed.

Lemma disconnect_world_ok s w : world_ok w -> world_ok (disconnect s w).
Proof.
  intros Hok. pose proof Hok as (Hfirst & Hcl & Hpr). unfold disconnect.
  destruct (clients w !! s) as [c|] eqn:Hs; [|done].
  unfold world_ok. simpl. split_and!.
  - by apply handshake_first_snoc.
  - intros s' c' [_ H]%lookup_delete_Some.
    apply (connected_before_mono c' (length (io w)) _ (io w));
      [by eapply Hcl|rewrite length_app; lia|by apply prefix_app_r].
  - intros p c' H.
    apply (connected_before_mono c' (length (io w)) _ (io w));
      [by eapply Hpr|rewrite length_app; lia|by apply prefix_app_r].
Qed.

Lemma disconnect_prefix s w : io w `prefix_of` io (disconnect s w).
Proof.
  unfold disconnect. destruct (clients w !! s); [by apply prefix_app_r|done].
Qed.

Lemma stdio_step_invariant e st : invariant st -> invariant (step e st).
Proof.
  destruct st as [w tasks]. intros (Hok & Htasks). simpl in *.
  destruct e as [k s|p r|i|i r|s]; simpl.
  - pose proof (getClient_ok s w Hok) as H.
    destruct (Stdio.getClient stdioServers s w) as [w' f].
    destruct H as (Hok' & Hpre & Ht). split; [done|]. simpl.
    apply Forall_app. split; [by apply (Forall_stdio_task_mono w)|].
    constructor; [apply Ht|constructor].
  - destruct (connect_done_ok p r w Hok) as [Hok' Hpre].
    split; [done|]. by apply (Forall_stdio_task_mono w).
  - destruct (tasks !! i) as [[k f|k c|res]|] eqn:Hi; try by split.
    pose proof (Forall_lookup_1 _ _ _ _ Htasks Hi) as Hti.
    destruct (getClient_resume f w) as [[w1 r]|] eqn:Hres; [|by split].
    destruct (getClient_resume_ok f w w1 r k Hok Hti Hres)
      as (Hok1 & Hio1 & Hr).
    rewrite <- Hio1 in Hr.
    pose proof (after_getClient_ok k r w1 Hok1 Hr) as H.
    destruct (after_getClient k r w1) as [w2 t].
    destruct H as (Hok2 & Hpre & Ht). split; [done|]. simpl.
    apply Forall_insert; [|done].
    apply (Forall_stdio_task_mono w); [by rewrite <- Hio1|done].
  - destruct (tasks !! i) as [[k f|k c|res]|] eqn:Hi; try by split.
    split; [done|]. simpl. apply Forall_insert; [done|]. by destruct k.
  - split; [by apply disconnect_world_ok|].
    apply (Forall_stdio_task_mono w); [apply disconnect_prefix|done].
Qed.

Lemma stdio_run_invariant evs : invariant (run evs (Stdio.fresh, [])).
Proof.
  induction evs as [|e evs IH] using rev_ind.
  - split; [|by constructor]. unfold world_ok. simpl. split_and!.
    + intros j e c H. by destruct j.
    + intros s c. by rewrite lookup_empty.
    + intros p c H. by destruct p.
  - rewrite stdio_run_snoc. by apply stdio_step_invariant.
Qed.

(** *** Names the stdio registry does not resolve *)

Lemma getClient_respects s w :
  registry_respected stdioServers w ->
  registry_respected stdioServers (fst (Stdio.getClient stdioServers s w)).
Proof.
  intros (Hcl & Hin & Hpr). unfold Stdio.getClient.
  destruct (clients w !! s) as [c|] eqn:Hs; [done|].
  destruct (initializing w !! s) as [p|] eqn:Hi; [done|].
  unfold Stdio.createClient.
  destruct (lookup stdioServers s) as [cfg| |] eqn:Hl; simpl;
    unfold registry_respected; simpl; split_and!; try done.
  - intros sj pj. destruct (decide (s = sj)) as [<-|Hne].
    + rewrite lookup_insert_eq. intros _ Habs. congruence.
    + rewrite lookup_insert_ne by done. intros H1 H2.
      by apply lookup_app_l_Some, Hin.
  - intros pj sj cj tj [[_ H]|[_ H]]%lookup_snoc_Some; [by eapply Hpr|].
    by injection H as <- <- <-; rewrite Hl.
  - intros sj pj. destruct (decide (s = sj)) as [<-|Hne].
    + rewrite lookup_insert_eq. intros _ Habs. congruence.
    + rewrite lookup_insert_ne by done. intros H1 H2.
      by apply lookup_app_l_Some, Hin.
  - intros pj sj cj tj [[_ H]|[_ H]]%lookup_snoc_Some; [by eapply Hpr|].
    by injection H as <- <- <-; rewrite Hl.
  - intros sj pj. destruct (decide (s = sj)) as [<-|Hne].
    + rewrite lookup_insert_eq. intros [= <-] _.
      by apply list_lookup_middle.
    + rewrite lookup_insert_ne by done. intros H1 H2.
      by apply lookup_app_l_Some, Hin.
  - intros pj sj cj tj [[_ H]|[_ H]]%lookup_snoc_Some; [by eapply Hpr|done].
Qed.

Lemma connect_done_respects p r w :
  registry_respected stdioServers w ->
  registry_respected stdioServers (connect_done p r w).
Proof.
  intros (Hcl & Hin & Hpr). unfold connect_done.
  destruct (promises w !! p) as [[s c t|c|e]|] eqn:Hp; try done.
  pose proof (Hpr p s c t Hp) as Hs.
  destruct r as [e|]; unfold registry_respected; simpl; split_and!; try done.
  - intros sj pj H1 H2. specialize (Hin sj pj H1 H2).
    destruct (decide (p = pj)) as [<-|Hne]; [congruence|].
    by rewrite list_lookup_insert_ne.
  - intros pj sj cj tj [[_ [H _]]|[_ H]]%list_lookup_insert_Some;
      [done|by eapply Hpr].
  - intros sj cj [[<- _]|[_ H]]%lookup_insert_Some; [done|by eapply Hcl].
  - intros sj pj H1 H2. specialize (Hin sj pj H1 H2).
    destruct (decide (p = pj)) as [<-|Hne]; [congruence|].
    by rewrite list_lookup_insert_ne.
  - intros pj sj cj tj [[_ [H _]]|[_ H]]%list_lookup_insert_Some;
      [done|by eapply Hpr].
Qed.

Lemma getClient_resume_respects f w w1 r :
  registry_respected stdioServers w ->
  getClient_resume f w = Some (w1, r) ->
  registry_respected stdioServers w1.
Proof.
  intros (Hcl & Hin & Hpr).
  assert (Hdel : forall s,
            registry_respected stdioServers
              (set_initializing (delete s (initializing w)) w)).
  { intros s. unfold registry_respected. simpl. split_and!; try done.
    intros sj pj [_ H]%lookup_delete_Some. by apply Hin. }
  destruct f as [c|p|s p]; simpl.
  - by intros [= <- <-].
  - destruct (promises w !! p) as [[? ? ?|c|e]|]; try done;
      by intros [= <- <-].
  - destruct (promises w !! p) as [[? ? ?|c|e]|]; try done;
      by intros [= <- <-].
Qed.

Lemma after_getClient_respects k r w :
  registry_respected stdioServers w ->
  registry_respected stdioServers (fst (after_getClient k r w)).
Proof. intros H. destruct r as [c|e]; [|done]. by destruct k. Qed.

Lemma stdio_step_respects e st :
  registry_respected stdioServers (fst st) ->
  registry_respected stdioServers (fst (step e st)).
Proof.
  destruct st as [w tasks]. simpl. intros Hres.
  destruct e as [k s|p r|i|i r|s]; simpl.
  - pose proof (getClient_respects s w Hres) as H.
    by destruct (Stdio.getClient stdioServers s w).
  - by apply connect_done_respects.
  - destruct (tasks !! i) as [[k f|k c|res]|]; try done.
    destruct (getClient_resume f w) as [[w1 r]|] eqn:Hr; [|done].
    pose proof (after_getClient_respects k r w1
                  (getClient_resume_respects f w w1 r Hres Hr)) as H.
    by destruct (after_getClient k r w1).
  - by destruct (tasks !! i) as [[k f|k c|res]|].
  - destruct Hres as (Hcl & Hin & Hpr). unfold disconnect.
    destruct (clients w !! s); [|done].
    unfold registry_respected. simpl. split_and!; try done.
    intros sj cj [_ H]%lookup_delete_Some. by eapply Hcl.
Qed.

Lemma stdio_run_respects evs :
  registry_respected stdioServers (fst (run evs (Stdio.fresh, []))).
Proof.
  induction evs as [|e evs IH] using rev_ind.
  - unfold registry_respected. simpl. split_and!.
    + intros sj cj. by rewrite lookup_empty.
    + intros sj pj. by rewrite lookup_empty.
    + intros pj sj cj tj H. by destruct pj.
  - rewrite stdio_run_snoc. by apply stdio_step_respects.
Qed.

(** In every state the stdio manager can reach, a call for a name the
    registry does not resolve is rejected with the error that names the
    server as soon as it resumes; no object is allocated and nothing is
    done to the outside world. *)
Theorem stdio_unknown_server_fails_first (evs : list event) k name :
  lookup stdioServers name = Absent ->
  let st := run evs (Stdio.fresh, []) in
  let st2 := step (EResume (length (snd st))) (step (ECall k name) st) in
  io (fst st2) = io (fst st)
  /\ objects (fst st2) = objects (fst st)
  /\ clients (fst st2) = clients (fst st)
  /\ snd st2
     = snd st ++ [Finished (Throw (Stdio.unknown_server stdioServers name))].
Proof.
  intros Habsent st st2. pose proof (stdio_run_respects evs) as Hres.
  fold st in Hres. unfold st2. clear st2.
  destruct st as [w tasks]. destruct Hres as (Hcl & Hin & Hpr). simpl in *.
  unfold Stdio.getClient.
  destruct (clients w !! name) as [c|] eqn:Hc; [by destruct (Hcl name c Hc)|].
  destruct (initializing w !! name) as [p|] eqn:Hi.
  - simpl. rewrite list_lookup_middle by done. simpl.
    rewrite (Hin name p Hi Habsent). simpl.
    rewrite insert_app_r_alt by done. by rewrite Nat.sub_diag.
  - unfold Stdio.createClient. rewrite Habsent. simpl.
    rewrite list_lookup_middle by done. simpl.
    rewrite list_lookup_middle by done. simpl.
    rewrite insert_app_r_alt by done. by rewrite Nat.sub_diag.
Qed.

(** *** One creation for all callers, whatever else happens *)

Lemma after_getClient_frame k r w :
  let '(w', t) := after_getClient k r w in
  clients w' = clients w /\ initializing w' = initializing w
  /\ promises w' = promises w
  /\ (forall s, connects s (io w') = connects s (io w))
  /\ (forall k' f, t <> InGetClient k' f).
Proof.
  destruct r as [c|e]; simpl; [|by split_and!].
  destruct k as [|toolName args|]; simpl; split_and!; try done;
    intros s; by rewrite connects_app, Nat.add_0_r.
Qed.

Lemma step_registered e st :
  creation_registered st -> creation_registered (step e st).
Proof.
  destruct st as [w tasks]. intros (G1 & G2 & G3). simpl in *.
  destruct e as [k s|q r|i|i r|s]; simpl.
  - unfold Stdio.getClient.
    assert (Hkeep : forall f, (forall s' p', f <> Owner s' p') ->
              creation_registered (w, tasks ++ [InGetClient k f])).
    { intros f Hf. unfold creation_registered. simpl. split_and!; [done| |].
      - intros i k0 s0 p0 [[_ H]|[_ H]]%lookup_snoc_Some; [by eapply G2|].
        injection H as _ H. by destruct (Hf s0 p0).
      - intros i j k0 k1 s0 p0 p1
          [[_ Hi]|[_ Hi]]%lookup_snoc_Some [[_ Hj]|[_ Hj]]%lookup_snoc_Some.
        + by eapply G3.
        + injection Hj as _ Hj. by destruct (Hf s0 p1).
        + injection Hi as _ Hi. by destruct (Hf s0 p0).
        + injection Hi as _ Hi. by destruct (Hf s0 p0). }
    destruct (clients w !! s) as [c|] eqn:Hs; [by apply Hkeep|].
    destruct (initializing w !! s) as [p|] eqn:Hi; [by apply Hkeep|].
    assert (Hnew : forall w' st_new,
              initializing w' = <[s := length (promises w)]> (initializing w) ->
              promises w' = promises w ++ [st_new] ->
              (forall s' c t, st_new = Connecting s' c t -> s' = s) ->
              creation_registered
                (w', tasks ++ [InGetClient k (Owner s (length (promises w)))])).
    { intros w' st_new Hin Hpr Hst. unfold creation_registered. simpl.
      rewrite Hin, Hpr. split_and!.
      - intros q s0 c t [[_ H]|[-> H]]%lookup_snoc_Some.
        + pose proof (G1 q s0 c t H) as H0.
          rewrite lookup_insert_ne; [done|]. intros <-. congruence.
        + rewrite (Hst s0 c t) by done. by rewrite lookup_insert_eq.
      - intros i k0 s0 p0 [[_ H]|[_ H]]%lookup_snoc_Some.
        + pose proof (G2 i k0 s0 p0 H) as H0.
          rewrite lookup_insert_ne; [done|]. intros <-. congruence.
        + injection H as <- <- <-. by rewrite lookup_insert_eq.
      - intros i j k0 k1 s0 p0 p1
          [[Hli Hi']|[-> Hi']]%lookup_snoc_Some
          [[Hlj Hj']|[-> Hj']]%lookup_snoc_Some; try done.
        + by eapply G3.
        + injection Hj' as <- <- <-.
          pose proof (G2 i k0 s p0 Hi'). congruence.
        + injection Hi' as <- <- <-.
          pose proof (G2 j k1 s p1 Hj'). congruence. }
    unfold Stdio.createClient.
    destruct (lookup stdioServers s) as [cfg| |]; simpl.
    + eapply Hnew; simpl; try done. by intros s' c t [= <- _ _].
    + eapply Hnew; simpl; try done. by intros s' c t [= <- _ _].
    + eapply Hnew; simpl; done.
  - unfold connect_done.
    destruct (promises w !! q) as [[s c t|c|e0]|] eqn:Hq; try done.
    assert (Hset : forall w' st_new,
              initializing w' = initializing w ->
              promises w' = <[q := st_new]> (promises w) ->
              (forall s' c' t', st_new <> Connecting s' c' t') ->
              creation_registered (w', tasks)).
    { intros w' st_new Hin Hpr Hst. unfold creation_registered. simpl.
      rewrite Hin, Hpr. split_and!; try done.
      intros q' s0 c0 t0 [[_ [H _]]|[_ H]]%list_lookup_insert_Some;
        [by destruct (Hst s0 c0 t0)|by eapply G1]. }
    destruct r as [e0|]; by eapply Hset.
  - destruct (tasks !! i) as [[k f|k c|res]|] eqn:Hi; try done.
    destruct (getClient_resume f w) as [[w1 r]|] eqn:Hr; [|done].
    pose proof (after_getClient_frame k r w1) as Hframe.
    destruct (after_getClient k r w1) as [w2 t].
    destruct Hframe as (_ & Hin2 & Hpr2 & _ & Ht).
    assert (Hpr1 : promises w1 = promises w).
    { destruct f as [c|p|s p]; simpl in Hr.
      - by injection Hr as <- <-.
      - destruct (promises w !! p) as [[? ? ?|c|e0]|]; try done;
          by injection Hr as <- <-.
      - destruct (promises w !! p) as [[? ? ?|c|e0]|]; try done;
          by injection Hr as <- <-. }
    assert (Hothers : forall j k0 s0 p0,
              <[i := t]> tasks !! j = Some (InGetClient k0 (Owner s0 p0)) ->
              i <> j /\ tasks !! j = Some (InGetClient k0 (Owner s0 p0))).
    { intros j k0 s0 p0 [[_ [H _]]|H]%list_lookup_insert_Some; [|done].
      by destruct (Ht k0 (Owner s0 p0)). }
    unfold creation_registered. simpl. rewrite Hin2, Hpr2, Hpr1.
    destruct f as [c|p|s p]; simpl in Hr.
    + injection Hr as <- <-. split_and!; [done| |].
      * intros j k0 s0 p0 [_ H]%Hothers. by eapply G2.
      * intros j j' k0 k1 s0 p0 p1 [_ H]%Hothers [_ H']%Hothers.
        by eapply G3.
    + assert (w1 = w) as ->.
      { destruct (promises w !! p) as [[? ? ?|c|e0]|]; try done;
          by injection Hr as <- <-. }
      split_and!; [done| |].
      * intros j k0 s0 p0 [_ H]%Hothers. by eapply G2.
      * intros j j' k0 k1 s0 p0 p1 [_ H]%Hothers [_ H']%Hothers.
        by eapply G3.
    + assert (Hw1 : initializing w1 = delete s (initializing w)
                    /\ forall c t, promises w !! p <> Some (Connecting s c t)).
      { destruct (promises w !! p) as [[? ? ?|c|e0]|]; try done;
          by injection Hr as <- <-. }
      destruct Hw1 as [-> Hsettled]. split_and!.
      * intros q s0 c0 t0 H. pose proof (G1 q s0 c0 t0 H) as H0.
        rewrite lookup_delete_ne; [done|]. intros <-.
        pose proof (G2 i k s p Hi) as H1.
        assert (q = p) as -> by congruence. by destruct (Hsettled c0 t0).
      * intros j k0 s0 p0 [Hne H]%Hothers. pose proof (G2 j k0 s0 p0 H) as H0.
        rewrite lookup_delete_ne; [done|]. intros <-.
        by destruct Hne; eapply G3.
      * intros j j' k0 k1 s0 p0 p1 [_ H]%Hothers [_ H']%Hothers.
        by eapply G3.
  - destruct (tasks !! i) as [[k f|k c|res]|] eqn:Hi; try done.
    assert (Hothers : forall j k0 s0 p0,
              <[i := after_tool JSON_parse k r]> tasks !! j
              = Some (InGetClient k0 (Owner s0 p0)) ->
              tasks !! j = Some (InGetClient k0 (Owner s0 p0))).
    { intros j k0 s0 p0 [[_ [H _]]|[_ H]]%list_lookup_insert_Some; [|done].
      by destruct k. }
    unfold creation_registered. simpl. split_and!; [done| |].
    + intros j k0 s0 p0 H%Hothers. by eapply G2.
    + intros j j' k0 k1 s0 p0 p1 H%Hothers H'%Hothers. by eapply G3.
  - unfold disconnect. by destruct (clients w !! s).
Qed.

Lemma run_registered evs : forall st,
  creation_registered st -> creation_registered (run evs st).
Proof.
  induction evs as [|e evs IH]; intros st H; [done|].
  simpl. apply IH. by apply step_registered.
Qed.

Lemma fresh_registered : creation_registered (Stdio.fresh, []).
Proof.
  unfold creation_registered. simpl. split_and!.
  - intros q s c t H. by destruct q.
  - intros i k s q H. by destruct i.
  - intros i j k k' s q q' H. by destruct i.
Qed.

(** While a creation is under way, no step other than the settling of
    its [connect] ends it or makes another [connect] for the server. *)
Lemma step_in_flight s p e st :
  creation_registered st -> in_flight s p (fst st) ->
  (forall r, e <> EConnectDone p r) ->
  in_flight s p (fst (step e st))
  /\ connects s (io (fst (step e st))) = connects s (io (fst st)).
Proof.
  destruct st as [w tasks]. intros (G1 & G2 & G3) (Hc & Hi & c & t & Hp) He.
  simpl in *.
  assert (Hsame : in_flight s p w /\ connects s (io w) = connects s (io w)).
  { split; [|done]. unfold in_flight. eauto. }
  destruct e as [k s'|q r|i|i r|s']; simpl.
  - unfold Stdio.getClient.
    destruct (clients w !! s') as [c'|] eqn:Hs'; [done|].
    destruct (initializing w !! s') as [p'|] eqn:Hi'; [done|].
    assert (Hne : s' <> s) by congruence.
    pose proof (lookup_lt_Some _ _ _ Hp) as Hlt.
    unfold Stdio.createClient, in_flight.
    destruct (lookup stdioServers s') as [cfg| |]; simpl;
      rewrite ?lookup_insert_ne by done; rewrite ?lookup_app_l by done;
      split_and!; eauto.
    + rewrite connects_app. unfold connects at 2. simpl.
      destruct (String.eqb_spec s' s); [done|simpl; lia].
    + rewrite connects_app. unfold connects at 2. simpl.
      destruct (String.eqb_spec s' s); [done|simpl; lia].
  - unfold connect_done.
    destruct (promises w !! q) as [[s0 c0 t0|c0|e0]|] eqn:Hq;
      try done.
    assert (Hqp : q <> p) by (intros ->; by destruct (He r)).
    assert (Hs0 : s0 <> s).
    { intros ->. pose proof (G1 q s c0 t0 Hq). congruence. }
    unfold in_flight.
    destruct r as [e0|]; simpl; rewrite ?lookup_insert_ne by done;
      rewrite list_lookup_insert_ne by done; split_and!; eauto.
    rewrite connects_app. unfold connects at 2. simpl. lia.
  - destruct (tasks !! i) as [[k f|k c0|res]|] eqn:Hti;
      try done.
    destruct (getClient_resume f w) as [[w1 r]|] eqn:Hr;
      [|done].
    pose proof (after_getClient_frame k r w1) as Hframe.
    destruct (after_getClient k r w1) as [w2 t2].
    destruct Hframe as (Hc2 & Hin2 & Hpr2 & Hio2 & _). simpl.
    unfold in_flight. rewrite Hc2, Hin2, Hpr2, Hio2.
    destruct f as [c0|p0|s0 p0]; simpl in Hr.
    + injection Hr as <- <-. split_and!; eauto.
    + destruct (promises w !! p0) as [[? ? ?|c0|e0]|]; try done;
        injection Hr as <- <-; split_and!; eauto.
    + pose proof (G2 i k s0 p0 Hti) as Hown.
      assert (Hs0 : s0 <> s).
      { intros ->. assert (p0 = p) as -> by congruence.
        by rewrite Hp in Hr. }
      destruct (promises w !! p0) as [[? ? ?|c0|e0]|]; try done;
        injection Hr as <- <-; simpl; rewrite lookup_delete_ne by done;
        split_and!; eauto.
  - destruct (tasks !! i) as [[k f|k c0|res]|]; done.
  - unfold disconnect, in_flight.
    destruct (clients w !! s') as [c'|] eqn:Hs'; simpl; [|done].
    split_and!; eauto.
    + by apply lookup_delete_None; right.
    + by rewrite connects_app, Nat.add_0_r.
Qed.

Lemma run_in_flight s p evs : forall st,
  creation_registered st -> in_flight s p (fst st) ->
  (forall r, EConnectDone p r ∉ evs) ->
  in_flight s p (fst (run evs st))
  /\ connects s (io (fst (run evs st))) = connects s (io (fst st)).
Proof.
  induction evs as [|e evs IH]; intros st Hreg Hfl Hev; [done|]. simpl.
  destruct (step_in_flight s p e st Hreg Hfl) as [Hfl1 Hn1].
  { intros r ->. apply (Hev r). by left. }
  destruct (IH (step e st)) as [Hfl2 Hn2]; try done.
  - by apply step_registered.
  - intros r Hin. apply (Hev r). by right.
  - split; [done|congruence].
Qed.

(** In every state the stdio manager can reach: once a first caller has
    started the creation of a session for a server the registry
    resolves, then until the [connect] of that creation settles,
    whatever else happens in between (calls for any server, resumptions,
    tool results, disconnects), exactly one [connect] has been made for
    the server, and every further caller for it is handed the promise of
    that one creation, the manager being left as it was. *)
Theorem creation_shared_throughout
    (before during : list event) k (s : string) :
  let st0 := run before (Stdio.fresh, []) in
  let p := length (promises (fst st0)) in
  clients (fst st0) !! s = None ->
  initializing (fst st0) !! s = None ->
  lookup stdioServers s <> Absent ->
  (forall r, EConnectDone p r ∉ during) ->
  let st := run during (step (ECall k s) st0) in
  in_flight s p (fst st)
  /\ connects s (io (fst st)) = connects s (io (fst st0)) + 1
  /\ forall k',
       step (ECall k' s) st = (fst st, snd st ++ [InGetClient k' (Joined p)]).
Proof.
  intros st0 p Hc Hi Hknown Hev st.
  pose proof (run_registered before _ fresh_registered) as Hreg0.
  fold st0 in Hreg0.
  pose proof (step_registered (ECall k s) st0 Hreg0) as Hreg1.
  assert (Hstart : in_flight s p (fst (step (ECall k s) st0))
                   /\ connects s (io (fst (step (ECall k s) st0)))
                      = connects s (io (fst st0)) + 1).
  { destruct st0 as [w tasks]. simpl in *. unfold Stdio.getClient.
    rewrite Hc, Hi. unfold Stdio.createClient, in_flight.
    destruct (lookup stdioServers s) as [cfg| |]; [| |done]; simpl;
      rewrite lookup_insert_eq, list_lookup_middle by done;
      rewrite connects_app; unfold connects at 2; simpl;
      rewrite String.eqb_refl; simpl; split_and!; eauto. }
  destruct Hstart as [Hfl1 Hn1].
  destruct (run_in_flight s p during _ Hreg1 Hfl1 Hev) as [Hfl Hn].
  fold st in Hfl, Hn. split_and!; [done|congruence|].
  intros k'. destruct Hfl as (Hc' & Hi' & _). destruct st as [w tasks].
  simpl in *. unfold Stdio.getClient. by rewrite Hc', Hi'.
Qed.

End StdioTraceProps.

(** ** The stdio wrapper *)

Section WrapperProps.
Import Wrapper.

Variable JSON_parse : value -> completion value.
Variable blank : string -> bool.
Variable TOKEN : string.

Local Abbreviation step_ctl := (Wrapper.step_ctl JSON_parse blank TOKEN).
Local Abbreviation step := (Wrapper.step JSON_parse blank TOKEN).
Local Abbreviation run := (Wrapper.run JSON_parse blank TOKEN).
Local Abbreviation run_ctl := (Wrapper.run_ctl JSON_parse blank TOKEN).
Local Abbreviation forward := (Wrapper.forward JSON_parse TOKEN).
Local Abbreviation started := (Wrapper.started TOKEN).

(** What is written and where the run ends depend on the state alone,
    not on what was written before. *)
Lemma run_run_ctl evs : forall w,
  run evs w = {| ctl := fst (run_ctl evs (ctl w));
                 stdout := stdout w ++ snd (run_ctl evs (ctl w)) |}.
Proof.
  induction evs as [|e evs IH]; intros w; simpl.
  - rewrite app_nil_r. by destruct w.
  - unfold Wrapper.run in *. rewrite IH. unfold Wrapper.step.
    destruct (step_ctl e (ctl w)) as [c1 out1]. simpl.
    destruct (run_ctl evs c1) as [c2 out2]. simpl.
    by rewrite app_assoc.
Qed.

Lemma add_pending_cancel c : add_pending (-1) (add_pending 1 c) = c.
Proof.
  destruct c as [p e x t]. unfold add_pending. simpl. f_equal. lia.
Qed.

(** [checkExit] ends the process only once standard input has ended and
    nothing is pending. *)
Lemma checkExit_cases c :
  checkExit c = c
  \/ (stdinEnded c = true /\ pendingRequests c = 0%Z
      /\ exited (checkExit c) = Some 0%Z).
Proof.
  unfold checkExit.
  destruct (stdinEnded c) eqn:He; simpl; [|by left].
  destruct (Z.eqb_spec (pendingRequests c) 0); [by right|by left].
Qed.

(** C7 (as amended): a non-blank line that is not valid JSON is answered
    with exactly one JSON-RPC error envelope ([id] null, code -32603,
    the parser's message); the wrapper's state is left as it was, so it
    does not crash (it exits only if standard input had ended with
    nothing pending, as it would have anyway), and the pending calls and
    the lines that follow are processed as if the line had not been
    there, their output following the envelope. *)
Theorem malformed_line_answered
    (line : string) (err : js_error) (w : World) :
  blank line = false ->
  JSON_parse (VStr line) = Throw err ->
  exited (ctl w) = None ->
  let w' := step (ELine line) w in
  stdout w' = stdout w ++ [internal_error err]
  /\ (ctl w' = ctl w
      \/ (stdinEnded (ctl w) = true /\ pendingRequests (ctl w) = 0%Z
          /\ exited (ctl w') = Some 0%Z))
  /\ (ctl w' = ctl w ->
      forall evs,
        ctl (run evs w') = ctl (run evs w)
        /\ stdout (run evs w')
           = stdout w ++ [internal_error err]
             ++ drop (length (stdout w)) (stdout (run evs w))).
Proof.
  intros Hblank Hparse Hexit w'.
  assert (Hstep : step_ctl (ELine line) (ctl w)
                  = (checkExit (ctl w), [internal_error err])).
  { unfold Wrapper.step_ctl. rewrite Hexit, Hblank, Hparse.
    unfold finally. by rewrite add_pending_cancel. }
  assert (Hw' : w' = {| ctl := checkExit (ctl w);
                        stdout := stdout w ++ [internal_error err] |}).
  { unfold w', Wrapper.step. by rewrite Hstep. }
  split_and!.
  - by rewrite Hw'.
  - rewrite Hw'. simpl. apply checkExit_cases.
  - intros Hctl evs. rewrite !run_run_ctl, Hctl. simpl. split; [done|].
    rewrite Hw'. simpl. rewrite drop_app_length, <- app_assoc. done.
Qed.

(** *** The wrapper keeps running *)

Lemma open_calls_push c t :
  unsettled t = true ->
  open_calls (set_tasks (tasks c ++ [t]) c) = (open_calls c + 1)%Z.
Proof.
  intros Ht. unfold open_calls. simpl.
  rewrite List.filter_app, length_app. simpl. rewrite Ht. simpl. lia.
Qed.

Lemma open_calls_settle c i t :
  tasks c !! i = Some t -> unsettled t = true ->
  open_calls (set_tasks (<[i := Settled]> (tasks c)) c) = (open_calls c - 1)%Z.
Proof.
  intros Hi Ht. unfold open_calls. simpl.
  pose proof (lookup_lt_Some _ _ _ Hi) as Hlt.
  rewrite insert_take_drop by done.
  rewrite <- (take_drop_middle (tasks c) i t Hi) at 3.
  rewrite !List.filter_app, !length_app. simpl. rewrite Ht. simpl. lia.
Qed.

Lemma open_calls_nonneg c : (0 <= open_calls c)%Z.
Proof. unfold open_calls. lia. Qed.

(** After the [finally] of a call that was open. *)
Lemma finally_running c c' :
  exited c' = None -> stdinEnded c' = stdinEnded c ->
  pendingRequests c' = pendingRequests c ->
  pendingRequests c = (open_calls c' + 1)%Z ->
  running_ok (finally c').
Proof.
  intros Hex Hend Hp Hopen. unfold finally, checkExit. simpl.
  destruct (stdinEnded c') eqn:He; simpl.
  - destruct (Z.eqb_spec (pendingRequests c' + -1) 0) as [Hz|Hz];
      [by intros ?|].
    intros _. simpl. split; [unfold open_calls in *; simpl; lia|done].
  - intros _. simpl. split; [unfold open_calls in *; simpl; lia|].
    by rewrite He.
Qed.

Lemma step_running e c : running_ok c -> running_ok (fst (step_ctl e c)).
Proof.
  intros Hok. unfold Wrapper.step_ctl.
  destruct (exited c) eqn:Hex; [done|].
  destruct (Hok Hex) as [Hp Hend].
  destruct e as [line|i|i b| |]; simpl; [| | | |done].
  - destruct (blank line); [done|].
    destruct (JSON_parse (VStr line)) as [request|err].
    + assert (Hpush : forall t, unsettled t = true ->
                running_ok (set_tasks (tasks (add_pending 1 c) ++ [t])
                              (add_pending 1 c))).
      { intros t Ht _. rewrite open_calls_push by done. simpl.
        unfold open_calls in *. simpl. split; [lia|]. intros _. lia. }
      destruct (handle request); simpl; by apply Hpush.
    + simpl. unfold finally. rewrite add_pending_cancel.
      unfold checkExit. destruct (stdinEnded c) eqn:He; simpl; [|done].
      destruct (Z.eqb_spec (pendingRequests c) 0); [by intros ?|done].
  - destruct (tasks c !! i) as [[response|request|]|] eqn:Hi; try done.
    simpl. apply (finally_running c); try done.
    rewrite (open_calls_settle c i (Replying response)) by done. lia.
  - destruct (tasks c !! i) as [[response|request|]|] eqn:Hi; try done.
    assert (Hfin : running_ok
                     (finally (set_tasks (<[i := Settled]> (tasks c)) c))).
    { apply (finally_running c); try done.
      rewrite (open_calls_settle c i (Forwarding request)) by done. lia. }
    by destruct (Wrapper.forward JSON_parse TOKEN request b) as [[t [?|?]]|].
  - simpl. unfold checkExit. simpl.
    destruct (Z.eqb_spec (pendingRequests c) 0); [by intros ?|].
    intros _. simpl. split; [done|]. by intros _.
Qed.

Lemma run_ctl_running evs : forall c,
  running_ok c -> running_ok (fst (run_ctl evs c)).
Proof.
  induction evs as [|e evs IH]; intros c Hok; [done|]. simpl.
  pose proof (step_running e c Hok) as H1.
  destruct (step_ctl e c) as [c1 out1]. simpl in H1.
  specialize (IH c1 H1). by destruct (run_ctl evs c1).
Qed.

(** In every state the wrapper can reach, a malformed line leaves the
    state exactly as it was: the wrapper neither exits nor loses a
    pending call over it. *)
Theorem malformed_line_keeps_running
    (evs : list event) (line : string) (err : js_error) :
  blank line = false ->
  JSON_parse (VStr line) = Throw err ->
  let w := run evs started in
  ctl (step (ELine line) w) = ctl w.
Proof.
  intros Hblank Hparse w.
  assert (Hok : running_ok (ctl w)).
  { unfold w. rewrite run_run_ctl. simpl. apply run_ctl_running.
    intros _. by split. }
  unfold Wrapper.step, Wrapper.step_ctl.
  destruct (exited (ctl w)) eqn:Hex; [done|].
  rewrite Hblank, Hparse. simpl. unfold finally.
  rewrite add_pending_cancel. destruct (Hok Hex) as [_ Hend].
  unfold checkExit. destruct (stdinEnded (ctl w)); [|done]. simpl.
  destruct (Z.eqb_spec (pendingRequests (ctl w)) 0); [|done].
  by destruct Hend.
Qed.

(** *** Notifications *)

(** A call that has settled stays settled. *)
Lemma step_settled e c i :
  tasks c !! i = Some Settled ->
  tasks (fst (step_ctl e c)) !! i = Some Settled.
Proof.
  intros Hi. unfold Wrapper.step_ctl. destruct (exited c); [done|].
  assert (Hput : forall j,
            <[j := Settled]> (tasks c) !! i = Some Settled).
  { intros j. destruct (decide (j = i)) as [->|Hne].
    - rewrite list_lookup_insert_eq; [done|by eapply lookup_lt_Some].
    - by rewrite list_lookup_insert_ne. }
  assert (Hfin : forall c', tasks (finally c') = tasks c').
  { intros c'. unfold finally, checkExit.
    by destruct (stdinEnded _ && _). }
  destruct e as [line|j|j b| |]; simpl; try done.
  - destruct (blank line); [done|].
    destruct (JSON_parse (VStr line)) as [request|err].
    + destruct (handle request); simpl; by apply lookup_app_l_Some.
    + simpl. by rewrite Hfin.
  - destruct (tasks c !! j) as [[response|request|]|]; try done.
    simpl. rewrite Hfin. apply Hput.
  - destruct (tasks c !! j) as [[response|request|]|]; try done.
    destruct (Wrapper.forward JSON_parse TOKEN request b) as [[t [?|?]]|];
      simpl; rewrite ?Hfin; try done; apply Hput.
  - unfold checkExit. simpl. by destruct (pendingRequests c =? 0)%Z.
Qed.

Lemma run_settled evs : forall w i,
  tasks (ctl w) !! i = Some Settled ->
  tasks (ctl (run evs w)) !! i = Some Settled.
Proof.
  induction evs as [|e evs IH]; intros w i Hi; [done|].
  simpl. apply IH. unfold Wrapper.step.
  pose proof (step_settled e (ctl w) i Hi) as H.
  by destruct (step_ctl e (ctl w)).
Qed.

(** Version 2.1 never answers [notifications/initialized]: whatever
    other calls are pending when its line is read, the request is not
    forwarded; when its call resumes nothing is written, the call is
    settled and the counter of pending requests is back where it was;
    and the call stays settled whatever happens later, so nothing is
    written for the line afterwards either. *)
Theorem initialized_notification_unanswered
    (w : World) (line : string) (props : list (string * value))
    (later : list event) :
  exited (ctl w) = None -> blank line = false ->
  JSON_parse (VStr line) = Return (VObj props) ->
  assoc "method" props = Some (VStr "notifications/initialized") ->
  let i := length (tasks (ctl w)) in
  let w1 := step (ELine line) w in
  let w2 := step (EResume i) w1 in
  tasks (ctl w1) = tasks (ctl w) ++ [Replying VNull]
  /\ stdout w1 = stdout w
  /\ stdout w2 = stdout w
  /\ tasks (ctl w2) = tasks (ctl w) ++ [Settled]
  /\ pendingRequests (ctl w2) = pendingRequests (ctl w)
  /\ tasks (ctl (run later w2)) !! i = Some Settled.
Proof.
  intros Hex Hblank Hparse Hm i w1 w2.
  assert (Hhandle : handle (VObj props) = Reply VNull).
  { unfold handle, field. simpl. by rewrite Hm. }
  assert (Hw1 : w1 = {| ctl := set_tasks (tasks (ctl w) ++ [Replying VNull])
                                 (add_pending 1 (ctl w));
                        stdout := stdout w |}).
  { unfold w1, Wrapper.step, Wrapper.step_ctl.
    rewrite Hex, Hblank, Hparse, Hhandle. simpl. by rewrite app_nil_r. }
  assert (Hw2 : ctl w2 = finally (set_tasks (tasks (ctl w) ++ [Settled])
                                    (add_pending 1 (ctl w)))
                /\ stdout w2 = stdout w).
  { unfold w2, i. rewrite Hw1. unfold Wrapper.step, Wrapper.step_ctl. simpl.
    rewrite Hex, list_lookup_middle by done. simpl.
    rewrite insert_app_r_alt, Nat.sub_diag by done. simpl.
    by rewrite app_nil_r. }
  destruct Hw2 as [Hctl Hout].
  assert (Htasks : tasks (ctl w2) = tasks (ctl w) ++ [Settled]).
  { rewrite Hctl. unfold finally, checkExit. simpl.
    by destruct (stdinEnded _ && _). }
  rewrite Hw1. simpl. split_and!; try done.
  - rewrite Hctl. unfold finally, checkExit. simpl.
    destruct (stdinEnded _ && _); simpl; lia.
  - apply run_settled. rewrite Htasks. by apply list_lookup_middle.
Qed.

(** Version 1 writes a message for every line that is not blank, and
    forwards every method it does not answer itself, notifications
    included. *)
Lemma v1_answers_every_line line b :
  blank line = false ->
  Wrapper.line_v1 JSON_parse blank TOKEN line b <> Some [].
Proof.
  intros Hb. unfold line_v1. rewrite Hb.
  destruct (JSON_parse (VStr line)); [|done].
  destruct (handle_v1 a); [done|].
  by destruct (Wrapper.forward_v1 JSON_parse TOKEN a b) as [[t [?|?]]|].
Qed.

(** *** The timeout of [forward] *)

(** C6 (as amended): a request forwarded by the wrapper (version 2.1) is
    bounded by an explicit timeout of 180000 ms: [forward] always
    settles, at the latest when the timer fires; if the exchange has not
    finished by then it is aborted through the controller's signal and
    [forward] fails with the timeout error; the wrapper then writes an
    error envelope, settles the call and goes on as after any other
    call. *)
Theorem forward_bounded (request : value) (b : Net.behaviour) :
  Net.f_signal (forward_init TOKEN request) = Some TIMEOUT_MS
  /\ (exists t r, forward request b = Some (t, r) /\ (t <= TIMEOUT_MS)%N)
  /\ (Net.in_time TIMEOUT_MS b = false ->
      Net.outcome (Some TIMEOUT_MS) b = Some (TIMEOUT_MS, Net.Aborted)
      /\ forward request b = Some (TIMEOUT_MS, timed_out)
      /\ forall c i,
           exited c = None -> tasks c !! i = Some (Forwarding request) ->
           step_ctl (ESettle i b) c
           = (finally (set_tasks (<[i := Settled]> (tasks c)) c),
              [error_envelope VNull (-32603)
                 "Request timed out after 180 seconds"])).
Proof.
  split; [done|]. split.
  - unfold Wrapper.forward. simpl. unfold Net.outcome.
    destruct (Net.unaborted b) as [[t s]|].
    + destruct (N.ltb_spec t TIMEOUT_MS);
        [destruct s|]; eexists _, _; split; try done; lia.
    + eexists _, _. split; [done|lia].
  - intros Hlate.
    assert (Hout : Net.outcome (Some TIMEOUT_MS) b
                   = Some (TIMEOUT_MS, Net.Aborted)).
    { unfold Net.outcome, Net.in_time in *.
      destruct (Net.unaborted b) as [[t s]|]; by rewrite ?Hlate. }
    assert (Hfwd : forward request b = Some (TIMEOUT_MS, timed_out)).
    { unfold Wrapper.forward.
      change (Net.f_signal (forward_init TOKEN request)) with (Some TIMEOUT_MS).
      by rewrite Hout. }
    split_and!; try done.
    intros c i Hexit Hi. unfold Wrapper.step_ctl.
    by rewrite Hexit, Hi, Hfwd.
Qed.

End WrapperProps.

(** The line [{oops] on a wrapper that has just started. *)
Lemma malformed_line_answered_witness :
  let w := Wrapper.step Samples.JSON_parse Samples.blank "pd_token"
             (Wrapper.ELine "{oops") (Wrapper.started "pd_token") in
  Samples.blank "{oops" = false
  /\ Samples.JSON_parse (VStr "{oops") = Throw Samples.SyntaxError
  /\ Wrapper.stdout w = [Wrapper.internal_error Samples.SyntaxError]
  /\ Wrapper.ctl w = Wrapper.ctl (Wrapper.started "pd_token").
Proof.
  intros w.
  assert (H1 : Samples.blank "{oops" = false) by reflexivity.
  assert (H2 : Samples.JSON_parse (VStr "{oops") = Throw Samples.SyntaxError)
    by reflexivity.
  destruct (malformed_line_answered Samples.JSON_parse Samples.blank "pd_token"
              "{oops" Samples.SyntaxError (Wrapper.started "pd_token") H1 H2 eq_refl)
    as (Hout & _ & _).
  split; [exact H1|]. split; [exact H2|]. split; [exact Hout|reflexivity].
Defined.

(** C7 (as stated) fails: the malformed line is not dropped; the [catch]
    of [processLine] writes a response for it. *)
Lemma malformed_line_not_dropped :
  let w := Wrapper.step Samples.JSON_parse Samples.blank "pd_token"
             (Wrapper.ELine "{oops") (Wrapper.started "pd_token") in
  Samples.JSON_parse (VStr "{oops") = Throw Samples.SyntaxError
  /\ Wrapper.stdout w
     = [Wrapper.error_envelope VNull (-32603) "Unexpected token in JSON"]
  /\ Wrapper.stdout w <> Wrapper.stdout (Wrapper.started "pd_token").
Proof. split; [reflexivity|]. split; [reflexivity|discriminate]. Qed.

(** C6 (as stated) fails: the [fetch] of [HTTPMCPClient.sendRequest] is
    given no signal and the code sets no timer.  A call whose answer
    arrives after 250 seconds just waits for it and returns the result,
    where version 2.1 of the wrapper's [forward] has failed with its
    timeout error at 180 seconds; and against an endpoint that stays
    silent the call ends only when the platform gives up, after 300
    seconds, with the platform's error and not a timeout error.
    (Version 1 of the wrapper's [forward] waits in the same way.) *)
Lemma sendRequest_has_no_timeout :
  let c := Http.new_client "exa"
             (Config.lookup (Config.httpServers Samples.no_env) "exa") in
  let r := {| Http.req_id := 2; Http.req_method := "tools/call";
              Http.req_params :=
                VObj [("name", VStr "web_search_exa");
                      ("arguments", VObj [("query", VStr "rocq")])] |} in
  let late :=
    Net.Completes 250000 (Samples.answer_200 Samples.body_initialized_2) in
  Net.f_signal (Http.sendRequest_init c r) = None
  /\ Http.sendRequest_settles Samples.JSON_parse_call c r late
     = Some (250000%N, Return (VObj []))
  /\ Http.sendRequest_settles Samples.JSON_parse_call c r Net.Silent
     = Some (300000%N, Throw (JsError "TypeError" "fetch failed"))
  /\ Wrapper.forward Samples.JSON_parse_call "pd_token" Samples.request_call
       late
     = Some (180000%N,
             Throw (Error "Request timed out after 180 seconds"))
  /\ Wrapper.forward_v1 Samples.JSON_parse_call "pd_token"
       Samples.request_call late
     = Some (250000%N, Return Samples.answer_initialized_2).
Proof. repeat split. Qed.

(** A forwarded call against an endpoint whose answer never ends. *)
Example forward_times_out :
  Wrapper.forward Samples.JSON_parse_call "pd_token" Samples.request_call
    Net.Streams
  = Some (180000%N, Wrapper.timed_out).
Proof. reflexivity. Qed.

(** C9 at a failing input.  [notifications/cancelled] is a notification
    (it has no [id]); version 2.1 of [handle] only knows
    [notifications/initialized], so it returns a "Method not found"
    envelope, which [processLine] writes to standard output.  Version 1
    knows no notification at all: it forwards [notifications/initialized]
    and writes whatever comes back. *)
Theorem cancelled_notification_answered :
  let reply := Wrapper.error_envelope VUndef (-32601)
                 "Method not found: notifications/cancelled" in
  Wrapper.is_notification Samples.request_cancelled
  /\ Samples.JSON_parse (VStr Samples.line_cancelled)
     = Return Samples.request_cancelled
  /\ Wrapper.handle Samples.request_cancelled = Wrapper.Reply reply
  /\ Wrapper.stdout
       (Wrapper.run Samples.JSON_parse Samples.blank "pd_token"
          [Wrapper.ELine Samples.line_cancelled; Wrapper.EResume 0]
          (Wrapper.started "pd_token"))
     = [reply]
  /\ Wrapper.handle_v1
       (VObj [("jsonrpc", VStr "2.0");
              ("method", VStr "notifications/initialized")])
     = Wrapper.Forward.
Proof.
  intros reply. split; [|by repeat split].
  exists [("jsonrpc", VStr "2.0"); ("method", VStr "notifications/cancelled")].
  split; [reflexivity|]. split; [reflexivity|]. by eexists.
Qed.

(** The line of a [tools/call] request is read, and the endpoint its
    request is forwarded to stays silent: the call settles when the
    timer fires, with the timeout error, which is written in an error
    envelope. *)
Lemma forward_bounded_witness :
  let step_ctl := Wrapper.step_ctl Samples.JSON_parse_call Samples.blank
                    "pd_token" in
  let c := fst (step_ctl (Wrapper.ELine Samples.line_call)
                  (Wrapper.ctl (Wrapper.started "pd_token"))) in
  Net.in_time Wrapper.TIMEOUT_MS Net.Silent = false
  /\ Wrapper.tasks c = [Wrapper.Forwarding Samples.request_call]
  /\ Wrapper.forward Samples.JSON_parse_call "pd_token" Samples.request_call
       Net.Silent
     = Some (180000%N,
             Throw (Error "Request timed out after 180 seconds"))
  /\ snd (step_ctl (Wrapper.ESettle 0 Net.Silent) c)
     = [Wrapper.error_envelope VNull (-32603)
          "Request timed out after 180 seconds"].
Proof.
  intros step_ctl c.
  destruct (forward_bounded Samples.JSON_parse_call Samples.blank "pd_token"
              Samples.request_call Net.Silent) as (_ & _ & H).
  destruct (H eq_refl) as (_ & Hfwd & Hstep).
  split; [reflexivity|]. split; [reflexivity|]. split; [exact Hfwd|].
  unfold step_ctl. rewrite (Hstep c 0 eq_refl eq_refl). reflexivity.
Defined.

(** [callHTTPMCPTool("nowhere", ...)] after [exa] has been initialized. *)
Lemma http_unknown_server_fails_first_witness :
  let reg := Config.httpServers Samples.no_env in
  let st := Http.run Samples.JSON_parse reg
              [Http.ECall Http.KInitialize "exa"] (Http.fresh, []) in
  Config.lookup reg "nowhere" = Config.Absent
  /\ Http.step Samples.JSON_parse reg
       (Http.ECall (Http.KCallTool "search" (VObj [])) "nowhere") st
     = (fst st,
        snd st ++ [Http.Finished (Throw (Http.unknown_server reg "nowhere"))]).
Proof.
  intros reg st. split; [reflexivity|].
  exact (http_unknown_server_fails_first Samples.JSON_parse reg
           [Http.ECall Http.KInitialize "exa"]
           (Http.KCallTool "search" (VObj [])) "nowhere" eq_refl).
Defined.

(** [initializeServer("exa")] on the stdio manager, which does not know
    the HTTP server [exa]. *)
Lemma stdio_unknown_server_fails_first_witness :
  let reg := Config.stdioServers Samples.no_env in
  let st := Stdio.run reg Samples.JSON_parse
              [Stdio.ECall Stdio.KInitializeServer "memory"]
              (Stdio.fresh, []) in
  let st2 := Stdio.step reg Samples.JSON_parse (Stdio.EResume 1)
               (Stdio.step reg Samples.JSON_parse
                  (Stdio.ECall Stdio.KInitializeServer "exa") st) in
  Config.lookup reg "exa" = Config.Absent
  /\ Stdio.io (fst st2) = Stdio.io (fst st)
  /\ snd st2 !! 1
     = Some (Stdio.Finished (Throw (Stdio.unknown_server reg "exa"))).
Proof.
  intros reg st st2.
  destruct (stdio_unknown_server_fails_first reg Samples.JSON_parse
              [Stdio.ECall Stdio.KInitializeServer "memory"]
              Stdio.KInitializeServer "exa" eq_refl)
    as (Hio & _ & _ & Htasks).
  split; [reflexivity|]. split; [exact Hio|].
  assert (H : snd st2
              = snd st
                ++ [Stdio.Finished (Throw (Stdio.unknown_server reg "exa"))])
    by exact Htasks.
  rewrite H. reflexivity.
Defined.

(** With [memory] connected, a first caller asks for [github]; while
    that creation is under way a tool call on [memory], a caller and a
    completed creation for [git] and a disconnect go by. *)
Lemma creation_shared_throughout_witness :
  let reg := Config.stdioServers Samples.no_env in
  let before := [Stdio.ECall Stdio.KInitializeServer "memory";
                 Stdio.EConnectDone 0 None; Stdio.EResume 0] in
  let during := [Stdio.ECall (Stdio.KCallMCPTool "read_graph" (VObj [])) "memory";
                 Stdio.ECall Stdio.KInitializeServer "git";
                 Stdio.EResume 2;
                 Stdio.EConnectDone 2 None;
                 Stdio.EResume 3;
                 Stdio.EDisconnect "memory"] in
  let st0 := Stdio.run reg Samples.JSON_parse before (Stdio.fresh, []) in
  let st := Stdio.run reg Samples.JSON_parse during
              (Stdio.step reg Samples.JSON_parse
                 (Stdio.ECall Stdio.KListTools "github") st0) in
  length (Stdio.promises (fst st0)) = 1
  /\ Stdio.in_flight "github" 1 (fst st)
  /\ Stdio.connects "github" (Stdio.io (fst st)) = 1
  /\ forall k',
       Stdio.step reg Samples.JSON_parse (Stdio.ECall k' "github") st
       = (fst st, snd st ++ [Stdio.InGetClient k' (Stdio.Joined 1)]).
Proof.
  intros reg before during st0 st.
  destruct (creation_shared_throughout reg Samples.JSON_parse before during
              Stdio.KListTools "github") as (Hfl & Hn & Hjoin).
  - reflexivity.
  - reflexivity.
  - discriminate.
  - intros r Hin.
    repeat (apply elem_of_cons in Hin as [Hin|Hin]; [discriminate|]).
    by apply elem_of_nil in Hin.
  - split; [reflexivity|]. split; [exact Hfl|]. split; [exact Hn|exact Hjoin].
Defined.

(** The line [{oops] between two pings. *)
Lemma malformed_line_keeps_running_witness :
  let w := Wrapper.run Samples.JSON_parse Samples.blank "pd_token"
             [Wrapper.ELine Samples.line_ping] (Wrapper.started "pd_token") in
  Samples.blank "{oops" = false
  /\ Samples.JSON_parse (VStr "{oops") = Throw Samples.SyntaxError
  /\ Wrapper.ctl (Wrapper.step Samples.JSON_parse Samples.blank "pd_token"
                    (Wrapper.ELine "{oops") w)
     = Wrapper.ctl w.
Proof.
  intros w. split; [reflexivity|]. split; [reflexivity|].
  exact (malformed_line_keeps_running Samples.JSON_parse Samples.blank
           "pd_token" [Wrapper.ELine Samples.line_ping] "{oops"
           Samples.SyntaxError eq_refl eq_refl).
Defined.

(** The [initialized] notification of the MCP handshake arrives while
    a tool call is being forwarded; afterwards the forwarded call is
    answered and standard input ends. *)
Lemma initialized_notification_unanswered_witness :
  let step := Wrapper.step Samples.JSON_parse_notes Samples.blank "pd_token" in
  let run := Wrapper.run Samples.JSON_parse_notes Samples.blank "pd_token" in
  let w := step (Wrapper.ELine Samples.line_call)
             (Wrapper.started "pd_token") in
  let w2 := step (Wrapper.EResume 1)
              (step (Wrapper.ELine Samples.line_initialized) w) in
  let later :=
    [Wrapper.ESettle 0
       (Net.Completes 40 (Samples.answer_200 Samples.body_initialized_2));
     Wrapper.EResume 1; Wrapper.EStdinEnd] in
  Wrapper.tasks (Wrapper.ctl w) = [Wrapper.Forwarding Samples.request_call]
  /\ Wrapper.stdout w2 = []
  /\ Wrapper.tasks (Wrapper.ctl w2)
     = [Wrapper.Forwarding Samples.request_call; Wrapper.Settled]
  /\ Wrapper.tasks (Wrapper.ctl (run later w2)) !! 1 = Some Wrapper.Settled
  /\ Wrapper.stdout (run later w2) = [Samples.answer_initialized_2].
Proof.
  intros step run w w2 later. split; [reflexivity|].
  destruct (initialized_notification_unanswered Samples.JSON_parse_notes
              Samples.blank "pd_token" w Samples.line_initialized
              [("jsonrpc", VStr "2.0");
               ("method", VStr "notifications/initialized")] later)
    as (_ & _ & Hout & Htasks & _ & Hlater).
  - reflexivity.
  - reflexivity.
  - reflexivity.
  - reflexivity.
  - split; [exact Hout|]. split; [exact Htasks|].
    split; [exact Hlater|reflexivity].
Defined.

(** ** The stdio wrapper: standard input *)

Section WrapperInputProps.
Import Wrapper.

Variable JSON_parse : value -> completion value.
Variable blank : string -> bool.
Variable TOKEN : string.

Local Abbreviation run := (Wrapper.run JSON_parse blank TOKEN).
Local Abbreviation on_data := (Wrapper.on_data JSON_parse blank TOKEN).
Local Abbreviation feed := (Wrapper.feed JSON_parse blank TOKEN).
Local Abbreviation on_end := (Wrapper.on_end JSON_parse blank TOKEN).
Local Abbreviation started := (Wrapper.started TOKEN).
Local Abbreviation step_ctl := (Wrapper.step_ctl JSON_parse blank TOKEN).
Local Abbreviation step := (Wrapper.step JSON_parse blank TOKEN).
Local Abbreviation run_ctl := (Wrapper.run_ctl JSON_parse blank TOKEN).
Local Abbreviation accepts := (Wrapper.accepts blank).

Lemma split_lines_nonempty text : split_lines text <> [].
Proof.
  destruct text as [|a rest]; simpl; [done|].
  destruct (Ascii.eqb a LF); [done|]. by destruct (split_lines rest).
Qed.

Lemma string_app_assoc (a b c : string) : (a +:+ b) +:+ c = a +:+ (b +:+ c).
Proof.
  induction a as [|x a IH]; [done|].
  change (String x ((a +:+ b) +:+ c) = String x (a +:+ (b +:+ c))).
  by rewrite IH.
Qed.

Lemma string_app_nil_r (a : string) : a +:+ EmptyString = a.
Proof.
  induction a as [|x a IH]; [done|].
  change (String x (a +:+ EmptyString) = String x a). by rewrite IH.
Qed.

(** Splitting a text that continues: the pieces before the last one are
    final, the last one is continued. *)
Lemma split_lines_app a b :
  split_lines (a +:+ b)
  = removelast (split_lines a)
    ++ split_lines (List.last (split_lines a) EmptyString +:+ b).
Proof.
  induction a as [|x a IH]; [done|].
  pose proof (split_lines_nonempty a) as Hne.
  change (String x a +:+ b) with (String x (a +:+ b)).
  cbn [split_lines]. destruct (Ascii.eqb x LF) eqn:Hx.
  - rewrite IH. destruct (split_lines a) as [|f o] eqn:Ha; [done|].
    reflexivity.
  - rewrite IH. destruct (split_lines a) as [|f o] eqn:Ha; [done|].
    destruct o as [|f' o'].
    + simpl. by rewrite Hx.
    + reflexivity.
Qed.

Lemma split_lines_one_line text :
  one_line text = true -> split_lines text = [text].
Proof.
  induction text as [|x text IH]; simpl; [done|].
  intros [Hx Hrest]%andb_true_iff. apply negb_true_iff in Hx.
  by rewrite Hx, IH.
Qed.

Lemma split_lines_terminated line rest :
  one_line line = true ->
  split_lines (terminated line +:+ rest) = line :: split_lines rest.
Proof.
  unfold terminated. induction line as [|x line IH]; [done|].
  cbn [one_line]. intros [Hx Hline]%andb_true_iff. apply negb_true_iff in Hx.
  change (split_lines (String x ((line +:+ String LF EmptyString) +:+ rest))
          = String x line :: split_lines rest).
  cbn [split_lines]. by rewrite Hx, IH.
Qed.

(** No piece holds a line feed. *)
Lemma split_lines_pieces text : Forall (fun l => one_line l = true) (split_lines text).
Proof.
  induction text as [|x text IH]; simpl; [by repeat constructor|].
  destruct (Ascii.eqb x LF) eqn:Hx; [by constructor|].
  destruct (split_lines text) as [|f o]; [by repeat constructor; simpl; rewrite Hx|].
  inversion IH as [|? ? Hf Ho]; subst. constructor; [|done].
  simpl. by rewrite Hx.
Qed.

Lemma last_one_line text : one_line (List.last (split_lines text) EmptyString) = true.
Proof.
  pose proof (split_lines_pieces text) as H.
  pose proof (split_lines_nonempty text) as Hne.
  induction H as [|l ls Hl Hls IH]; [done|].
  destruct ls as [|l' ls']; [done|]. by apply IH.
Qed.

Lemma List_last_app {A : Type} (l1 l2 : list A) (d : A) :
  l2 <> [] -> List.last (l1 ++ l2) d = List.last l2 d.
Proof.
  intros Hne. induction l1 as [|x l1 IH]; [done|].
  simpl. rewrite IH. destruct (l1 ++ l2) eqn:H; [|done].
  by apply app_eq_nil in H as [_ ?].
Qed.

Lemma wrapper_run_app evs1 evs2 w : run (evs1 ++ evs2) w = run evs2 (run evs1 w).
Proof. unfold Wrapper.run. by rewrite fold_left_app. Qed.

Lemma feed_buffer_one_line inputs : forall st,
  one_line (fst st) = true -> one_line (fst (feed inputs st)) = true.
Proof.
  induction inputs as [|x inputs IH]; intros st H; [done|].
  simpl. apply IH. destruct x; simpl; try done.
  unfold Wrapper.on_data. simpl. apply last_one_line.
Qed.

Lemma concat_chunks_cons c cs :
  String.concat EmptyString (c :: cs) = c +:+ String.concat EmptyString cs.
Proof. destruct cs; simpl; [by rewrite string_app_nil_r|done]. Qed.

Lemma lines_of_app evs1 evs2 :
  lines_of (evs1 ++ evs2) = lines_of evs1 ++ lines_of evs2.
Proof. unfold lines_of. apply omap_app. Qed.

Lemma lines_of_lines ls : lines_of (map ELine ls) = ls.
Proof. induction ls as [|l ls IH]; simpl; [done|]. by f_equal. Qed.

(** Feeding the inputs, from any buffer that holds no line feed. *)
Lemma feed_events inputs : forall buffer w,
  one_line buffer = true ->
  let text := buffer +:+ String.concat EmptyString (chunks_of inputs) in
  feed inputs (buffer, w)
  = (List.last (split_lines text) EmptyString,
     run (events_of inputs buffer) w)
  /\ lines_of (events_of inputs buffer)
     = removelast (split_lines text).
Proof.
  induction inputs as [|x inputs IH]; intros buffer w Hb text.
  - unfold text. simpl. rewrite string_app_nil_r.
    by rewrite split_lines_one_line.
  - destruct x as [chunk|i|i b| |].
    2: exact (IH buffer (step (EResume i) w) Hb).
    2: exact (IH buffer (step (ESettle i b) w) Hb).
    2: exact (IH buffer (step EStdinEnd w) Hb).
    2: exact (IH buffer (step EUncaught w) Hb).
    unfold text.
    change (chunks_of (IData chunk :: inputs)) with (chunk :: chunks_of inputs).
    rewrite concat_chunks_cons.
    set (rest := String.concat EmptyString (chunks_of inputs)).
    set (lines := split_lines (buffer +:+ chunk)).
    set (kept := List.last lines EmptyString).
    assert (Hkept : one_line kept = true) by apply last_one_line.
    assert (Hsplit : split_lines (buffer +:+ (chunk +:+ rest))
                     = removelast lines ++ split_lines (kept +:+ rest)).
    { rewrite <- string_app_assoc. apply split_lines_app. }
    assert (Hne : split_lines (kept +:+ rest) <> [])
      by apply split_lines_nonempty.
    pose proof (IH kept (run (map ELine (removelast lines)) w) Hkept) as H.
    cbv zeta in H. destruct H as [Hfeed Hlines].
    fold rest in Hfeed, Hlines. rewrite Hsplit. split.
    + change (feed (IData chunk :: inputs) (buffer, w))
        with (feed inputs (kept, run (map ELine (removelast lines)) w)).
      rewrite Hfeed, List_last_app by done.
      cbn [events_of]. fold lines kept. by rewrite wrapper_run_app.
    + cbn [events_of]. fold lines kept.
      rewrite lines_of_app, lines_of_lines, Hlines.
      by rewrite removelast_app.
Qed.

(** However standard input is cut into chunks, and whatever happens
    between one chunk and the next (calls resume, forwarded requests
    settle), [processLine] is called on the same lines in the same
    order: the terminated lines of the whole text.  What follows the
    last line feed is in the buffer. *)
Theorem feed_chunking (inputs : list input) (w : World) :
  let text := String.concat EmptyString (chunks_of inputs) in
  let evs := events_of inputs EmptyString in
  feed inputs (EmptyString, w)
  = (List.last (split_lines text) EmptyString, run evs w)
  /\ lines_of evs = removelast (split_lines text).
Proof. by apply (feed_events inputs EmptyString w). Qed.

Lemma one_line_app a b :
  one_line a = true -> one_line b = true -> one_line (a +:+ b) = true.
Proof.
  intros Ha Hb. induction a as [|x a IH]; [done|].
  change (one_line (String x (a +:+ b)) = true). cbn [one_line] in *.
  apply andb_true_iff in Ha as [Hx Ha]. by rewrite Hx, IH.
Qed.

Lemma split_text_of_lines lines tail :
  Forall (fun l => one_line l = true) lines -> one_line tail = true ->
  split_lines (text_of_lines lines tail) = lines ++ [tail].
Proof.
  intros Hlines Htail. induction Hlines as [|l ls Hl Hls IH]; simpl.
  - by apply split_lines_one_line.
  - by rewrite split_lines_terminated, IH.
Qed.

(** The lines that arrive terminated are processed, each once and in
    order; the text after the last line feed is kept back. *)
Theorem on_data_lines (lines : list string) (tail : string) (w : World) :
  Forall (fun l => one_line l = true) lines -> one_line tail = true ->
  on_data (text_of_lines lines tail) (EmptyString, w)
  = (tail, run (map ELine lines) w).
Proof.
  intros Hlines Htail. unfold Wrapper.on_data. simpl.
  change (EmptyString +:+ text_of_lines lines tail)
    with (text_of_lines lines tail).
  rewrite split_text_of_lines by done.
  by rewrite last_last, removelast_last.
Qed.

(** Text after the last line feed is never processed, whatever has
    come before: not when it arrives, and not when standard input
    ends. *)
Theorem unterminated_tail_never_processed
    (inputs : list input) (tail : string) (w : World) :
  one_line tail = true ->
  snd (feed (inputs ++ [IData tail]) (EmptyString, w))
  = snd (feed inputs (EmptyString, w))
  /\ snd (on_end (feed (inputs ++ [IData tail]) (EmptyString, w)))
     = snd (on_end (feed inputs (EmptyString, w))).
Proof.
  intros Htail.
  assert (H : snd (feed (inputs ++ [IData tail]) (EmptyString, w))
              = snd (feed inputs (EmptyString, w))).
  { unfold Wrapper.feed. rewrite fold_left_app. simpl.
    fold (feed inputs (EmptyString, w)).
    pose proof (feed_buffer_one_line inputs (EmptyString, w) eq_refl) as Hb.
    destruct (feed inputs (EmptyString, w)) as [b w1]. simpl in *.
    unfold Wrapper.on_data. simpl.
    by rewrite split_lines_one_line by by apply one_line_app. }
  split; [done|]. unfold Wrapper.on_end. simpl. by rewrite H.
Qed.

(** *** Exit *)


Lemma open_calls_finally c : open_calls (finally c) = open_calls c.
Proof.
  unfold finally, checkExit.
  by destruct (stdinEnded _ && (pendingRequests _ =? 0)%Z).
Qed.

Lemma exit_ok_iff (A B : Prop) c : (A <-> B) -> exit_ok A c -> exit_ok B c.
Proof.
  intros HAB [Hp Hex]. split; [done|].
  destruct (exited c) as [code|]; [|tauto].
  destruct Hex as [?|[? ?]]; [by left|right; tauto].
Qed.

Lemma finally_exit_ok (A : Prop) c :
  ~ A -> exited c = None -> pendingRequests c = (open_calls c + 1)%Z ->
  exit_ok A (finally c).
Proof.
  intros HA Hex Hp. unfold finally, checkExit, exit_ok. simpl.
  destruct (stdinEnded c) eqn:He; simpl.
  - destruct (Z.eqb_spec (pendingRequests c + -1) 0) as [Hz|Hz]; simpl.
    + unfold open_calls in *. simpl. split; [lia|]. left.
      split_and!; try done; lia.
    + rewrite Hex, He. unfold open_calls in *. simpl. split; [lia|].
      split; [done|]. intros _. lia.
  - rewrite Hex, He. unfold open_calls in *. simpl. split; [lia|done].
Qed.

Lemma step_exit_ok (A : Prop) e c :
  exit_ok A c -> exit_ok (A \/ e = EUncaught) (fst (step_ctl e c)).
Proof.
  intros Hok. unfold Wrapper.step_ctl.
  destruct (exited c) eqn:Hex.
  { simpl. destruct Hok as [Hp Hend]. split; [done|]. rewrite Hex in *.
    destruct Hend as [?|[? ?]]; [by left|right; tauto]. }
  destruct Hok as [Hp Hend]. rewrite Hex in Hend.
  destruct Hend as [HA Hend].
  pose proof (open_calls_nonneg c) as Hnn.
  destruct e as [line|i|i b| |]; simpl.
  5:{ split; [done|]. simpl. right. tauto. }
  all: match goal with
       | |- exit_ok (?P \/ ?e = EUncaught) _ =>
           assert (HA' : ~ (P \/ e = EUncaught))
             by (intros [?|?]; [done|discriminate]);
           assert (Hc : exit_ok (P \/ e = EUncaught) c)
             by (split; [done|]; rewrite Hex; split; [exact HA'|done])
       end.
  - destruct (blank line); [done|].
    destruct (JSON_parse (VStr line)) as [request|err].
    + assert (Hpush : forall t, unsettled t = true ->
                exit_ok (A \/ ELine line = EUncaught)
                  (set_tasks (tasks (add_pending 1 c) ++ [t])
                     (add_pending 1 c))).
      { intros t Ht. unfold exit_ok. rewrite open_calls_push by done.
        simpl. rewrite Hex. unfold open_calls in *. simpl.
        split; [lia|]. split; [done|]. intros _. lia. }
      destruct (handle request); simpl; by apply Hpush.
    + simpl. unfold finally. rewrite add_pending_cancel.
      unfold checkExit. destruct (stdinEnded c) eqn:He; simpl;
        [|done].
      destruct (Z.eqb_spec (pendingRequests c) 0) as [Hz|Hz];
        [|done].
      destruct Hend; [done|lia].
  - destruct (tasks c !! i) as [[response|request|]|] eqn:Hi;
      try done.
    simpl. apply finally_exit_ok; [done|done|]. simpl.
    rewrite (open_calls_settle c i (Replying response)) by done. lia.
  - destruct (tasks c !! i) as [[response|request|]|] eqn:Hi;
      try done.
    assert (Hfin : exit_ok (A \/ ESettle i b = EUncaught)
                     (finally (set_tasks (<[i := Settled]> (tasks c)) c))).
    { apply finally_exit_ok; [done|done|]. simpl.
      rewrite (open_calls_settle c i (Forwarding request)) by done. lia. }
    destruct (Wrapper.forward JSON_parse TOKEN request b) as [[t [?|?]]|];
      done.
  - unfold checkExit, exit_ok. simpl.
    destruct (Z.eqb_spec (pendingRequests c) 0) as [Hz|Hz]; simpl.
    + split; [done|]. left. split_and!; try done.
      unfold open_calls in *. simpl. lia.
    + split; [done|]. split; [done|]. intros _.
      unfold open_calls in *. simpl. lia.
Qed.

Lemma ctl_step e w : ctl (step e w) = fst (step_ctl e (ctl w)).
Proof. unfold Wrapper.step. by destruct (step_ctl e (ctl w)). Qed.

Lemma run_exit_ok evs :
  exit_ok (TOKEN = EmptyString \/ EUncaught ∈ evs) (ctl (run evs started)).
Proof.
  induction evs as [|e evs IH] using rev_ind.
  - simpl. split; [done|]. simpl.
    destruct (String.eqb_spec TOKEN EmptyString) as [->|Hne].
    + right. by split; [|left].
    + split; [|done]. intros [?|?%elem_of_nil]; done.
  - rewrite wrapper_run_app. simpl. rewrite ctl_step.
    eapply exit_ok_iff; [|by apply step_exit_ok].
    rewrite elem_of_app, list_elem_of_singleton. split.
    + intros [[?|?]| ->]; tauto.
    + intros [?|[?|?]]; [tauto|tauto|right; congruence].
Qed.

(** In every state the wrapper can reach, its counter of pending
    requests is the number of calls of [processLine] that have not
    finished.  As long as it runs, the token is set, every exception was
    caught, and standard input has not ended with no call left open.
    Once it has exited, it has done so with status 0, standard input
    having ended and no call being open, or else with status 1, the
    token being missing or an exception having gone uncaught.  So, the
    token set and nothing thrown, it never exits over a call that has
    yet to be answered, and it does exit once the last one has been. *)
Theorem wrapper_exits_when_done (evs : list event) :
  let c := ctl (run evs started) in
  let abnormal := TOKEN = EmptyString \/ EUncaught ∈ evs in
  pendingRequests c = open_calls c
  /\ (exited c = None ->
      ~ abnormal /\ (stdinEnded c = true -> open_calls c <> 0%Z))
  /\ (forall code,
        exited c = Some code ->
        (code = 0%Z /\ stdinEnded c = true /\ open_calls c = 0%Z)
        \/ (code = 1%Z /\ abnormal)).
Proof.
  intros c abnormal.
  destruct (run_exit_ok evs) as [Hp Hex]. fold c in Hp, Hex.
  split; [done|]. split.
  - intros Hnone. by rewrite Hnone in Hex.
  - intros code Hcode. by rewrite Hcode in Hex.
Qed.

(** *** One message per line at most *)

Lemma step_ctl_output e c :
  (Z.of_nat (length (snd (step_ctl e c))) + open_calls (fst (step_ctl e c))
   <= open_calls c + (if accepts e then 1 else 0))%Z.
Proof.
  unfold Wrapper.step_ctl.
  assert (Hsame : (0 + open_calls c
                   <= open_calls c + (if accepts e then 1 else 0))%Z)
    by (destruct (accepts e); lia).
  assert (Hwritten : forall v, length (written v) <= 1)
    by (intros []; simpl; lia).
  destruct (exited c); [done|].
  destruct e as [line|i|i b| |]; simpl; [| | | |unfold open_calls; simpl; lia].
  - destruct (blank line); simpl; [lia|].
    destruct (JSON_parse (VStr line)) as [request|err].
    + assert (Hpush : forall t, unsettled t = true ->
                (0 + open_calls (set_tasks (tasks (add_pending 1 c) ++ [t])
                                   (add_pending 1 c))
                 <= open_calls c + 1)%Z).
      { intros t Ht. rewrite open_calls_push by done.
        unfold open_calls. simpl. lia. }
      destruct (handle request); simpl; by apply Hpush.
    + simpl. rewrite open_calls_finally. unfold open_calls. simpl. lia.
  - destruct (tasks c !! i) as [[response|request|]|] eqn:Hi; simpl; try lia.
    rewrite open_calls_finally.
    rewrite (open_calls_settle c i (Replying response)) by done.
    specialize (Hwritten response). lia.
  - destruct (tasks c !! i) as [[response|request|]|] eqn:Hi; simpl; try lia.
    destruct (Wrapper.forward JSON_parse TOKEN request b)
      as [[t [json|err]]|]; simpl; try lia;
      rewrite open_calls_finally;
      rewrite (open_calls_settle c i (Forwarding request)) by done.
    + specialize (Hwritten json). lia.
    + lia.
  - unfold checkExit. simpl.
    destruct (pendingRequests c =? 0)%Z; unfold open_calls; simpl; lia.
Qed.

Lemma run_ctl_output evs : forall c,
  (Z.of_nat (length (snd (run_ctl evs c))) + open_calls (fst (run_ctl evs c))
   <= open_calls c + Z.of_nat (length (List.filter accepts evs)))%Z.
Proof.
  induction evs as [|e evs IH]; intros c; [simpl; lia|]. simpl.
  pose proof (step_ctl_output e c) as H1.
  destruct (step_ctl e c) as [c1 out1]. specialize (IH c1).
  destruct (run_ctl evs c1) as [c2 out2]. simpl in *.
  rewrite length_app. destruct (accepts e); simpl; lia.
Qed.

(** The wrapper writes at most one message for each line that is not
    blank: at any time, the messages written and the calls still open
    together are no more than the lines it was given. *)
Theorem one_message_per_line (evs : list event) :
  let w := run evs started in
  (Z.of_nat (length (stdout w)) + open_calls (ctl w)
   <= Z.of_nat (length (List.filter accepts evs)))%Z.
Proof.
  intros w. unfold w. rewrite run_run_ctl. simpl.
  pose proof (run_ctl_output evs (ctl started)) as H.
  unfold open_calls at 2 in H. simpl in H. lia.
Qed.

(** *** Requests answered locally *)

(** A request for [initialize], [ping] or [tools/list] is answered by
    the wrapper itself as soon as its call resumes, whatever other calls
    are pending: nothing is forwarded, the answer carries the [id] of the
    request, and no other call is touched. *)
Theorem local_methods_answered_at_once
    (w : World) (line : string) (props : list (string * value)) (m : string) :
  exited (ctl w) = None -> blank line = false ->
  JSON_parse (VStr line) = Return (VObj props) ->
  assoc "method" props = Some (VStr m) -> m ∈ local_methods ->
  let id := default VUndef (assoc "id" props) in
  let w1 := step (ELine line) w in
  let w2 := step (EResume (length (tasks (ctl w)))) w1 in
  exists result,
    tasks (ctl w1) = tasks (ctl w) ++ [Replying (result_envelope id result)]
    /\ stdout w1 = stdout w
    /\ stdout w2 = stdout w ++ [result_envelope id result]
    /\ tasks (ctl w2) = tasks (ctl w) ++ [Settled]
    /\ pendingRequests (ctl w2) = pendingRequests (ctl w).
Proof.
  intros Hex Hblank Hparse Hm Hlocal id w1 w2.
  assert (Hhandle : exists result,
            handle (VObj props) = Reply (result_envelope id result)).
  { unfold handle, field, id. simpl. rewrite Hm. simpl.
    unfold local_methods in Hlocal.
    repeat (apply elem_of_cons in Hlocal as [->|Hlocal]; [by eexists|]).
    by apply elem_of_nil in Hlocal. }
  destruct Hhandle as [result Hhandle]. exists result.
  assert (Hw1 : w1 = {| ctl := set_tasks (tasks (ctl w)
                                          ++ [Replying (result_envelope id result)])
                                 (add_pending 1 (ctl w));
                        stdout := stdout w |}).
  { unfold w1, Wrapper.step, Wrapper.step_ctl.
    rewrite Hex, Hblank, Hparse, Hhandle. simpl. by rewrite app_nil_r. }
  assert (Hw2 : ctl w2 = finally (set_tasks (tasks (ctl w) ++ [Settled])
                                    (add_pending 1 (ctl w)))
                /\ stdout w2 = stdout w ++ [result_envelope id result]).
  { unfold w2. rewrite Hw1. unfold Wrapper.step, Wrapper.step_ctl. simpl.
    rewrite Hex, list_lookup_middle by done. simpl.
    rewrite insert_app_r_alt, Nat.sub_diag by done. simpl. done. }
  destruct Hw2 as [Hctl Hout]. rewrite Hw1. simpl. split_and!; try done.
  - rewrite Hctl. unfold finally, checkExit. simpl.
    by destruct (stdinEnded _ && _).
  - rewrite Hctl. unfold finally, checkExit. simpl.
    destruct (stdinEnded _ && _); simpl; lia.
Qed.

(** *** The answer to a forwarded call *)

Lemma substring_length n : forall text,
  String.length (String.substring 0 n text) <= n.
Proof.
  induction n as [|n IH]; intros [|a text]; simpl; try lia.
  specialize (IH text). lia.
Qed.

Lemma substring_prefix n : forall text,
  String.prefix (String.substring 0 n text) text = true.
Proof.
  induction n as [|n IH]; intros [|a text]; simpl; try done.
  destruct (ascii_dec a a); [apply IH|done].
Qed.

Lemma substring_all n : forall text,
  String.length text <= n -> String.substring 0 n text = text.
Proof.
  induction n as [|n IH]; intros [|a text]; simpl; try done; [lia|].
  intros H. rewrite IH; [done|lia].
Qed.

Lemma substring_full n : forall text,
  n <= String.length text -> String.length (String.substring 0 n text) = n.
Proof.
  induction n as [|n IH]; intros [|a text]; simpl; try done; [lia|].
  intros H. rewrite IH; [done|lia].
Qed.

(** When the remote end answers a forwarded call within the time limit
    with a body of ASCII text, the wrapper writes the parsed body as it
    is (nothing if it is [null]) provided the status is a success.
    Otherwise it writes an error with code -32603 whose [id] is [null],
    whatever the [id] of the request: for a body that is not JSON,
    whatever the status, and for a parsed body under a failure status.
    The error quotes the body if it has no more than 200 characters,
    and its first 200 characters otherwise. *)
Theorem forwarded_call_answer
    (c : control) (i : nat) (request : value) (t : N) (resp : Net.response) :
  exited c = None -> tasks c !! i = Some (Forwarding request) ->
  (t < TIMEOUT_MS)%N ->
  ascii_text (Net.body resp) = true ->
  let excerpt := slice200 (Net.body resp) in
  snd (step_ctl (ESettle i (Net.Completes t resp)) c)
  = match JSON_parse (VStr (Net.body resp)) with
    | Throw _ =>
        [error_envelope VNull (-32603)
           ("Invalid JSON from server: " +:+ excerpt)]
    | Return json =>
        if Net.ok resp then written json
        else [error_envelope VNull (-32603)
                ("Remote MCP error " +:+ pretty (Net.status resp) +:+ ": "
                 +:+ excerpt)]
    end
  /\ String.length excerpt <= 200
  /\ String.prefix excerpt (Net.body resp) = true
  /\ (String.length (Net.body resp) <= 200 -> excerpt = Net.body resp)
  /\ (200 <= String.length (Net.body resp) -> String.length excerpt = 200).
Proof.
  intros Hex Hi Ht _ excerpt. split_and!.
  - unfold Wrapper.step_ctl. rewrite Hex, Hi.
    unfold Wrapper.forward.
    change (Net.f_signal (forward_init TOKEN request)) with (Some TIMEOUT_MS).
    simpl. apply N.ltb_lt in Ht. rewrite Ht. unfold read_response.
    destruct (JSON_parse (VStr (Net.body resp))) as [json|err]; [|done].
    by destruct (Net.ok resp).
  - apply substring_length.
  - apply substring_prefix.
  - apply substring_all.
  - apply substring_full.
Qed.

End WrapperInputProps.

(** Two terminated lines, then a request that lacks its line feed. *)
Lemma on_data_lines_witness :
  let text := Wrapper.text_of_lines [Samples.line_ping; "{oops"]
                Samples.line_ping in
  Wrapper.on_data Samples.JSON_parse Samples.blank "pd_token" text
    (EmptyString, Wrapper.started "pd_token")
  = (Samples.line_ping,
     Wrapper.run Samples.JSON_parse Samples.blank "pd_token"
       (map Wrapper.ELine [Samples.line_ping; "{oops"]) (Wrapper.started "pd_token")).
Proof.
  apply (on_data_lines Samples.JSON_parse Samples.blank "pd_token").
  - repeat constructor.
  - reflexivity.
Defined.

(** A ping with its line feed, which is answered, then a ping
    without. *)
Lemma unterminated_tail_never_processed_witness :
  let feed := Wrapper.feed Samples.JSON_parse Samples.blank "pd_token" in
  let on_end := Wrapper.on_end Samples.JSON_parse Samples.blank "pd_token" in
  let inputs := [Wrapper.IData (Wrapper.terminated Samples.line_ping);
                 Wrapper.IResume 0] in
  snd (feed (inputs ++ [Wrapper.IData Samples.line_ping])
         (EmptyString, Wrapper.started "pd_token"))
  = snd (feed inputs (EmptyString, Wrapper.started "pd_token"))
  /\ snd (on_end (feed (inputs ++ [Wrapper.IData Samples.line_ping])
                    (EmptyString, Wrapper.started "pd_token")))
     = snd (on_end (feed inputs (EmptyString, Wrapper.started "pd_token"))).
Proof.
  intros feed on_end inputs.
  apply (unterminated_tail_never_processed Samples.JSON_parse Samples.blank
           "pd_token" inputs Samples.line_ping (Wrapper.started "pd_token")).
  reflexivity.
Defined.

(** A ping while a tool call is being forwarded. *)
Lemma local_methods_answered_at_once_witness :
  let step := Wrapper.step Samples.JSON_parse_call Samples.blank "pd_token" in
  let w := step (Wrapper.ELine Samples.line_call) (Wrapper.started "pd_token") in
  let w2 := step (Wrapper.EResume 1) (step (Wrapper.ELine Samples.line_ping) w) in
  Wrapper.tasks (Wrapper.ctl w) = [Wrapper.Forwarding Samples.request_call]
  /\ exists result,
       Wrapper.stdout w2 = [Wrapper.result_envelope (VNum 7) result]
       /\ Wrapper.tasks (Wrapper.ctl w2)
          = [Wrapper.Forwarding Samples.request_call; Wrapper.Settled].
Proof.
  intros step w w2. split; [reflexivity|].
  destruct (local_methods_answered_at_once Samples.JSON_parse_call
              Samples.blank "pd_token" w Samples.line_ping
              [("jsonrpc", VStr "2.0"); ("id", VNum 7); ("method", VStr "ping")]
              "ping")
    as (result & _ & _ & Hout & Htasks & _).
  - reflexivity.
  - reflexivity.
  - reflexivity.
  - reflexivity.
  - unfold Wrapper.local_methods. repeat constructor.
  - exists result. split; [exact Hout|exact Htasks].
Defined.

(** A gateway answers a forwarded call with status 502 and a body that
    is not JSON. *)
Lemma forwarded_call_answer_witness :
  let step_ctl := Wrapper.step_ctl Samples.JSON_parse_call Samples.blank
                    "pd_token" in
  let c := fst (step_ctl (Wrapper.ELine Samples.line_call)
                  (Wrapper.ctl (Wrapper.started "pd_token"))) in
  let resp := {| Net.ok := false; Net.status := 502;
                 Net.body := "Bad Gateway" |} in
  snd (step_ctl (Wrapper.ESettle 0 (Net.Completes 40 resp)) c)
  = [Wrapper.error_envelope VNull (-32603)
       "Invalid JSON from server: Bad Gateway"].
Proof.
  intros step_ctl c resp.
  destruct (forwarded_call_answer Samples.JSON_parse_call Samples.blank
              "pd_token" c 0 Samples.request_call 40%N resp)
    as (Hout & _ & _).
  - reflexivity.
  - reflexivity.
  - reflexivity.
  - reflexivity.
  - exact Hout.
Defined.

(** ** The HTTP manager: sessions *)

Section HttpSessionProps.
Import Config Http.

Variable JSON_parse : value -> completion value.
Variable httpServers : list (string * HTTPServerConfig).

Local Abbreviation step := (Http.step JSON_parse httpServers).
Local Abbreviation run := (Http.run JSON_parse httpServers).
Local Abbreviation getClient := (Http.getClient httpServers).

Lemma requests_of_snoc client l e :
  requests_of client (l ++ [e])
  = requests_of client l
    ++ match e with
       | Post c _ _ r => if Nat.eqb c client then [r] else []
       | _ => []
       end.
Proof.
  unfold requests_of. rewrite omap_app. f_equal.
  destruct e as [c u init r|c id]; simpl; [|done]. by destruct (Nat.eqb c client).
Qed.

Lemma http_run_app evs1 evs2 st : run (evs1 ++ evs2) st = run evs2 (run evs1 st).
Proof. unfold Http.run. by rewrite fold_left_app. Qed.

(** Posting a request records no answer and allocates nothing. *)
Lemma sendRequest_start_effect client method params w :
  let w' := fst (sendRequest_start client method params w) in
  length (heap w') = length (heap w) /\ clients w' = clients w
  /\ (forall cj, handshake_recorded cj (io w') -> handshake_recorded cj (io w)).
Proof.
  destruct (heap w !! client) as [c|] eqn:Hc.
  - destruct (sendRequest_start_spec client method params w c Hc)
      as (w1 & r & c' & -> & _ & _ & _ & Hcl & Hheap & _ & _ & Hio).
    simpl. rewrite Hheap, Hio, length_insert. split_and!; try done.
    intros cj [id [H|H]%elem_of_app]; [by exists id|].
    by apply list_elem_of_singleton in H.
  - by rewrite sendRequest_start_none.
Qed.

Lemma initialize_start_effect k client w :
  client < length (heap w) ->
  let w' := fst (initialize_start k client w) in
  length (heap w') = length (heap w) /\ clients w' = clients w
  /\ task_client (snd (initialize_start k client w)) = Some client
  /\ (forall cj, handshake_recorded cj (io w') -> handshake_recorded cj (io w)).
Proof.
  intros [c Hc]%lookup_lt_is_Some. unfold initialize_start. rewrite Hc.
  destruct (initialized c); [done|].
  pose proof (sendRequest_start_effect client "initialize"
                (initialize_params c) w) as H.
  destruct (sendRequest_start client "initialize" _ w) as [w1 id].
  simpl in *. tauto.
Qed.

Lemma after_initialize_effect k client w :
  let w' := fst (after_initialize k client w) in
  length (heap w') = length (heap w) /\ clients w' = clients w
  /\ (forall c, task_client (snd (after_initialize k client w)) = Some c ->
                 c = client)
  /\ (forall cj, handshake_recorded cj (io w') -> handshake_recorded cj (io w)).
Proof.
  destruct k as [| |toolName args]; simpl.
  - split_and!; try done.
  - pose proof (sendRequest_start_effect client "tools/list" VUndef w) as H.
    destruct (sendRequest_start client "tools/list" VUndef w) as [w1 id].
    simpl in *. split_and!; try tauto. by intros c [= <-].
  - pose proof (sendRequest_start_effect client "tools/call"
                  (VObj [("name", VStr toolName); ("arguments", args)]) w) as H.
    destruct (sendRequest_start client "tools/call" _ w) as [w1 id].
    simpl in *. split_and!; try tauto. by intros c [= <-].
Qed.

Lemma step_sessions_ok e st :
  clients_valid (fst st) -> sessions_ok st -> sessions_ok (step e st).
Proof.
  destruct st as [w tasks]. intros Hvalid [Hrec Htask].
  assert (Hflag : forall cj, handshake_recorded cj (io w) ->
                             flag_set cj (fst (step e (w, tasks)))).
  { intros cj H. apply (step_flag JSON_parse httpServers e (w, tasks)).
    by apply Hrec. }
  assert (Hgrow : forall l0 t0,
            (forall i t client, tasks !! i = Some t ->
                                task_client t = Some client -> client < l0) ->
            (forall client, task_client t0 = Some client -> client < l0) ->
            forall i t client, (tasks ++ [t0]) !! i = Some t ->
                               task_client t = Some client -> client < l0).
  { intros l0 t0 Hold Hnew i t client [[_ H]|[_ <-]]%lookup_snoc_Some Hc;
      [by eapply Hold|by apply Hnew]. }
  assert (Hput : forall l0 j t0,
            (forall i t client, tasks !! i = Some t ->
                                task_client t = Some client -> client < l0) ->
            (forall client, task_client t0 = Some client -> client < l0) ->
            forall i t client, <[j := t0]> tasks !! i = Some t ->
                               task_client t = Some client -> client < l0).
  { intros l0 j t0 Hold Hnew i t client
      [[_ [<- _]]|[_ H]]%list_lookup_insert_Some Hc;
      [by apply Hnew|by eapply Hold]. }
  simpl in *. destruct e as [k s|i r|i|s|]; simpl in *.
  - unfold Http.getClient in *.
    destruct (clients w !! s) as [c0|] eqn:Hs.
    + pose proof (initialize_start_effect k c0 w (Hvalid s c0 Hs))
        as (Hlen & _ & Htc & Hio).
      destruct (initialize_start k c0 w) as [w2 t]. simpl in *.
      split; simpl; [by intros cj H; apply Hflag, Hio|].
      apply Hgrow.
      * intros i t' client H Hc. rewrite Hlen. by eapply Htask.
      * intros client Hc. rewrite Hlen.
        assert (client = c0) as -> by congruence. by eapply Hvalid.
    + assert (Hnew : forall config,
                let w1 := {| clients := <[s := length (heap w)]> (clients w);
                             heap := heap w ++ [new_client s config];
                             io := io w |} in
                (forall cj, handshake_recorded cj (io w) ->
                            flag_set cj (fst (initialize_start k (length (heap w)) w1))) ->
                sessions_ok (fst (initialize_start k (length (heap w)) w1),
                             tasks ++ [snd (initialize_start k (length (heap w)) w1)])).
      { intros config w1 Hf.
        assert (Hlt : length (heap w) < length (heap w1))
          by (simpl; rewrite length_app; simpl; lia).
        pose proof (initialize_start_effect k (length (heap w)) w1 Hlt)
          as (Hlen & _ & Htc & Hio).
        split; simpl; [by intros cj H; apply Hf, Hio|].
        apply Hgrow.
        - intros i t' client H Hc. rewrite Hlen.
          pose proof (Htask i t' client H Hc). lia.
        - intros client Hc. rewrite Hlen.
          assert (client = length (heap w)) as -> by congruence. done. }
      destruct (lookup httpServers s) as [cfg| |] eqn:Hcfg.
      * specialize (Hnew (Own cfg)). simpl in Hnew.
        destruct (initialize_start k (length (heap w)) _) as [w2 t].
        by apply Hnew.
      * specialize (Hnew Inherited). simpl in Hnew.
        destruct (initialize_start k (length (heap w)) _) as [w2 t].
        by apply Hnew.
      * split; simpl; [done|]. by apply Hgrow.
  - destruct (tasks !! i) as [[k client id|k client|k client id|res]|] eqn:Hi;
      try done.
    + destruct (sendRequest_finish JSON_parse r) as [result|err].
      * pose proof (Htask i _ client Hi eq_refl) as Hlt.
        split; simpl.
        -- intros cj [id' [H|H]%elem_of_app]; [by apply Hflag; exists id'|].
           apply list_elem_of_singleton in H. injection H as -> ->.
           apply lookup_lt_is_Some in Hlt as [c Hc].
           exists (set_handshake result c). split; [|done].
           simpl. by rewrite list_lookup_alter_eq, Hc.
        -- rewrite length_alter. apply Hput; [done|].
           by intros c [= <-].
      * split; simpl; [done|]. by apply Hput.
    + split; simpl; [done|]. apply Hput; [done|]. by destruct k.
  - destruct (tasks !! i) as [[k client id|k client|k client id|res]|] eqn:Hi;
      try done.
    pose proof (after_initialize_effect k client w) as (Hlen & _ & Htc & Hio).
    destruct (after_initialize k client w) as [w' t]. simpl in *.
    split; simpl; [by intros cj H; apply Hflag, Hio|].
    rewrite Hlen. apply Hput; [done|].
    intros c Hc. rewrite (Htc c Hc). by eapply Htask.
  - done.
  - done.
Qed.

Lemma run_sessions_ok evs : sessions_ok (run evs (Http.fresh, [])).
Proof.
  induction evs as [|e evs IH] using rev_ind.
  - split; simpl.
    + intros client [id H]. by apply elem_of_nil in H.
    + intros i t client H. by destruct i.
  - rewrite http_run_snoc. apply step_sessions_ok; [|done].
    apply (run_invariant JSON_parse httpServers evs).
Qed.

(** In every state the HTTP manager can reach, [isConnected] answers
    true for a name exactly when the client object cached for it has
    recorded the answer to an [initialize] request. *)
Theorem isConnected_iff_handshake (evs : list event) (s : string) :
  let w := fst (run evs (Http.fresh, [])) in
  isConnected s w = true
  <-> exists client,
        clients w !! s = Some client /\ handshake_recorded client (io w).
Proof.
  intros w.
  destruct (run_invariant JSON_parse httpServers evs)
    as [(_ & _ & Hflag & _) _].
  destruct (run_sessions_ok evs) as [Hrec _].
  fold w in Hflag, Hrec. unfold isConnected. split.
  - destruct (clients w !! s) as [client|]; [|done].
    destruct (heap w !! client) as [c|] eqn:Hc; [|done].
    intros Hinit. exists client. split; [done|].
    destruct (Hflag client c Hc Hinit)
      as (i1 & i2 & u & init & r & _ & _ & _ & H2).
    exists (req_id r). by eapply list_elem_of_lookup_2.
  - intros (client & -> & H). by destruct (Hrec client H) as (c & -> & ?).
Qed.

(** *** A session that is dropped *)

(** After [disconnect], the next call for the server starts a new
    session: a new client object whose counter starts over, so that it
    posts [initialize] with id 1; the client objects that existed are
    left as they were, and [isConnected] answers false. *)
Theorem http_reconnect_fresh_session
    (st : World * list task) (k : call_kind) (s : string) :
  lookup httpServers s <> Absent ->
  let w := fst st in
  let client := length (heap w) in
  let c := new_client s (lookup httpServers s) in
  let r := {| req_id := 1; req_method := "initialize";
              req_params := initialize_params c |} in
  let st' := step (ECall k s) (step (EDisconnect s) st) in
  isConnected s (fst (step (EDisconnect s) st)) = false
  /\ clients (fst st') !! s = Some client
  /\ (exists c', heap (fst st') = heap w ++ [c']
                 /\ requestId c' = 1%Z /\ initialized c' = false)
  /\ io (fst st') = io w ++ [Post client (config_url c) (sendRequest_init c r) r]
  /\ snd st' = snd st ++ [InInitialize k client 1]
  /\ isConnected s (fst st') = false.
Proof.
  destruct st as [w0 tasks]. intros Hknown. cbv zeta.
  change (fst (w0, tasks)) with w0. change (snd (w0, tasks)) with tasks.
  set (client := length (heap w0)).
  set (c := new_client s (lookup httpServers s)).
  set (r := {| req_id := 1; req_method := "initialize";
               req_params := initialize_params c |}).
  set (st' := step (ECall k s) (step (EDisconnect s) (w0, tasks))).
  assert (Hdel : isConnected s (fst (step (EDisconnect s) (w0, tasks))) = false).
  { unfold isConnected. simpl. by rewrite lookup_delete_eq. }
  assert (Hst' : st' = ({| clients := <[s := client]> (delete s (clients w0));
                           heap := heap w0
                                   ++ [{| name := s; config := lookup httpServers s;
                                          requestId := 1; initialized := false;
                                          serverInfo := VNull |}];
                           io := io w0
                                 ++ [Post client (config_url c)
                                       (sendRequest_init c r) r] |},
                        tasks ++ [InInitialize k client 1])).
  { assert (Hgo : forall config,
              initialize_start k (length (heap w0))
                {| clients := <[s := length (heap w0)]> (delete s (clients w0));
                   heap := heap w0 ++ [new_client s config]; io := io w0 |}
              = ({| clients := <[s := length (heap w0)]> (delete s (clients w0));
                    heap := heap w0
                            ++ [{| name := s; config := config;
                                   requestId := 1; initialized := false;
                                   serverInfo := VNull |}];
                    io := io w0
                          ++ [Post (length (heap w0))
                                (config_url (new_client s config))
                                (sendRequest_init (new_client s config)
                                   {| req_id := 1; req_method := "initialize";
                                      req_params :=
                                        initialize_params (new_client s config) |})
                                {| req_id := 1; req_method := "initialize";
                                   req_params :=
                                     initialize_params (new_client s config) |}] |},
                  InInitialize k (length (heap w0)) 1)).
    { intros config. unfold initialize_start, sendRequest_start.
      simpl. rewrite list_lookup_middle by done. simpl.
      rewrite insert_app_r_alt by done.
      by rewrite Nat.sub_diag. }
    unfold st', c, r, c, client. simpl. unfold Http.getClient. simpl.
    rewrite lookup_delete_eq.
    destruct (lookup httpServers s) as [cfg| |] eqn:Hcfg; [| |done].
    - by rewrite (Hgo (Own cfg)).
    - by rewrite (Hgo Inherited). }
  rewrite Hst'. simpl. split_and!; try done.
  - by rewrite lookup_insert_eq.
  - by eexists.
  - unfold isConnected. simpl. rewrite lookup_insert_eq.
    by rewrite list_lookup_middle.
Qed.

(** *** Calls before the handshake has completed *)

(** [n] calls made for an HTTP server that has no session yet, before
    any answer arrives, post [n] [initialize] requests on the one client
    object that is created, numbered [1] to [n]: unlike the stdio
    manager, the HTTP client does not share a handshake in progress. *)
Theorem http_initialize_not_shared
    (evs : list event) (s : string) (ks : list call_kind) :
  let st := run evs (Http.fresh, []) in
  clients (fst st) !! s = None -> lookup httpServers s <> Absent ->
  let client := length (heap (fst st)) in
  let st' := run (map (fun k => ECall k s) ks) st in
  ids_of client (io (fst st')) = map nth_id (seq 0 (length ks))
  /\ Forall (fun r => req_method r = "initialize")
       (requests_of client (io (fst st')))
  /\ length (snd st') = length (snd st) + length ks.
Proof.
  intros st Hs Hknown client st'.
  destruct (run_invariant JSON_parse httpServers evs)
    as [(Hcount & _ & _ & _) _]. fold st in Hcount.
  assert (Hnone : requests_of client (io (fst st)) = []).
  { destruct (Hcount client) as [_ H].
    unfold client in H. rewrite lookup_ge_None_2 in H by done.
    unfold ids_of in H. by apply map_eq_nil in H. }
  assert (Hmain : length (requests_of client (io (fst st'))) = length ks
                  /\ Forall (fun r => req_method r = "initialize")
                       (requests_of client (io (fst st')))
                  /\ length (snd st') = length (snd st) + length ks
                  /\ (ks = [] /\ fst st' = fst st
                      \/ clients (fst st') !! s = Some client
                         /\ exists c, heap (fst st') !! client = Some c
                                      /\ initialized c = false)).
  { unfold st'. clear st'. induction ks as [|k ks IH] using rev_ind.
    - simpl. rewrite Hnone. split_and!; try done; try lia. by left.
    - rewrite map_app, http_run_app. simpl.
      destruct IH as (Hlen & Hall & Htasks & Hstate).
      destruct (run (map (fun k => ECall k s) ks) st) as [w1 tasks1].
      simpl in *. rewrite length_app. simpl.
      assert (Hpost : forall w2 c,
                clients w2 !! s = Some client ->
                heap w2 !! client = Some c -> initialized c = false ->
                requests_of client (io w2) = requests_of client (io w1) ->
                let '(w3, t) := initialize_start k client w2 in
                length (requests_of client (io w3)) = length ks + 1
                /\ Forall (fun r => req_method r = "initialize")
                     (requests_of client (io w3))
                /\ length (tasks1 ++ [t]) = length (snd st) + (length ks + 1)
                /\ (ks ++ [k] = [] /\ w3 = fst st
                    \/ clients w3 !! s = Some client
                       /\ exists c, heap w3 !! client = Some c
                                    /\ initialized c = false)).
      { intros w2 c Hcl Hc Hinit Hreq. unfold initialize_start.
        rewrite Hc, Hinit.
        destruct (sendRequest_start_spec client "initialize"
                    (initialize_params c) w2 c Hc)
          as (w3 & r & c' & -> & _ & Hm & _ & Hcl3 & Hheap & _ & Hinit' & Hio).
        rewrite Hio, requests_of_snoc, Nat.eqb_refl, length_app, Hreq, Hlen.
        rewrite length_app, Htasks. simpl. split_and!; try done.
        - apply Forall_app. split; [done|]. by repeat constructor.
        - lia.
        - right. split; [congruence|]. exists c'. split; [|congruence].
          rewrite Hheap. apply list_lookup_insert_eq. by eapply lookup_lt_Some. }
      unfold Http.getClient.
      destruct Hstate as [[-> ->]|[Hcl (c & Hc & Hinit)]].
      + rewrite Hs.
        assert (Hnew : forall config,
                  let '(w3, t) :=
                    initialize_start k client
                      {| clients := <[s := client]> (clients (fst st));
                         heap := heap (fst st) ++ [new_client s config];
                         io := io (fst st) |} in
                  length (requests_of client (io w3)) = 0 + 1
                  /\ Forall (fun r => req_method r = "initialize")
                       (requests_of client (io w3))
                  /\ length (tasks1 ++ [t]) = length (snd st) + (0 + 1)
                  /\ ([k] = [] /\ w3 = fst st
                      \/ clients w3 !! s = Some client
                         /\ exists c, heap w3 !! client = Some c
                                      /\ initialized c = false)).
        { intros config.
          apply (Hpost _ (new_client s config)); simpl; try done.
          - by rewrite lookup_insert_eq.
          - by rewrite list_lookup_middle. }
        fold client.
        destruct (lookup httpServers s) as [cfg| |]; [| |done].
        * specialize (Hnew (Own cfg)).
          by destruct (initialize_start k client _) as [w3 t].
        * specialize (Hnew Inherited).
          by destruct (initialize_start k client _) as [w3 t].
      + rewrite Hcl. specialize (Hpost w1 c Hcl Hc Hinit eq_refl).
        by destruct (initialize_start k client w1) as [w3 t]. }
  destruct Hmain as (Hlen & Hall & Htasks & _). split_and!; try done.
  destruct (run_invariant JSON_parse httpServers
              (evs ++ map (fun k => ECall k s) ks))
    as [(Hcount' & _ & _ & _) _].
  rewrite http_run_app in Hcount'. fold st st' in Hcount'.
  destruct (Hcount' client) as [Hids _].
  apply list_eq. intros i. rewrite list_lookup_fmap.
  destruct (ids_of client (io (fst st')) !! i) as [id|] eqn:Hi.
  - rewrite (Hids i id Hi).
    pose proof (lookup_lt_Some _ _ _ Hi) as Hlt.
    unfold ids_of in Hlt. rewrite length_map, Hlen in Hlt.
    by rewrite lookup_seq_lt.
  - apply lookup_ge_None_1 in Hi.
    unfold ids_of in Hi. rewrite length_map, Hlen in Hi.
    by rewrite lookup_seq_ge.
Qed.

(** *** Answers are not matched by id *)

(** Which call an answer settles is decided by the [fetch] it comes from
    alone: [sendRequest] reads the [error] and [result] members of the
    body and nothing else, so two answers that agree on these are taken
    the same way, whatever [id] they carry. *)
Theorem sendRequest_ignores_response_id
    (resp1 resp2 : Net.response) (o1 o2 : list (string * value)) :
  Net.ok resp1 = true -> Net.ok resp2 = true ->
  JSON_parse (VStr (Net.body resp1)) = Return (VObj o1) ->
  JSON_parse (VStr (Net.body resp2)) = Return (VObj o2) ->
  assoc "error" o1 = assoc "error" o2 ->
  assoc "result" o1 = assoc "result" o2 ->
  sendRequest_finish JSON_parse (Responds resp1)
  = sendRequest_finish JSON_parse (Responds resp2)
  /\ forall k, after_request JSON_parse k (Responds resp1)
               = after_request JSON_parse k (Responds resp2).
Proof.
  intros Hok1 Hok2 Hp1 Hp2 Herr Hres.
  assert (H : sendRequest_finish JSON_parse (Responds resp1)
              = sendRequest_finish JSON_parse (Responds resp2)).
  { unfold sendRequest_finish. rewrite Hok1, Hok2, Hp1, Hp2. simpl.
    by rewrite Herr, Hres. }
  split; [done|]. intros k. unfold after_request. by rewrite H.
Qed.

End HttpSessionProps.

(** ** The stdio manager: the pool of connections *)

Section StdioPoolProps.
Import Config Stdio.

Variable stdioServers : list (string * StdioServerConfig).
Variable JSON_parse : value -> completion value.

Local Abbreviation step := (Stdio.step stdioServers JSON_parse).
Local Abbreviation run := (Stdio.run stdioServers JSON_parse).
Local Abbreviation undisturbed := (Stdio.undisturbed).
Local Abbreviation connected_once := (Stdio.connected_once).

Lemma connects_snoc_other s l e :
  (forall s' c t ps, e = Connect s' c t ps -> s' <> s) ->
  connects s (l ++ [e]) = connects s l.
Proof.
  intros He. rewrite connects_app. unfold connects at 2. simpl.
  destruct e as [s' c t ps| | | |]; simpl; try lia.
  destruct (String.eqb_spec s' s) as [->|]; [by destruct (He s c t ps)|simpl; lia].
Qed.

(** What a step does to the cache entry of a server and to the number
    of its connects, as long as nothing disconnects it. *)
Lemma step_keeps_cached s e st c :
  e <> EDisconnect s ->
  clients (fst st) !! s = Some c ->
  is_Some (clients (fst (step e st)) !! s)
  /\ connects s (io (fst (step e st))) = connects s (io (fst st)).
Proof.
  destruct st as [w tasks]. simpl. intros Hdis Hc.
  assert (Hsame : is_Some (clients w !! s)
                  /\ connects s (io w) = connects s (io w))
    by (by rewrite Hc).
  destruct e as [k s'|q r|i|i r|s']; simpl.
  - unfold Stdio.getClient.
    destruct (clients w !! s') as [c'|] eqn:Hs'; [done|].
    destruct (initializing w !! s') as [p'|] eqn:Hi'; [done|].
    assert (Hne : s' <> s) by congruence.
    unfold Stdio.createClient.
    destruct (lookup stdioServers s') as [cfg| |]; simpl; rewrite Hc;
      (split; [done|]); try done;
      apply connects_snoc_other; by intros ? ? ? ? [= <- _ _ _].
  - unfold connect_done.
    destruct (promises w !! q) as [[s0 c0 t0|c0|e0]|]; try done.
    destruct r as [e0|]; simpl; [done|].
    split; [|by apply connects_snoc_other].
    apply lookup_insert_is_Some. destruct (decide (s0 = s)); [by left|by right].
  - destruct (tasks !! i) as [[k f|k c0|res]|]; try done.
    destruct (getClient_resume f w) as [[w1 r]|] eqn:Hr; [|done].
    pose proof (after_getClient_frame k r w1) as Hframe.
    destruct (after_getClient k r w1) as [w2 t].
    destruct Hframe as (Hc2 & _ & _ & Hio2 & _). simpl.
    rewrite Hc2, Hio2.
    assert (clients w1 = clients w /\ io w1 = io w) as [-> ->]; [|done].
    destruct f as [c0|p0|s0 p0]; simpl in Hr.
    + by injection Hr as <- <-.
    + destruct (promises w !! p0) as [[? ? ?|c0|e0]|]; try done;
        by injection Hr as <- <-.
    + destruct (promises w !! p0) as [[? ? ?|c0|e0]|]; try done;
        by injection Hr as <- <-.
  - by destruct (tasks !! i) as [[k f|k c0|res]|].
  - assert (Hne : s' <> s) by congruence. unfold disconnect.
    destruct (clients w !! s') as [c'|]; simpl; [|done].
    rewrite lookup_delete_ne by done. rewrite Hc.
    split; [done|]. by apply connects_snoc_other.
Qed.

Lemma step_connected_once s e st :
  creation_registered st -> undisturbed s e ->
  connected_once s (fst st) -> connected_once s (fst (step e st)).
Proof.
  intros Hreg [Hdis Hfail] [(Hn & Hc & Hp)|(Hn & [[c Hc]|[p Hfl]])].
  - destruct st as [w tasks]. simpl in *.
    assert (Hidle : connected_once s w) by (left; done).
    destruct e as [k s'|q r|i|i r|s']; simpl.
    + unfold Stdio.getClient.
      destruct (clients w !! s') as [c'|] eqn:Hs'; [done|].
      destruct (initializing w !! s') as [p'|] eqn:Hi'; [done|].
      unfold Stdio.createClient.
      assert (Hrest : forall st_new,
                (forall c t, st_new <> Connecting s c t) ->
                forall p c t, (promises w ++ [st_new]) !! p
                              <> Some (Connecting s c t)).
      { intros st_new Hst p c t [[_ H]|[_ H]]%lookup_snoc_Some;
          [by destruct (Hp p c t)|by destruct (Hst c t)]. }
      destruct (decide (s' = s)) as [->|Hne].
      * destruct (lookup stdioServers s) as [cfg| |]; simpl.
        -- right. split.
           ++ simpl. rewrite connects_app, Hn. unfold connects. simpl.
              by rewrite String.eqb_refl.
           ++ right. exists (length (promises w)). unfold in_flight. simpl.
              rewrite lookup_insert_eq, list_lookup_middle by done. eauto.
        -- right. split.
           ++ simpl. rewrite connects_app, Hn. unfold connects. simpl.
              by rewrite String.eqb_refl.
           ++ right. exists (length (promises w)). unfold in_flight. simpl.
              rewrite lookup_insert_eq, list_lookup_middle by done. eauto.
        -- left. simpl. split_and!; try done. by apply Hrest.
      * destruct (lookup stdioServers s') as [cfg| |]; simpl; left; simpl;
          split_and!; try done;
          try (rewrite connects_snoc_other; [done|];
               by intros ? ? ? ? [= <- _ _ _]);
          apply Hrest; by intros c t [= ? _ _].
    + unfold connect_done.
      destruct (promises w !! q) as [[s0 c0 t0|c0|e0]|] eqn:Hq; try done.
      assert (Hne : s0 <> s) by (intros ->; by destruct (Hp q c0 t0)).
      assert (Hrest : forall st_new,
                (forall c t, st_new <> Connecting s c t) ->
                forall p c t, <[q := st_new]> (promises w) !! p
                              <> Some (Connecting s c t)).
      { intros st_new Hst p c t [[_ [H _]]|[_ H]]%list_lookup_insert_Some;
          [by destruct (Hst c t)|by destruct (Hp p c t)]. }
      destruct r as [e0|]; left; simpl; split_and!; try done;
        try (by apply Hrest).
      * by rewrite connects_snoc_other.
      * by rewrite lookup_insert_ne.
    + destruct (tasks !! i) as [[k f|k c0|res]|]; try done.
      destruct (getClient_resume f w) as [[w1 r]|] eqn:Hr; [|done].
      pose proof (after_getClient_frame k r w1) as Hframe.
      destruct (after_getClient k r w1) as [w2 t].
      destruct Hframe as (Hc2 & _ & Hp2 & Hio2 & _). simpl.
      assert (clients w1 = clients w /\ io w1 = io w
              /\ promises w1 = promises w) as (Hc1 & Hio1 & Hp1).
      { destruct f as [c0|p0|s0 p0]; simpl in Hr.
        - by injection Hr as <- <-.
        - destruct (promises w !! p0) as [[? ? ?|c0|e0]|]; try done;
            by injection Hr as <- <-.
        - destruct (promises w !! p0) as [[? ? ?|c0|e0]|]; try done;
            by injection Hr as <- <-. }
      left. rewrite Hc2, Hp2, Hio2, Hc1, Hio1, Hp1. done.
    + by destruct (tasks !! i) as [[k f|k c0|res]|].
    + unfold disconnect.
      destruct (clients w !! s') as [c'|] eqn:Hs'; [|done].
      left. simpl. split_and!; try done.
      * by rewrite connects_snoc_other.
      * apply lookup_delete_None. by right.
  - destruct (step_keeps_cached s e st c Hdis Hc) as [Hc' Hn'].
    right. split; [congruence|by left].
  - assert (Hcases : (exists r, e = EConnectDone p r)
                     \/ forall r, e <> EConnectDone p r).
    { destruct e as [k s'|q r|i|i r|s']; try (right; by intros ?).
      destruct (decide (q = p)) as [->|Hq]; [left; by exists r|].
      right. by intros r' [= ? _]. }
    destruct Hcases as [[r ->]|Hne].
    + destruct r as [err|]; [by destruct (Hfail p err)|].
      destruct st as [w tasks]. destruct Hfl as (Hc & Hi & c & t & Hp).
      simpl in *. unfold connect_done. rewrite Hp. right. simpl. split.
      * by rewrite connects_snoc_other.
      * left. by rewrite lookup_insert_eq.
    + destruct (step_in_flight stdioServers JSON_parse s p e st Hreg Hfl Hne)
        as [Hfl' Hn'].
      right. split; [congruence|]. right. by exists p.
Qed.

(** However many calls are made for a stdio server and however they
    interleave with the other events, [connect] is called for it at most
    once, as long as the server is not disconnected and no [connect]
    fails: the one client serves every call. *)
Theorem one_connect_per_server (evs : list event) (s : string) :
  Forall (undisturbed s) evs ->
  connects s (io (fst (run evs (Stdio.fresh, [])))) <= 1.
Proof.
  intros Hevs.
  assert (H : connected_once s (fst (run evs (Stdio.fresh, [])))).
  { induction evs as [|e evs IH] using rev_ind.
    - left. simpl. by split_and!.
    - apply Forall_app in Hevs as [Hevs He]. inversion He; subst.
      rewrite (stdio_run_snoc stdioServers JSON_parse).
      apply step_connected_once; [|done|by apply IH].
      apply (run_registered stdioServers JSON_parse), fresh_registered. }
  destruct H as [(-> & _)|(-> & _)]; lia.
Qed.

(** *** A server that is disconnected and used again *)

(** After [disconnect] of a connected server, the next call for it
    starts a new creation: [close] has been called on the old client,
    and [connect] is called on a new client and a new transport, built
    from the descriptor as the first were; until it completes the
    server is not connected and further callers join that creation. *)
Theorem stdio_reconnect_after_disconnect
    (st : World * list task) (k : call_kind) (s : string) (c : nat) :
  clients (fst st) !! s = Some c ->
  initializing (fst st) !! s = None ->
  lookup stdioServers s <> Absent ->
  let w := fst st in
  let st' := step (ECall k s) (step (EDisconnect s) st) in
  io (fst st')
  = io w ++ [Close c;
             Connect s (S (objects w)) (objects w)
               (params_of (lookup stdioServers s))]
  /\ isConnected s (fst st') = false
  /\ snd st' = snd st ++ [InGetClient k (Owner s (length (promises w)))]
  /\ in_flight s (length (promises w)) (fst st').
Proof.
  destruct st as [w0 tasks]. simpl. intros Hc Hi Hknown.
  unfold disconnect. rewrite Hc. unfold Stdio.getClient. simpl.
  rewrite lookup_delete_eq, Hi. unfold Stdio.createClient, isConnected,
    in_flight. simpl.
  destruct (lookup stdioServers s) as [cfg| |]; [| |done]; simpl;
    rewrite lookup_delete_eq, lookup_insert_eq, list_lookup_middle by done;
    rewrite <- app_assoc; split_and!; eauto.
Qed.

(** *** [disconnectAll] *)

Lemma disconnectAll_begin_spec entries : forall w,
  let w1 := disconnectAll_begin entries w in
  clients w1 = clients w /\ transports w1 = transports w
  /\ initializing w1 = initializing w /\ promises w1 = promises w
  /\ objects w1 = objects w
  /\ io w1 = io w ++ map (fun entry => Close (snd entry)) entries.
Proof.
  induction entries as [|entry entries IH]; intros w; simpl.
  - by rewrite app_nil_r.
  - destruct (IH (emit (Close (snd entry)) w)) as (-> & -> & -> & -> & -> & ->).
    simpl. by rewrite <- app_assoc.
Qed.

(** A creation that completes while [disconnectAll] waits for the
    closes is dropped from the cache by the [clear] that follows without
    [close] having been called on its client: [disconnectAll] itself
    does nothing but the closes of its entries, the handshake of the new
    client is complete, its callers still receive it, and the cache no
    longer holds it. *)
Theorem disconnectAll_drops_late_client
    (w : World) (entries : list (string * nat)) (s : string) (p : nat)
    (client transport : nat) :
  entries ≡ₚ map_to_list (clients w) ->
  promises w !! p = Some (Connecting s client transport) ->
  let w3 := disconnectAll_end
              (connect_done p None (disconnectAll_begin entries w)) in
  io w3 = io w ++ map (fun entry => Close (snd entry)) entries
               ++ [Connected client]
  /\ isConnected s w3 = false
  /\ getClient_resume (Joined p) w3 = Some (w3, Return client)
  /\ ((forall name, clients w !! name <> Some client) ->
      Close client ∉ map (fun entry => Close (snd entry)) entries).
Proof.
  intros Hperm Hp w3.
  destruct (disconnectAll_begin_spec entries w)
    as (Hcl & Htr & Hin & Hpr & Hob & Hio).
  assert (Hw3 : w3 = {| clients := ∅; transports := ∅;
                        initializing := initializing w;
                        promises := <[p := Fulfilled client]> (promises w);
                        objects := objects w;
                        io := (io w ++ map (fun entry => Close (snd entry)) entries)
                              ++ [Connected client] |}).
  { unfold w3, connect_done. rewrite Hpr, Hp. unfold disconnectAll_end. simpl.
    by rewrite Hin, Hob, Hio. }
  rewrite Hw3. simpl. split_and!.
  - by rewrite <- app_assoc.
  - done.
  - rewrite list_lookup_insert_eq by (by eapply lookup_lt_Some). done.
  - intros Hnot ([name c] & [= <-] & Hin')%list_elem_of_fmap.
    rewrite Hperm in Hin'. apply elem_of_map_to_list in Hin'.
    by destruct (Hnot name).
Qed.

End StdioPoolProps.

(** ** The registry *)

Section RegistryProps.
Import Config.

Variable process_env : string -> option string.

Local Abbreviation stdioServers := (Config.stdioServers process_env).
Local Abbreviation httpServers := (Config.httpServers process_env).
Local Abbreviation getAllServerNames := (Config.getAllServerNames process_env).
Local Abbreviation getServerConfig := (Config.getServerConfig process_env).
Local Abbreviation isHTTPServer := (Config.isHTTPServer process_env).

Lemma assoc_keys {A : Type} (registry : list (string * A)) (name : string) :
  is_Some (assoc name registry) <-> name ∈ keys registry.
Proof.
  unfold keys. induction registry as [|[k a] registry IH]; simpl.
  - split; [by intros [? ?]|by intros ?%elem_of_nil].
  - rewrite elem_of_cons. destruct (String.eqb_spec name k) as [->|Hne].
    + split; [by left|by eexists].
    + rewrite IH. split; [by right|by intros [?|?]].
Qed.

Lemma lookup_absent {A : Type} (registry : list (string * A)) (name : string) :
  name ∉ keys registry -> name ∉ Object_prototype ->
  lookup registry name = Absent.
Proof.
  intros Hkey Hproto. unfold lookup.
  destruct (assoc name registry) as [a|] eqn:Ha.
  - destruct Hkey. apply assoc_keys. by rewrite Ha.
  - by rewrite bool_decide_eq_false_2.
Qed.

Lemma stdio_keys :
  keys stdioServers
  = ["memory"; "seq_thinking"; "filesystem"; "supabase"; "upstash"; "github";
     "git"; "polydev"; "context7"; "deepwiki"; "perplexity"; "morpho";
     "resend"].
Proof. reflexivity. Qed.

Lemma http_keys : keys httpServers = ["exa"; "vercel"; "stripe"].
Proof. reflexivity. Qed.

(** A configured name is the key of one registry only and is no member
    of [Object.prototype]. *)
Lemma configured_names_apart name :
  name ∈ getAllServerNames ->
  (name ∉ Object_prototype)
  /\ (name ∈ keys stdioServers -> name ∉ keys httpServers).
Proof.
  unfold Config.getAllServerNames. rewrite stdio_keys, http_keys.
  intros Hin. simpl in Hin.
  repeat (apply elem_of_cons in Hin as [->|Hin];
          [split; [apply (bool_decide_eq_false_1 _); reflexivity
                  |intros H;
                   first [apply (bool_decide_eq_false_1 _); reflexivity
                         |exfalso; revert H;
                          apply (bool_decide_eq_false_1 _); reflexivity]]|]).
  by apply elem_of_nil in Hin.
Qed.

(** The three lookups of the registry agree, whatever the environment:
    no name is configured twice; [getServerConfig] yields a descriptor
    exactly for the names [getAllServerNames] lists, and [null] exactly
    for the names that are neither listed nor members of
    [Object.prototype]; [isHTTPServer] holds of the keys of
    [httpServers] and of the members of [Object.prototype], and of no
    key of [stdioServers]. *)
Theorem registry_lookups_agree (name : string) :
  NoDup getAllServerNames
  /\ (name ∈ getAllServerNames <-> exists cfg, getServerConfig name = Own cfg)
  /\ (getServerConfig name = Absent
      <-> (name ∉ getAllServerNames) /\ (name ∉ Object_prototype))
  /\ (isHTTPServer name = true
      <-> name ∈ keys httpServers \/ name ∈ Object_prototype)
  /\ (name ∈ keys stdioServers -> isHTTPServer name = false).
Proof.
  assert (Hall : name ∈ getAllServerNames
                 <-> is_Some (assoc name stdioServers)
                     \/ is_Some (assoc name httpServers)).
  { unfold Config.getAllServerNames. by rewrite elem_of_app, !assoc_keys. }
  assert (Hhttp : isHTTPServer name = true
                  <-> name ∈ keys httpServers \/ name ∈ Object_prototype).
  { unfold Config.isHTTPServer, lookup. rewrite <- assoc_keys.
    destruct (assoc name httpServers) as [cfg|];
      [split; [by left; eexists|done]|].
    destruct (bool_decide_reflect (name ∈ Object_prototype)).
    - split; [by right|done].
    - split; [done|]. by intros [[? ?]|?]. }
  split_and!.
  - unfold Config.getAllServerNames. rewrite stdio_keys, http_keys.
    apply (bool_decide_unpack _). reflexivity.
  - rewrite Hall. unfold Config.getServerConfig, lookup.
    destruct (assoc name stdioServers) as [c1|]; [split; [by eexists|by left; eexists]|].
    destruct (assoc name httpServers) as [c2|].
    + destruct (bool_decide (name ∈ Object_prototype)) eqn:Hproto.
      * assert (Hin : name ∈ getAllServerNames)
          by (apply Hall; right; by eexists).
        apply configured_names_apart in Hin as [Hnot _].
        by apply bool_decide_eq_true_1 in Hproto.
      * split; [by eexists|by right; eexists].
    + destruct (bool_decide (name ∈ Object_prototype));
        (split; [by intros [[? ?]|[? ?]]|by intros [? ?]]).
  - rewrite Hall. unfold Config.getServerConfig, lookup.
    destruct (assoc name stdioServers) as [c1|].
    { split; [done|]. intros [H _]. destruct H. left. by eexists. }
    destruct (bool_decide_reflect (name ∈ Object_prototype)) as [Hp|Hp].
    { split; [done|]. by intros [_ ?]. }
    destruct (assoc name httpServers) as [c2|].
    + split; [done|]. intros [H _]. destruct H. right. by eexists.
    + split; [|done]. intros _. split; [|done]. by intros [[? ?]|[? ?]].
  - done.
  - intros Hin. destruct (isHTTPServer name) eqn:H; [|done].
    assert (Hin' : name ∈ getAllServerNames)
      by (unfold Config.getAllServerNames; apply elem_of_app; by left).
    destruct (configured_names_apart name Hin') as [Hproto Hkeys].
    destruct (proj1 Hhttp eq_refl) as [H'|H']; [by destruct (Hkeys Hin)|done].
Qed.

End RegistryProps.

(** ** The entry points and the per-server modules *)

Section EntryProps.
Import Config.

Variable process_env : string -> option string.
Variable JSON_parse : value -> completion value.

Local Abbreviation stdioServers := (Config.stdioServers process_env).
Local Abbreviation httpServers := (Config.httpServers process_env).
Local Abbreviation stdio_step := (Stdio.step stdioServers JSON_parse).
Local Abbreviation stdio_run := (Stdio.run stdioServers JSON_parse).
Local Abbreviation callTool := (Index.callTool process_env JSON_parse).
Local Abbreviation initializeAll := (Index.initializeAll process_env JSON_parse).

(** A call of the stdio manager for a name its registry does not
    resolve, in a state the manager can reach. *)
Lemma stdio_unknown_call (evs : list Stdio.event) k name :
  lookup stdioServers name = Absent ->
  let st := stdio_run evs (Stdio.fresh, []) in
  let st2 := stdio_step (Stdio.EResume (length (snd st)))
               (stdio_step (Stdio.ECall k name) st) in
  Stdio.io (fst st2) = Stdio.io (fst st)
  /\ Stdio.clients (fst st2) = Stdio.clients (fst st)
  /\ snd st2
     = snd st
       ++ [Stdio.Finished (Throw (Stdio.unknown_server stdioServers name))].
Proof.
  intros Habsent st st2.
  pose proof (stdio_run_respects stdioServers JSON_parse evs) as Hres.
  fold st in Hres. unfold st2. clear st2. destruct st as [w tasks].
  destruct Hres as (Hcl & Hin & Hpr). simpl in *. unfold Stdio.getClient.
  destruct (Stdio.clients w !! name) as [c|] eqn:Hc;
    [by destruct (Hcl name c Hc)|].
  destruct (Stdio.initializing w !! name) as [p|] eqn:Hi.
  - simpl. rewrite list_lookup_middle by done. simpl.
    rewrite (Hin name p Hi Habsent). simpl.
    rewrite insert_app_r_alt by done. by rewrite Nat.sub_diag.
  - unfold Stdio.createClient. rewrite Habsent. simpl.
    rewrite list_lookup_middle by done. simpl.
    rewrite list_lookup_middle by done. simpl.
    rewrite insert_app_r_alt by done. by rewrite Nat.sub_diag.
Qed.

(** *** [servers/chrome] *)

Lemma chrome_not_registered : lookup stdioServers "chrome" = Absent.
Proof. reflexivity. Qed.

Lemma chrome_event (c : Servers.Chrome.call) :
  exists k, Servers.Chrome.event_of c = Stdio.ECall k "chrome".
Proof. destruct c; by eexists. Qed.

(** No function of the [chrome] module can succeed: [chrome] is no key
    of [stdioServers], whatever the environment, so in every state the
    manager can reach each of its calls is rejected with the error for
    an unknown stdio server as soon as it resumes, and nothing is done
    to the outside world. *)
Theorem chrome_calls_always_rejected
    (evs : list Stdio.event) (c : Servers.Chrome.call) :
  let st := stdio_run evs (Stdio.fresh, []) in
  let st2 := stdio_step (Stdio.EResume (length (snd st)))
               (stdio_step (Servers.Chrome.event_of c) st) in
  Stdio.io (fst st2) = Stdio.io (fst st)
  /\ Stdio.clients (fst st2) = Stdio.clients (fst st)
  /\ snd st2
     = snd st
       ++ [Stdio.Finished
             (Throw (Error "Unknown stdio server: chrome. Available: memory, seq_thinking, filesystem, supabase, upstash, github, git, polydev, context7, deepwiki, perplexity, morpho, resend"))].
Proof.
  intros st st2. destruct (chrome_event c) as [k Hk].
  unfold st2. rewrite Hk.
  exact (stdio_unknown_call evs k "chrome" chrome_not_registered).
Qed.

(** Every other module names a server of the registry that the manager
    it calls reads, and every configured server has its module. *)
Theorem server_modules_registered (name : string) :
  (forall tr, (name, tr) ∈ Servers.modules -> name <> "chrome" ->
     match tr with
     | Servers.ViaStdio => exists cfg, lookup stdioServers name = Own cfg
     | Servers.ViaHTTP => exists cfg, lookup httpServers name = Own cfg
     end)
  /\ (name ∈ Config.getAllServerNames process_env ->
      exists tr, (name, tr) ∈ Servers.modules).
Proof.
  split.
  - intros tr Hin Hne. unfold Servers.modules in Hin.
    repeat (apply elem_of_cons in Hin as [[= -> ->]|Hin];
            [first [done|by eexists]|]).
    by apply elem_of_nil in Hin.
  - unfold Config.getAllServerNames. rewrite stdio_keys, http_keys.
    simpl. intros Hin.
    repeat (apply elem_of_cons in Hin as [->|Hin];
            [first [exists Servers.ViaStdio; solve [repeat constructor]
                   |exists Servers.ViaHTTP; solve [repeat constructor]]|]).
    by apply elem_of_nil in Hin.
Qed.

(** *** [callTool] *)

(** [callTool] for a name that is configured nowhere (and is no member
    of [Object.prototype]) is handed to the stdio manager, which rejects
    it: the error speaks of an unknown stdio server and lists the stdio
    servers only; nothing is done to the outside world and the HTTP
    manager is not touched. *)
Theorem callTool_unknown_name
    (evs : list Stdio.event) (h : Http.World * list Http.task)
    (name toolName : string) (args : value) :
  name ∉ Config.getAllServerNames process_env ->
  name ∉ Object_prototype ->
  let w := {| Index.stdio := stdio_run evs (Stdio.fresh, []);
              Index.http := h |} in
  let w1 := callTool name toolName args w in
  let st2 := stdio_step (Stdio.EResume (length (snd (Index.stdio w))))
               (Index.stdio w1) in
  Index.http w1 = h
  /\ Stdio.io (fst st2) = Stdio.io (fst (Index.stdio w))
  /\ snd st2
     = snd (Index.stdio w)
       ++ [Stdio.Finished
             (Throw (Error ("Unknown stdio server: " +:+ name
                            +:+ ". Available: memory, seq_thinking, filesystem, supabase, upstash, github, git, polydev, context7, deepwiki, perplexity, morpho, resend")))].
Proof.
  intros Hnot Hproto w w1 st2.
  unfold Config.getAllServerNames in Hnot.
  apply not_elem_of_app in Hnot as [Hnot1 Hnot2].
  assert (Hstdio : lookup stdioServers name = Absent)
    by by apply lookup_absent.
  assert (Hroute : Config.isHTTPServer process_env name = false).
  { unfold Config.isHTTPServer. by rewrite lookup_absent. }
  unfold st2, w1, Index.callTool. rewrite Hroute. simpl.
  destruct (stdio_unknown_call evs (Stdio.KCallMCPTool toolName args) name Hstdio)
    as (Hio & _ & Htasks).
  split_and!; done.
Qed.

(** *** [initializeAll] *)

(** In a process that has done nothing yet, [initializeAll] starts one
    handshake with every configured server, whatever the environment:
    [connect] is called once for each stdio server, in the order of the
    registry, and one [initialize] request, numbered 1, is posted for
    each HTTP server on a client object of its own; no call is rejected
    and every one of them is left waiting for its server. *)
Theorem initializeAll_starts_every_server :
  let w := initializeAll Index.fresh in
  Index.connected_names (Stdio.io (fst (Index.stdio w))) = keys stdioServers
  /\ snd (Index.stdio w)
     = imap (fun p name =>
               Stdio.InGetClient Stdio.KInitializeServer (Stdio.Owner name p))
         (keys stdioServers)
  /\ Index.posted (Http.io (fst (Index.http w)))
     = [(0, "initialize", 1%Z); (1, "initialize", 1%Z); (2, "initialize", 1%Z)]
  /\ snd (Index.http w)
     = [Http.InInitialize Http.KInitialize 0 1;
        Http.InInitialize Http.KInitialize 1 1;
        Http.InInitialize Http.KInitialize 2 1]
  /\ map (fun name => Http.clients (fst (Index.http w)) !! name)
       (keys httpServers)
     = [Some 0; Some 1; Some 2].
Proof. intros w. split_and!; reflexivity. Qed.

End EntryProps.

(** ** The connectivity test *)

Section SelfTestProps.
Import SelfTest.

Variable JSON_parse : value -> completion value.
Variable fetch : string -> Http.fetch_result.

Lemma checkEnv_credential process_env name :
  checkEnv process_env name
  = match credential process_env name with
    | Some v => Return v
    | None => Throw (Error ("Missing " +:+ name +:+ " environment variable"))
    end.
Proof.
  unfold checkEnv, credential. destruct (process_env name) as [v|]; [|done].
  by destruct (String.eqb v "").
Qed.

(** The five checks are all made, in their order, whatever the earlier
    ones come to.  A check asks for its variables before it sends
    anything: the requests that are made are decided by the environment
    alone, one for each of the checks on Polydev, Exa, Vercel and GitHub
    whose variables are all set, and none for Supabase.  The process
    exits with status 1 exactly when a check has failed. *)
Theorem selftest_checks_run_independently
    (process_env : string -> option string) :
  let r := main_checks process_env JSON_parse fetch in
  let given := credential process_env in
  map fst (results r) = ["polydev"; "exa"; "vercel"; "supabase"; "github"]
  /\ fetched r
     = match given "POLYDEV_USER_TOKEN" with
       | Some _ => [POLYDEV_URL]
       | None => []
       end
       ++ match given "EXA_API_KEY" with
          | Some key => ["https://mcp.exa.ai/mcp?exaApiKey=" +:+ key]
          | None => []
          end
       ++ match given "VERCEL_TOKEN", given "VERCEL_TEAM",
                given "VERCEL_PROJECT" with
          | Some _, Some team, Some project =>
              ["https://mcp.vercel.com/" +:+ team +:+ "/" +:+ project]
          | _, _, _ => []
          end
       ++ match given "GITHUB_TOKEN" with
          | Some _ => [GITHUB_URL]
          | None => []
          end
  /\ passed r + failed r = 5
  /\ (main_exit r = Some 1%Z <-> passed r < 5)
  /\ (main_exit r = None <-> passed r = 5).
Proof.
  intros r given.
  assert (Hcount : forall l, length (List.filter is_ok l)
                             + length (List.filter (fun x => negb (is_ok x)) l)
                             = length l).
  { induction l as [|x l IH]; simpl; [done|]. destruct (is_ok x); simpl; lia. }
  assert (Hlen : length (results r) = 5) by reflexivity.
  assert (Hsum : passed r + failed r = 5).
  { unfold passed, failed. by rewrite Hcount. }
  split_and!.
  - reflexivity.
  - unfold r, main_checks, testServer, test_polydev, test_exa, test_vercel,
      test_supabase, test_github. simpl. rewrite !checkEnv_credential.
    fold given.
    destruct (given "POLYDEV_USER_TOKEN"), (given "EXA_API_KEY"),
      (given "VERCEL_TOKEN"), (given "VERCEL_TEAM"), (given "VERCEL_PROJECT"),
      (given "GITHUB_TOKEN"); reflexivity.
  - done.
  - unfold main_exit. destruct (Nat.ltb_spec 0 (failed r)); split; try done; lia.
  - unfold main_exit. destruct (Nat.ltb_spec 0 (failed r)); split; try done; lia.
Qed.

(** A check whose variable is missing or empty fails with the message
    that names the first such variable; the check on Supabase passes as
    soon as its two variables are set. *)
Theorem selftest_missing_credential
    (process_env : string -> option string)
    (check : string) (names : list string) :
  (check, names) ∈ required ->
  let r := main_checks process_env JSON_parse fetch in
  match first_missing process_env names with
  | Some name =>
      (check, Failed ("Missing " +:+ name +:+ " environment variable"))
      ∈ results r
  | None => check = "supabase" -> (check, Ok) ∈ results r
  end.
Proof.
  intros Hin r. unfold required in Hin.
  assert (Hres : results r
                 = [("polydev", match snd (test_polydev process_env JSON_parse fetch) with
                                | Return _ => Ok
                                | Throw err => Failed (err_message err)
                                end);
                    ("exa", match snd (test_exa process_env fetch) with
                            | Return _ => Ok
                            | Throw err => Failed (err_message err)
                            end);
                    ("vercel", match snd (test_vercel process_env fetch) with
                               | Return _ => Ok
                               | Throw err => Failed (err_message err)
                               end);
                    ("supabase", match snd (test_supabase process_env) with
                                 | Return _ => Ok
                                 | Throw err => Failed (err_message err)
                                 end);
                    ("github", match snd (test_github process_env JSON_parse fetch) with
                               | Return _ => Ok
                               | Throw err => Failed (err_message err)
                               end)])
    by reflexivity.
  rewrite Hres. clear Hres.
  unfold test_polydev, test_exa, test_vercel, test_supabase, test_github.
  simpl. rewrite !checkEnv_credential.
  repeat (apply elem_of_cons in Hin as [[= -> ->]|Hin]);
    [| | | | |by apply elem_of_nil in Hin];
    unfold first_missing; simpl.
  - destruct (credential process_env "POLYDEV_USER_TOKEN"); simpl; [done|].
    apply list_elem_of_here.
  - destruct (credential process_env "EXA_API_KEY"); simpl; [done|].
    do 1 apply list_elem_of_further. apply list_elem_of_here.
  - destruct (credential process_env "VERCEL_TOKEN"); simpl;
      [|do 2 apply list_elem_of_further; apply list_elem_of_here].
    destruct (credential process_env "VERCEL_TEAM"); simpl;
      [|do 2 apply list_elem_of_further; apply list_elem_of_here].
    destruct (credential process_env "VERCEL_PROJECT"); simpl; [done|].
    do 2 apply list_elem_of_further. apply list_elem_of_here.
  - destruct (credential process_env "SUPABASE_ACCESS_TOKEN"); simpl;
      [|do 3 apply list_elem_of_further; apply list_elem_of_here].
    destruct (credential process_env "SUPABASE_PROJECT_REF"); simpl;
      intros; do 3 apply list_elem_of_further; apply list_elem_of_here.
  - destruct (credential process_env "GITHUB_TOKEN"); simpl; [done|].
    do 4 apply list_elem_of_further. apply list_elem_of_here.
Qed.

(** The test reads eight variables and no other: two environments that
    agree on them give the same run.  The variables from which the
    registry builds the credentials of the GitHub and Vercel servers are
    not among them. *)
Theorem selftest_reads_only_its_variables
    (env1 env2 : string -> option string) :
  (forall name, name ∈ variables_read -> env1 name = env2 name) ->
  main_checks env1 JSON_parse fetch = main_checks env2 JSON_parse fetch
  /\ ("GITHUB_PERSONAL_ACCESS_TOKEN" ∉ variables_read)
  /\ ("VERCEL_ACCESS_TOKEN" ∉ variables_read)
  /\ ("VERCEL_MCP_URL" ∉ variables_read).
Proof.
  intros Hagree.
  assert (Hcheck : forall name, name ∈ variables_read ->
                     checkEnv env1 name = checkEnv env2 name).
  { intros name Hin. unfold checkEnv. by rewrite (Hagree name Hin). }
  split_and!; try (apply (bool_decide_eq_false_1 _); reflexivity).
  unfold main_checks, test_polydev, test_exa, test_vercel, test_supabase,
    test_github.
  rewrite !(Hcheck "POLYDEV_USER_TOKEN"), !(Hcheck "EXA_API_KEY"),
    !(Hcheck "VERCEL_TOKEN"), !(Hcheck "VERCEL_TEAM"),
    !(Hcheck "VERCEL_PROJECT"), !(Hcheck "SUPABASE_ACCESS_TOKEN"),
    !(Hcheck "SUPABASE_PROJECT_REF"), !(Hcheck "GITHUB_TOKEN");
    try (apply (bool_decide_unpack _); reflexivity).
  reflexivity.
Qed.

End SelfTestProps.

(** ** The stdio wrapper, version 1 *)

Section WrapperV1Props.
Import Wrapper.

Variable JSON_parse : value -> completion value.
Variable blank : string -> bool.
Variable TOKEN : string.

Local Abbreviation advance_v1 := (Wrapper.advance_v1 JSON_parse blank).
Local Abbreviation continue_v1 := (Wrapper.continue_v1 JSON_parse blank).
Local Abbreviation step_v1 := (Wrapper.step_v1 JSON_parse blank TOKEN).
Local Abbreviation run_v1 := (Wrapper.run_v1 JSON_parse blank TOKEN).
Local Abbreviation forward_v1 := (Wrapper.forward_v1 JSON_parse TOKEN).
Local Abbreviation started_v1 := (Wrapper.started_v1 TOKEN).

(** The loop leaves the counter as it found it, plus one if it ends
    suspended; it does not touch the other loops. *)
Lemma advance_v1_spec lines : forall st,
  let st' := fst (advance_v1 lines st) in
  loops_v1 st' = loops_v1 st
  /\ pending_v1 st' = (pending_v1 st + awaited (snd (advance_v1 lines st)))%Z
  /\ (exited_v1 st <> None -> advance_v1 lines st = (st, Done)).
Proof.
  induction lines as [|line rest IH]; intros st; simpl.
  - split_and!; try done. unfold awaited. simpl. lia.
  - destruct (exited_v1 st) as [code|] eqn:Hex.
    { simpl. split_and!; try done. unfold awaited. simpl. lia. }
    destruct (blank line).
    { destruct (IH st) as (Hl & Hp & _). split_and!; done. }
    destruct (JSON_parse (VStr line)) as [request|err].
    + destruct (handle_v1 request); simpl; split_and!; done.
    + destruct (IH (settle_v1 (internal_error err) (count_v1 st)))
        as (Hl & Hp & _).
      split_and!; try done. rewrite Hp. simpl. lia.
Qed.

Lemma awaiting_insert (loops : list loop) i old l :
  loops !! i = Some old ->
  (Z.of_nat (length (List.filter awaiting (<[i := l]> loops))) + awaited old
   = Z.of_nat (length (List.filter awaiting loops)) + awaited l)%Z.
Proof.
  intros Hi. pose proof (lookup_lt_Some _ _ _ Hi) as Hlt.
  rewrite insert_take_drop by done.
  rewrite <- (take_drop_middle loops i old Hi) at 3.
  rewrite !List.filter_app, !length_app. unfold awaited. simpl.
  destruct (awaiting old), (awaiting l); simpl; lia.
Qed.

Lemma continue_v1_counted i message rest st old :
  counted_v1 st -> loops_v1 st !! i = Some old -> awaiting old = true ->
  counted_v1 (continue_v1 i message rest st).
Proof.
  unfold counted_v1, Wrapper.continue_v1. intros Hst Hi Hold.
  destruct (advance_v1_spec rest (settle_v1 message st)) as (Hl & Hp & _).
  destruct (advance_v1 rest (settle_v1 message st)) as [st' l].
  simpl in *. rewrite Hp, Hl.
  pose proof (awaiting_insert (loops_v1 st) i old l Hi) as Hins.
  unfold awaited in Hins at 1. rewrite Hold in Hins. lia.
Qed.

Lemma step_v1_counted e st : counted_v1 st -> counted_v1 (step_v1 e st).
Proof.
  intros Hst. unfold Wrapper.step_v1.
  destruct (exited_v1 st) as [code|]; [done|].
  destruct e as [chunk|i|i b|].
  - match goal with
    | |- context [advance_v1 ?ls ?s0] =>
        destruct (advance_v1_spec ls s0) as (Hl & Hp & _);
        destruct (advance_v1 ls s0) as [st' l]
    end.
    unfold counted_v1 in *. simpl in *.
    rewrite List.filter_app, length_app, Hp, Hl, Hst. unfold awaited. simpl.
    destruct (awaiting l); simpl; lia.
  - destruct (loops_v1 st !! i) as [[response rest|request rest|]|] eqn:Hi;
      try done.
    by apply (continue_v1_counted i response rest st (AwaitReply response rest)).
  - destruct (loops_v1 st !! i) as [[response rest|request rest|]|] eqn:Hi;
      try done.
    destruct (forward_v1 request b) as [[t [response|err]]|]; [| |done].
    + by apply (continue_v1_counted i response rest st
                  (AwaitForward request rest)).
    + by apply (continue_v1_counted i _ rest st (AwaitForward request rest)).
  - done.
Qed.

Lemma run_v1_counted evs : counted_v1 (run_v1 evs started_v1).
Proof.
  induction evs as [|e evs IH] using rev_ind; [done|].
  unfold Wrapper.run_v1. rewrite fold_left_app. simpl.
  by apply step_v1_counted.
Qed.

Lemma run_v1_exited evs : forall st,
  exited_v1 st <> None -> run_v1 evs st = st.
Proof.
  induction evs as [|e evs IH]; intros st Hex; [done|]. simpl.
  assert (Hstep : step_v1 e st = st).
  { unfold Wrapper.step_v1. by destruct (exited_v1 st). }
  rewrite Hstep. by apply IH.
Qed.

Lemma only_one_awaiting (loops : list loop) i l :
  loops !! i = Some l -> awaiting l = true ->
  (forall j l', j <> i -> loops !! j = Some l' -> l' = Done) ->
  length (List.filter awaiting loops) = 1.
Proof.
  intros Hi Hl Hothers.
  assert (Hnone : forall ls : list loop,
            Forall (fun x => x = Done) ls -> List.filter awaiting ls = []).
  { induction 1 as [|x ls -> _ IH]; [done|]. simpl. exact IH. }
  rewrite <- (take_drop_middle loops i l Hi), !List.filter_app. simpl.
  rewrite Hl, !Hnone; [done| |].
  - apply Forall_lookup. intros j l' Hj.
    apply (Hothers (S i + j)); [lia|]. by rewrite <- lookup_drop.
  - apply Forall_lookup. intros j l' Hj.
    pose proof (lookup_lt_Some _ _ _ Hj) as Hlt. rewrite length_take in Hlt.
    apply (Hothers j); [lia|]. rewrite lookup_take_lt in Hj; [done|lia].
Qed.

(** Version 1 counts as pending only the line a loop is waiting on, not
    the lines behind it in the chunk.  So in every state it can reach:
    if standard input has ended and the only suspended loop waits for
    the answer to a forwarded request, then when [forward] settles the
    wrapper writes that one message and exits with status 0; the lines
    that follow in the chunk are never processed, whatever they are. *)
Theorem v1_exit_drops_rest_of_chunk
    (evs : list event_v1) (i : nat) (request : value) (rest : list string)
    (b : Net.behaviour) (t : N) (outcome : completion value) :
  let st := run_v1 evs started_v1 in
  exited_v1 st = None -> ended_v1 st = true ->
  loops_v1 st !! i = Some (AwaitForward request rest) ->
  (forall j l, j <> i -> loops_v1 st !! j = Some l -> l = Done) ->
  forward_v1 request b = Some (t, outcome) ->
  let st' := step_v1 (V1Settle i b) st in
  exited_v1 st' = Some 0%Z
  /\ stdout_v1 st'
     = stdout_v1 st ++ [match outcome with
                        | Return response => response
                        | Throw err => internal_error err
                        end]
  /\ forall evs', run_v1 evs' st' = st'.
Proof.
  intros st Hex Hend Hi Hothers Hfwd st'.
  pose proof (run_v1_counted evs) as Hcount. fold st in Hcount.
  unfold counted_v1 in Hcount.
  rewrite (only_one_awaiting _ i _ Hi eq_refl Hothers) in Hcount.
  assert (Hcont : forall message,
            continue_v1 i message rest st
            = {| buffer_v1 := buffer_v1 st; pending_v1 := 0;
                 ended_v1 := true; exited_v1 := Some 0%Z;
                 loops_v1 := <[i := Done]> (loops_v1 st);
                 stdout_v1 := stdout_v1 st ++ [message] |}).
  { intros message. unfold Wrapper.continue_v1.
    assert (Hsettle : settle_v1 message st
                      = {| buffer_v1 := buffer_v1 st; pending_v1 := 0;
                           ended_v1 := true; exited_v1 := Some 0%Z;
                           loops_v1 := loops_v1 st;
                           stdout_v1 := stdout_v1 st ++ [message] |}).
    { unfold settle_v1. by rewrite Hend, Hcount. }
    rewrite Hsettle.
    destruct (advance_v1_spec rest
                {| buffer_v1 := buffer_v1 st; pending_v1 := 0;
                   ended_v1 := true; exited_v1 := Some 0%Z;
                   loops_v1 := loops_v1 st;
                   stdout_v1 := stdout_v1 st ++ [message] |})
      as (_ & _ & Hstop).
    by rewrite Hstop. }
  assert (Hst' : st' = continue_v1 i match outcome with
                                     | Return response => response
                                     | Throw err => internal_error err
                                     end rest st).
  { unfold st', Wrapper.step_v1. rewrite Hex, Hi, Hfwd. by destruct outcome. }
  rewrite Hst', Hcont. simpl. split_and!; try done.
  intros evs'. by apply run_v1_exited.
Qed.

End WrapperV1Props.

(** ** [initializeServers] *)

Section InitializeServersProps.
Import Config.

Variable process_env : string -> option string.
Variable JSON_parse : value -> completion value.

Local Abbreviation stdioServers := (Config.stdioServers process_env).
Local Abbreviation httpServers := (Config.httpServers process_env).
Local Abbreviation isHTTPServer := (Config.isHTTPServer process_env).
Local Abbreviation stdio_run := (Stdio.run stdioServers JSON_parse).
Local Abbreviation http_run := (Http.run JSON_parse httpServers).
Local Abbreviation initializeServers :=
  (Index.initializeServers process_env JSON_parse).

(** The calls go to the two managers independently. *)
Lemma initializeServers_split names : forall w,
  initializeServers names w
  = {| Index.stdio :=
         stdio_run (map (Stdio.ECall Stdio.KInitializeServer)
                      (List.filter (fun n => negb (isHTTPServer n)) names))
           (Index.stdio w);
       Index.http :=
         http_run (map (Http.ECall Http.KInitialize)
                     (List.filter isHTTPServer names))
           (Index.http w) |}.
Proof.
  induction names as [|n names IH]; intros w; simpl; [by destruct w|].
  rewrite IH. unfold Index.initializeOne.
  by destruct (isHTTPServer n).
Qed.

(** Calls for stdio servers, none of which has resumed: each server
    named is being created, once. *)
Lemma stdio_calls_connect_once (ns : list string) :
  let w := fst (stdio_run (map (Stdio.ECall Stdio.KInitializeServer) ns)
                  (Stdio.fresh, [])) in
  Stdio.clients w = ∅
  /\ forall s,
       (s ∈ ns -> is_Some (Stdio.initializing w !! s)
                  /\ Stdio.connects s (Stdio.io w)
                     = Stdio.attempts stdioServers s)
       /\ (s ∉ ns -> Stdio.initializing w !! s = None
                     /\ Stdio.connects s (Stdio.io w) = 0).
Proof.
  induction ns as [|n ns IH] using rev_ind.
  - simpl. split; [done|]. intros s. split; [by intros ?%elem_of_nil|done].
  - rewrite map_app. unfold Stdio.run in *. rewrite fold_left_app. simpl.
    destruct (fold_left _ (map _ ns) (Stdio.fresh, [])) as [w tasks].
    simpl in IH. destruct IH as [Hcl IH]. simpl. unfold Stdio.getClient.
    rewrite Hcl, lookup_empty.
    destruct (Stdio.initializing w !! n) as [p|] eqn:Hn.
    + simpl. split; [done|]. intros s.
      assert (Hin : n ∈ ns).
      { destruct (decide (n ∈ ns)) as [?|Hnot]; [done|].
        destruct (IH n) as [_ H]. destruct (H Hnot) as [H' _]. congruence. }
      destruct (IH s) as [H1 H2]. split.
      * intros [?|H]%elem_of_app; [by apply H1|].
        apply list_elem_of_singleton in H as ->. by apply H1.
      * intros Hnot. apply H2. intros ?. apply Hnot, elem_of_app. by left.
    + assert (Hnot : n ∉ ns).
      { intros Hin. destruct (IH n) as [H _].
        destruct (H Hin) as [[? H'] _]. congruence. }
      pose proof (createClient_spec stdioServers n w) as Hspec.
      assert (Hother : forall s, s <> n ->
                Stdio.connects s
                  (Stdio.io (fst (Stdio.createClient stdioServers n w)))
                = Stdio.connects s (Stdio.io w)).
      { intros s Hne. unfold Stdio.createClient.
        destruct (lookup stdioServers n) as [cfg| |]; simpl; try done;
          apply connects_snoc_other; by intros ? ? ? ? [= <- _ _ _]. }
      destruct (Stdio.createClient stdioServers n w) as [w1 p].
      simpl in Hspec, Hother.
      destruct Hspec as (-> & Hc1 & Ht1 & Hi1 & Hp1 & Hn1).
      simpl. split; [by rewrite Hc1|]. intros s.
      destruct (IH s) as [H1 H2]. specialize (Hother s).
      destruct (decide (s = n)) as [->|Hne].
      * split; [|by intros H; destruct H; apply elem_of_app; right;
                    apply list_elem_of_singleton].
        intros _. rewrite lookup_insert_eq. split; [done|].
        destruct (H2 Hnot) as [_ H0]. rewrite Hn1, H0. done.
      * rewrite lookup_insert_ne by done. rewrite Hi1, Hother by done. split.
        -- intros [?|?%list_elem_of_singleton]%elem_of_app; [by apply H1|done].
        -- intros Hnot'. apply H2. intros ?. apply Hnot', elem_of_app. by left.
Qed.

Lemma occurrences_snoc s ns n :
  Index.occurrences s (ns ++ [n])
  = Index.occurrences s ns + (if String.eqb s n then 1 else 0).
Proof.
  unfold Index.occurrences. rewrite List.filter_app, length_app. simpl.
  by destruct (String.eqb s n).
Qed.

Lemma occurrences_elem_of s ns : 0 < Index.occurrences s ns <-> s ∈ ns.
Proof.
  unfold Index.occurrences. induction ns as [|n ns IH]; simpl.
  - split; [lia|by intros ?%elem_of_nil].
  - rewrite elem_of_cons. destruct (String.eqb_spec s n) as [->|Hne]; simpl.
    + split; [by left|lia].
    + rewrite IH. split; [by right|by intros [?|?]].
Qed.

(** [initialize] on a cached client object whose flag is not set. *)
Lemma initialize_start_posts k c o (w : Http.World) :
  Http.heap w !! c = Some o -> Http.initialized o = false ->
  exists w' r o',
    fst (Http.initialize_start k c w) = w'
    /\ Http.req_method r = "initialize"
    /\ Http.clients w' = Http.clients w
    /\ Http.heap w' = <[c := o']> (Http.heap w)
    /\ Http.initialized o' = false
    /\ (forall c', Http.requests_of c' (Http.io w')
                   = Http.requests_of c' (Http.io w)
                     ++ if Nat.eqb c c' then [r] else []).
Proof.
  intros Hc Hinit. unfold Http.initialize_start. rewrite Hc, Hinit.
  destruct (sendRequest_start_spec c "initialize" (Http.initialize_params o)
              w o Hc)
    as (w3 & r & o' & -> & _ & Hm & _ & Hcl3 & Hheap & _ & Hinit' & Hio).
  exists w3, r, o'. simpl. split_and!; try done; [congruence|].
  intros c'. by rewrite Hio, requests_of_snoc.
Qed.

(** Calls for HTTP servers, none of which has been answered: each
    occurrence of a server has posted one [initialize] on the client
    object of the server. *)
Lemma http_calls_post_each (ns : list string) :
  let w := fst (http_run (map (Http.ECall Http.KInitialize) ns)
                  (Http.fresh, [])) in
  (forall s c, Http.clients w !! s = Some c ->
     exists o, Http.heap w !! c = Some o /\ Http.initialized o = false)
  /\ (forall s1 s2 c, Http.clients w !! s1 = Some c ->
                      Http.clients w !! s2 = Some c -> s1 = s2)
  /\ (forall c, length (Http.heap w) <= c ->
                Http.requests_of c (Http.io w) = [])
  /\ (forall s, lookup httpServers s <> Absent ->
       length (Index.posts_for s w) = Index.occurrences s ns
       /\ Forall (fun r => Http.req_method r = "initialize")
            (Index.posts_for s w)).
Proof.
  induction ns as [|n ns IH] using rev_ind.
  - simpl. split_and!; done.
  - rewrite map_app. unfold Http.run in *. rewrite fold_left_app. simpl.
    destruct (fold_left _ (map _ ns) (Http.fresh, [])) as [w tasks].
    simpl in IH. destruct IH as (Hobj & Hinj & Hfree & Hposts).
    simpl. unfold Http.getClient.
    assert (Hpost : forall w2 c o,
              Http.heap w2 !! c = Some o -> Http.initialized o = false ->
              Http.clients w2 !! n = Some c ->
              Http.io w2 = Http.io w ->
              length (Http.heap w) <= length (Http.heap w2) ->
              (forall s c', Http.clients w2 !! s = Some c' ->
                 exists o', Http.heap w2 !! c' = Some o'
                            /\ Http.initialized o' = false) ->
              (forall s1 s2 c', Http.clients w2 !! s1 = Some c' ->
                                Http.clients w2 !! s2 = Some c' -> s1 = s2) ->
              (forall s, s <> n -> Http.clients w2 !! s = Http.clients w !! s) ->
              (Http.clients w !! n = None ->
               Http.requests_of c (Http.io w) = []) ->
              (Http.clients w !! n = Some c \/ Http.clients w !! n = None) ->
              let w' := fst (Http.initialize_start Http.KInitialize c w2) in
              (forall s c', Http.clients w' !! s = Some c' ->
                 exists o', Http.heap w' !! c' = Some o'
                            /\ Http.initialized o' = false)
              /\ (forall s1 s2 c', Http.clients w' !! s1 = Some c' ->
                                   Http.clients w' !! s2 = Some c' -> s1 = s2)
              /\ (forall c', length (Http.heap w') <= c' ->
                             Http.requests_of c' (Http.io w') = [])
              /\ (forall s, lookup httpServers s <> Absent ->
                   length (Index.posts_for s w') = Index.occurrences s (ns ++ [n])
                   /\ Forall (fun r => Http.req_method r = "initialize")
                        (Index.posts_for s w'))).
    { intros w2 c o Hc Hinit Hn Hio Hlen Hobj2 Hinj2 Hsame Hnew Hcase w'.
      destruct (initialize_start_posts Http.KInitialize c o w2 Hc Hinit)
        as (w3 & r & o' & Hw3 & Hm & Hcl3 & Hheap3 & Hinit3 & Hreq3).
      unfold w'. rewrite Hw3. clear w' Hw3.
      pose proof (lookup_lt_Some _ _ _ Hc) as Hlt.
      split_and!.
      - intros s c' Hs. rewrite Hcl3 in Hs. rewrite Hheap3.
        destruct (decide (c = c')) as [<-|Hne].
        + exists o'. by rewrite list_lookup_insert_eq.
        + rewrite list_lookup_insert_ne by done. by eapply Hobj2.
      - intros s1 s2 c'. rewrite Hcl3. apply Hinj2.
      - intros c' Hge. rewrite Hheap3, length_insert in Hge.
        rewrite Hreq3, Hio.
        destruct (Nat.eqb_spec c c') as [<-|Hne]; [lia|].
        rewrite app_nil_r. apply Hfree. lia.
      - intros s Hknown. unfold Index.posts_for. rewrite Hcl3.
        rewrite occurrences_snoc.
        destruct (String.eqb_spec s n) as [->|Hne].
        + rewrite Hn, Hreq3, Nat.eqb_refl, length_app, Hio. simpl.
          destruct (Hposts n Hknown) as [Hlen0 Hall0].
          unfold Index.posts_for in Hlen0, Hall0.
          destruct Hcase as [Hold|Hold]; rewrite Hold in Hlen0, Hall0.
          * split; [lia|]. apply Forall_app. split; [done|].
            by repeat constructor.
          * rewrite (Hnew Hold). simpl in *. split; [lia|].
            by repeat constructor.
        + rewrite (Hsame s Hne). destruct (Hposts s Hknown) as [Hlen0 Hall0].
          unfold Index.posts_for in Hlen0, Hall0.
          destruct (Http.clients w !! s) as [cs|] eqn:Hs;
            [|split; [simpl in *; lia|done]].
          rewrite Hreq3, Hio.
          destruct (Nat.eqb_spec c cs) as [<-|Hne'].
          * exfalso. apply Hne. apply (Hinj2 s n c); [|done].
            by rewrite (Hsame s Hne).
          * rewrite app_nil_r. split; [lia|done]. }
    destruct (Http.clients w !! n) as [c|] eqn:Hn.
    + destruct (Hobj n c Hn) as (o & Hc & Hinit).
      specialize (Hpost w c o Hc Hinit Hn eq_refl (Nat.le_refl _) Hobj Hinj).
      destruct (Http.initialize_start Http.KInitialize c w) as [w3 t].
      apply Hpost; try done. by left.
    + assert (Hvalid : forall s c, Http.clients w !! s = Some c ->
                                   c < length (Http.heap w)).
      { intros s c Hs. destruct (Hobj s c Hs) as (o & Ho & _).
        by eapply lookup_lt_Some. }
      assert (Hnew : forall config,
                let w2 := {| Http.clients := <[n := length (Http.heap w)]>
                                               (Http.clients w);
                             Http.heap := Http.heap w
                                          ++ [Http.new_client n config];
                             Http.io := Http.io w |} in
                let w' := fst (Http.initialize_start Http.KInitialize
                                 (length (Http.heap w)) w2) in
                (forall s c', Http.clients w' !! s = Some c' ->
                   exists o', Http.heap w' !! c' = Some o'
                              /\ Http.initialized o' = false)
                /\ (forall s1 s2 c', Http.clients w' !! s1 = Some c' ->
                                     Http.clients w' !! s2 = Some c' -> s1 = s2)
                /\ (forall c', length (Http.heap w') <= c' ->
                               Http.requests_of c' (Http.io w') = [])
                /\ (forall s, lookup httpServers s <> Absent ->
                     length (Index.posts_for s w')
                     = Index.occurrences s (ns ++ [n])
                     /\ Forall (fun r => Http.req_method r = "initialize")
                          (Index.posts_for s w'))).
      { intros config w2.
        apply (Hpost w2 (length (Http.heap w)) (Http.new_client n config));
          simpl; try done.
        - by rewrite list_lookup_middle.
        - by rewrite lookup_insert_eq.
        - rewrite length_app. simpl. lia.
        - intros s c' Hs. destruct (decide (s = n)) as [->|Hne].
          + rewrite lookup_insert_eq in Hs. injection Hs as <-.
            exists (Http.new_client n config).
            by rewrite list_lookup_middle.
          + rewrite lookup_insert_ne in Hs by done.
            destruct (Hobj s c' Hs) as (o' & Ho' & Hi').
            exists o'. split; [|done]. by apply lookup_app_l_Some.
        - intros s1 s2 c' H1 H2.
          destruct (decide (s1 = n)) as [->|Hne1];
            destruct (decide (s2 = n)) as [->|Hne2]; try done.
          + rewrite lookup_insert_eq in H1. injection H1 as <-.
            rewrite lookup_insert_ne in H2 by done.
            pose proof (Hvalid s2 _ H2). lia.
          + rewrite lookup_insert_eq in H2. injection H2 as <-.
            rewrite lookup_insert_ne in H1 by done.
            pose proof (Hvalid s1 _ H1). lia.
          + rewrite lookup_insert_ne in H1, H2 by done. by eapply Hinj.
        - intros s Hne. by rewrite lookup_insert_ne.
        - intros _. by apply Hfree.
        - by right. }
      destruct (lookup httpServers n) as [cfg| |] eqn:Hcfg.
      * specialize (Hnew (Own cfg)). simpl in Hnew.
        by destruct (Http.initialize_start Http.KInitialize
                       (length (Http.heap w)) _) as [w3 t].
      * specialize (Hnew Inherited). simpl in Hnew.
        by destruct (Http.initialize_start Http.KInitialize
                       (length (Http.heap w)) _) as [w3 t].
      * simpl. split_and!; try done.
        intros s Hknown. rewrite occurrences_snoc.
        destruct (String.eqb_spec s n) as [->|Hne]; [done|].
        rewrite Nat.add_0_r. by apply Hposts.
Qed.

Lemma occurrences_filter (f : string -> bool) s names :
  f s = true ->
  Index.occurrences s (List.filter f names) = Index.occurrences s names.
Proof.
  intros Hs. unfold Index.occurrences. f_equal.
  induction names as [|n names IH]; simpl; [done|].
  destruct (String.eqb_spec s n) as [<-|Hne].
  - rewrite Hs. simpl. rewrite String.eqb_refl. by f_equal.
  - destruct (f n); simpl; [|done].
    by destruct (String.eqb_spec s n).
Qed.

(** [initializeServers], called first thing with a list of names that may
    repeat: a configured stdio server is connected once however often it
    is named, whereas an HTTP server is sent one [initialize] request for
    each time it is named. *)
Theorem initializeServers_duplicates (names : list string) (s : string) :
  let w := initializeServers names Index.fresh in
  (isHTTPServer s = false -> s ∈ names ->
   lookup stdioServers s <> Absent ->
   Stdio.connects s (Stdio.io (fst (Index.stdio w))) = 1)
  /\ (isHTTPServer s = true ->
      length (Index.posts_for s (fst (Index.http w)))
      = Index.occurrences s names
      /\ Forall (fun r => Http.req_method r = "initialize")
           (Index.posts_for s (fst (Index.http w)))).
Proof.
  intros w. unfold w. rewrite initializeServers_split. simpl. split.
  - intros Hstdio Hin Hknown.
    destruct (stdio_calls_connect_once
                (List.filter (fun n => negb (isHTTPServer n)) names))
      as [_ Hcalls].
    destruct (Hcalls s) as [Hnamed _].
    destruct Hnamed as [_ ->].
    + apply list_elem_of_In, filter_In. split; [by apply list_elem_of_In|].
      by rewrite Hstdio.
    + unfold Stdio.attempts. by destruct (lookup stdioServers s).
  - intros Hhttp.
    destruct (http_calls_post_each (List.filter isHTTPServer names))
      as (_ & _ & _ & Hposts).
    rewrite <- (occurrences_filter isHTTPServer s names Hhttp).
    apply Hposts. unfold Config.isHTTPServer in Hhttp.
    by destruct (lookup httpServers s).
Qed.

End InitializeServersProps.

(** ** Tool requests come after the handshake *)

Section HandshakeProps.
Import Config.

Variable JSON_parse : value -> completion value.
Variable httpServers : list (string * HTTPServerConfig).
Variable stdioServers : list (string * StdioServerConfig).

Local Abbreviation http_step := (Http.step JSON_parse httpServers).
Local Abbreviation http_run := (Http.run JSON_parse httpServers).
Local Abbreviation stdio_step := (Stdio.step stdioServers JSON_parse).
Local Abbreviation stdio_run := (Stdio.run stdioServers JSON_parse).

(** *** HTTP: the call performs the handshake, then sends its request *)

(** The client object a call works on when the server is not connected:
    the cached one, whose flag is not set, or a new one. *)
Lemma getClient_unconnected name (w : Http.World) :
  Http.clients_valid w ->
  lookup httpServers name <> Absent ->
  Http.isConnected name w = false ->
  exists w1 client c,
    Http.getClient httpServers name w = Return (w1, client)
    /\ Http.io w1 = Http.io w
    /\ Http.heap w1 !! client = Some c
    /\ Http.initialized c = false.
Proof.
  intros Hvalid Hknown Hconn. unfold Http.getClient, Http.isConnected in *.
  destruct (Http.clients w !! name) as [client|] eqn:Hname.
  - destruct (lookup_lt_is_Some_2 _ _ (Hvalid name client Hname)) as [c Hc].
    rewrite Hc in Hconn. by exists w, client, c.
  - destruct (lookup httpServers name) as [cfg| |] eqn:Hcfg; [| |done].
    + eexists _, _, _. split; [done|]. simpl. split; [done|].
      by rewrite list_lookup_middle.
    + eexists _, _, _. split; [done|]. simpl. split; [done|].
      by rewrite list_lookup_middle.
Qed.

Lemma http_call_performs_handshake evs k name :
  lookup httpServers name <> Absent ->
  let st := http_run evs (Http.fresh, []) in
  Http.isConnected name (fst st) = false ->
  let i := length (snd st) in
  let st1 := http_step (Http.ECall k name) st in
  exists client u0 init0 r0,
    snd st1 = snd st ++ [Http.InInitialize k client (Http.req_id r0)]
    /\ Http.io (fst st1) = Http.io (fst st) ++ [Http.Post client u0 init0 r0]
    /\ Http.req_method r0 = "initialize"
    /\ http_step (Http.EResume i) st1 = st1
    /\ (forall answer e,
          Http.sendRequest_finish JSON_parse answer = Throw e ->
          http_step (Http.ESettle i answer) st1
          = (fst st1, snd st ++ [Http.Finished (Throw e)]))
    /\ (forall answer result,
          Http.sendRequest_finish JSON_parse answer = Return result ->
          let st3 := http_step (Http.EResume i)
                       (http_step (Http.ESettle i answer) st1) in
          match k with
          | Http.KInitialize =>
              Http.io (fst st3)
              = Http.io (fst st1) ++ [Http.Handshaken client (Http.req_id r0)]
              /\ snd st3 = snd st ++ [Http.Finished (Return VUndef)]
          | Http.KListTools =>
              exists u1 init1 r1,
                Http.io (fst st3)
                = Http.io (fst st1)
                  ++ [Http.Handshaken client (Http.req_id r0);
                      Http.Post client u1 init1 r1]
                /\ Http.req_method r1 = "tools/list"
                /\ Http.req_params r1 = VUndef
                /\ Http.req_id r1 = incr (Http.req_id r0)
                /\ snd st3
                   = snd st ++ [Http.InRequest k client (Http.req_id r1)]
          | Http.KCallTool toolName args =>
              exists u1 init1 r1,
                Http.io (fst st3)
                = Http.io (fst st1)
                  ++ [Http.Handshaken client (Http.req_id r0);
                      Http.Post client u1 init1 r1]
                /\ Http.req_method r1 = "tools/call"
                /\ Http.req_params r1
                   = VObj [("name", VStr toolName); ("arguments", args)]
                /\ Http.req_id r1 = incr (Http.req_id r0)
                /\ snd st3
                   = snd st ++ [Http.InRequest k client (Http.req_id r1)]
          end).
Proof.
  intros Hknown st Hconn i st1.
  destruct (run_invariant JSON_parse httpServers evs)
    as [(_ & _ & _ & Hvalid) _].
  fold st in Hvalid. unfold st1, i. clear st1 i.
  destruct st as [w tasks]. simpl in *.
  destruct (getClient_unconnected name w Hvalid Hknown Hconn)
    as (w1 & client & c & Hget & Hio1 & Hc & Hinit).
  rewrite Hget. unfold Http.initialize_start. rewrite Hc, Hinit.
  destruct (sendRequest_start_spec client "initialize"
              (Http.initialize_params c) w1 c Hc)
    as (w2 & r0 & c' & Hstart & Hid0 & Hm0 & _ & _ & Hheap2 & Hrid & _ & Hio2).
  rewrite Hstart.
  pose proof (lookup_lt_Some _ _ _ Hc) as Hlt.
  assert (Hc2 : Http.heap w2 !! client = Some c')
    by (by rewrite Hheap2, list_lookup_insert_eq).
  exists client, (Http.config_url c), (Http.sendRequest_init c r0), r0.
  cbn [fst snd].
  split; [done|]. split; [by rewrite Hio2, Hio1|]. split; [done|].
  simpl. rewrite list_lookup_middle by done. split; [done|]. split.
  - intros answer e ->. by rewrite insert_app_r_alt, Nat.sub_diag by done.
  - intros answer result ->.
    rewrite insert_app_r_alt, Nat.sub_diag by done. simpl.
    rewrite list_lookup_middle by done.
    set (w3 := Http.record_handshake client (Http.req_id r0) result w2).
    assert (Hc3 : Http.heap w3 !! client
                  = Some (Http.set_handshake result c'))
      by (unfold w3; simpl; by rewrite list_lookup_alter_eq, Hc2).
    assert (Hio3 : Http.io w3
                   = Http.io w2 ++ [Http.Handshaken client (Http.req_id r0)])
      by done.
    destruct k as [| |toolName args]; simpl.
    + by rewrite insert_app_r_alt, Nat.sub_diag by done.
    + destruct (sendRequest_start_spec client "tools/list" VUndef w3 _ Hc3)
        as (w4 & r1 & c4 & Hstart4 & Hid1 & Hm1 & Hp1 & _ & _ & _ & _ & Hio4).
      rewrite Hstart4. simpl.
      eexists _, _, r1. rewrite Hio4, Hio3, <- app_assoc. simpl.
      split_and!; try done.
      * rewrite Hid1. simpl. by rewrite Hrid.
      * by rewrite insert_app_r_alt, Nat.sub_diag by done.
    + destruct (sendRequest_start_spec client "tools/call"
                  (VObj [("name", VStr toolName); ("arguments", args)])
                  w3 _ Hc3)
        as (w4 & r1 & c4 & Hstart4 & Hid1 & Hm1 & Hp1 & _ & _ & _ & _ & Hio4).
      rewrite Hstart4. simpl.
      eexists _, _, r1. rewrite Hio4, Hio3, <- app_assoc. simpl.
      split_and!; try done.
      * rewrite Hid1. simpl. by rewrite Hrid.
      * by rewrite insert_app_r_alt, Nat.sub_diag by done.
Qed.

(** *** HTTP: the errors a caller can see *)

Lemma http_failure_explained_mono evs ev e :
  Http.failure_explained JSON_parse httpServers evs e ->
  Http.failure_explained JSON_parse httpServers (evs ++ [ev]) e.
Proof.
  intros [H|(i & r & Hin & H)]; [by left|right].
  exists i, r. split; [|done]. apply elem_of_app. by left.
Qed.

Lemma http_failures_explained evs i e :
  snd (http_run evs (Http.fresh, [])) !! i = Some (Http.Finished (Throw e)) ->
  Http.failure_explained JSON_parse httpServers evs e.
Proof.
  revert i e. induction evs as [|ev evs IH] using rev_ind; intros i e.
  { simpl. by rewrite lookup_nil. }
  rewrite (http_run_snoc JSON_parse httpServers).
  destruct (run_invariant JSON_parse httpServers evs)
    as [Hok _].
  destruct (http_run evs (Http.fresh, [])) as [w tasks] eqn:Hrun.
  simpl in IH, Hok.
  assert (Hold : forall j e', tasks !! j = Some (Http.Finished (Throw e')) ->
            Http.failure_explained JSON_parse httpServers (evs ++ [ev]) e').
  { intros j e' Hj. by apply http_failure_explained_mono, (IH j). }
  destruct ev as [k name|j r|j|name|]; simpl.
  - destruct (Http.getClient httpServers name w) as [[w1 client]|err] eqn:Hget.
    + destruct (getClient_invariant httpServers name w w1 client
                  Hok Hget) as (_ & _ & Hlt & _).
      destruct (lookup_lt_is_Some_2 _ _ Hlt) as [c Hc].
      unfold Http.initialize_start. rewrite Hc.
      destruct (Http.initialized c).
      * simpl. intros [[_ H]|[_ H]]%lookup_snoc_Some; [by eapply Hold|done].
      * destruct (Http.sendRequest_start client "initialize" _ w1) as [w2 id].
        simpl. intros [[_ H]|[_ H]]%lookup_snoc_Some; [by eapply Hold|done].
    + simpl. intros [[_ H]|[_ H]]%lookup_snoc_Some; [by eapply Hold|].
      injection H as <-. left. exists name.
      unfold Http.getClient in Hget.
      destruct (Http.clients w !! name); [done|].
      destruct (lookup httpServers name); try done.
      by injection Hget as <-.
  - destruct (tasks !! j) as [[k client id|k client|k client id|res]|] eqn:Hj;
      simpl; try by apply Hold.
    + destruct (Http.sendRequest_finish JSON_parse r) as [result|err] eqn:Hr;
        simpl.
      * intros [[_ [H _]]|[_ H]]%list_lookup_insert_Some; [done|].
        by eapply Hold.
      * intros [[_ [H _]]|[_ H]]%list_lookup_insert_Some; [|by eapply Hold].
        injection H as <-. right. exists j, r.
        split; [apply elem_of_app; right; by apply list_elem_of_singleton|].
        by left.
    + intros [[_ [H _]]|[_ H]]%list_lookup_insert_Some; [|by eapply Hold].
      right. exists j, r.
      split; [apply elem_of_app; right; by apply list_elem_of_singleton|].
      unfold Http.after_request in H.
      destruct (Http.sendRequest_finish JSON_parse r) as [result|err] eqn:Hr.
      * right. exists result. split; [done|].
        destruct k; simpl in H; try done. by injection H.
      * left. destruct k; simpl in H; by injection H as ->.
  - destruct (tasks !! j) as [[k client id|k client|k client id|res]|] eqn:Hj;
      simpl; try by apply Hold.
    destruct (Http.after_initialize k client w) as [w' t] eqn:Hafter. simpl.
    intros [[_ [H _]]|[_ H]]%list_lookup_insert_Some; [|by eapply Hold].
    subst t. unfold Http.after_initialize in Hafter.
    destruct k; [done| |].
    + by destruct (Http.sendRequest_start client "tools/list" VUndef w).
    + by destruct (Http.sendRequest_start client "tools/call" _ w).
  - by apply Hold.
  - by apply Hold.
Qed.

(** *** Stdio: the call connects, then sends its request *)

Lemma stdio_call_connects_first k name (st : Stdio.World * list Stdio.task) :
  lookup stdioServers name <> Absent ->
  Stdio.clients (fst st) !! name = None ->
  Stdio.initializing (fst st) !! name = None ->
  let i := length (snd st) in
  let p := length (Stdio.promises (fst st)) in
  let st1 := stdio_step (Stdio.ECall k name) st in
  exists client transport params,
    snd st1 = snd st ++ [Stdio.InGetClient k (Stdio.Owner name p)]
    /\ Stdio.io (fst st1)
       = Stdio.io (fst st) ++ [Stdio.Connect name client transport params]
    /\ stdio_step (Stdio.EResume i) st1 = st1
    /\ (forall e,
          let st3 := stdio_step (Stdio.EResume i)
                       (stdio_step (Stdio.EConnectDone p (Some e)) st1) in
          snd st3 = snd st ++ [Stdio.Finished (Throw e)]
          /\ Stdio.io (fst st3) = Stdio.io (fst st1))
    /\ (let st3 := stdio_step (Stdio.EResume i)
                     (stdio_step (Stdio.EConnectDone p None) st1) in
        Stdio.io (fst st3)
        = Stdio.io (fst st1)
          ++ Stdio.Connected client
             :: match k with
                | Stdio.KInitializeServer => []
                | Stdio.KCallMCPTool toolName args =>
                    [Stdio.ToolsCall client toolName args]
                | Stdio.KListTools => [Stdio.ToolsList client]
                end
        /\ snd st3
           = snd st
             ++ [match k with
                 | Stdio.KInitializeServer => Stdio.Finished (Return VUndef)
                 | _ => Stdio.InTool k client
                 end]).
Proof.
  intros Hknown Hc Hi i p st1. unfold st1, i, p. clear st1 i p.
  destruct st as [w tasks]. cbn [fst snd] in *.
  set (p := length (Stdio.promises w)). set (i := length tasks).
  set (client := S (Stdio.objects w)). set (transport := Stdio.objects w).
  pose (w0 := {| Stdio.clients := Stdio.clients w;
                 Stdio.transports := Stdio.transports w;
                 Stdio.initializing := Stdio.initializing w;
                 Stdio.promises :=
                   Stdio.promises w
                   ++ [Stdio.Connecting name client transport];
                 Stdio.objects := S (S (Stdio.objects w));
                 Stdio.io :=
                   Stdio.io w
                   ++ [Stdio.Connect name client transport
                         (Stdio.params_of (lookup stdioServers name))] |}).
  pose (w1 := Stdio.set_initializing
                (<[name := p]> (Stdio.initializing w)) w0).
  set (t1 := Stdio.InGetClient k (Stdio.Owner name p)).
  assert (Hcall : stdio_step (Stdio.ECall k name) (w, tasks)
                  = (w1, tasks ++ [t1])).
  { simpl. unfold Stdio.getClient. rewrite Hc, Hi.
    unfold Stdio.createClient, w1, w0.
    by destruct (lookup stdioServers name). }
  rewrite Hcall. cbn [fst snd].
  exists client, transport, (Stdio.params_of (lookup stdioServers name)).
  split; [done|]. split; [done|].
  assert (Hp1 : Stdio.promises w1 !! p
                = Some (Stdio.Connecting name client transport))
    by (by apply list_lookup_middle).
  assert (Hi1 : (tasks ++ [t1]) !! i = Some t1)
    by (by apply list_lookup_middle).
  assert (Hput : forall t, <[i := t]> (tasks ++ [t1]) = tasks ++ [t]).
  { intros t. unfold i. by rewrite insert_app_r_alt, Nat.sub_diag by done. }
  split.
  { simpl. rewrite Hi1. unfold t1 at 1. cbn [Stdio.getClient_resume].
    by rewrite Hp1. }
  split.
  - intros e.
    set (w2 := Stdio.set_promises
                 (<[p := Stdio.Rejected e]> (Stdio.promises w1)) w1).
    assert (Hst2 : stdio_step (Stdio.EConnectDone p (Some e))
                     (w1, tasks ++ [t1])
                   = (w2, tasks ++ [t1])).
    { cbn [Stdio.step]. unfold Stdio.connect_done. by rewrite Hp1. }
    assert (Hst3 : stdio_step (Stdio.EResume i) (w2, tasks ++ [t1])
                   = (Stdio.set_initializing
                        (delete name (Stdio.initializing w2)) w2,
                      tasks ++ [Stdio.Finished (Throw e)])).
    { cbn [Stdio.step]. rewrite Hi1. unfold t1.
      cbn [Stdio.getClient_resume].
      assert (Hp2 : Stdio.promises w2 !! p = Some (Stdio.Rejected e)).
      { unfold w2. cbn [Stdio.set_promises Stdio.promises].
        apply list_lookup_insert_eq. by eapply lookup_lt_Some. }
      rewrite Hp2. cbn [Stdio.after_getClient]. by rewrite Hput. }
    by rewrite Hst2, Hst3.
  - set (w2 := {| Stdio.clients := <[name := client]> (Stdio.clients w1);
                  Stdio.transports :=
                    <[name := transport]> (Stdio.transports w1);
                  Stdio.initializing := Stdio.initializing w1;
                  Stdio.promises :=
                    <[p := Stdio.Fulfilled client]> (Stdio.promises w1);
                  Stdio.objects := Stdio.objects w1;
                  Stdio.io := Stdio.io w1 ++ [Stdio.Connected client] |}).
    assert (Hst2 : stdio_step (Stdio.EConnectDone p None) (w1, tasks ++ [t1])
                   = (w2, tasks ++ [t1])).
    { cbn [Stdio.step]. unfold Stdio.connect_done. by rewrite Hp1. }
    assert (Hst3 : stdio_step (Stdio.EResume i) (w2, tasks ++ [t1])
                   = (let '(w3, t) :=
                        Stdio.after_getClient k (Return client)
                          (Stdio.set_initializing
                             (delete name (Stdio.initializing w2)) w2) in
                      (w3, tasks ++ [t]))).
    { cbn [Stdio.step]. rewrite Hi1. unfold t1.
      cbn [Stdio.getClient_resume].
      assert (Hp2 : Stdio.promises w2 !! p = Some (Stdio.Fulfilled client)).
      { unfold w2. cbn [Stdio.promises].
        apply list_lookup_insert_eq. by eapply lookup_lt_Some. }
      rewrite Hp2.
      destruct (Stdio.after_getClient k (Return client) _) as [w3 t].
      by rewrite Hput. }
    rewrite Hst2, Hst3.
    destruct k as [|toolName args|]; simpl; by rewrite <- ?app_assoc.
Qed.

(** A call that finds the creation in progress waits for it as well. *)
Lemma stdio_call_joins_creation k name p
    (st : Stdio.World * list Stdio.task) :
  Stdio.in_flight name p (fst st) ->
  let i := length (snd st) in
  let st1 := stdio_step (Stdio.ECall k name) st in
  st1 = (fst st, snd st ++ [Stdio.InGetClient k (Stdio.Joined p)])
  /\ stdio_step (Stdio.EResume i) st1 = st1
  /\ (forall e,
        let st3 := stdio_step (Stdio.EResume i)
                     (stdio_step (Stdio.EConnectDone p (Some e)) st1) in
        snd st3 = snd st ++ [Stdio.Finished (Throw e)]
        /\ Stdio.io (fst st3) = Stdio.io (fst st))
  /\ exists client,
       let st3 := stdio_step (Stdio.EResume i)
                    (stdio_step (Stdio.EConnectDone p None) st1) in
       Stdio.io (fst st3)
       = Stdio.io (fst st)
         ++ Stdio.Connected client
            :: match k with
               | Stdio.KInitializeServer => []
               | Stdio.KCallMCPTool toolName args =>
                   [Stdio.ToolsCall client toolName args]
               | Stdio.KListTools => [Stdio.ToolsList client]
               end
       /\ snd st3
          = snd st
            ++ [match k with
                | Stdio.KInitializeServer => Stdio.Finished (Return VUndef)
                | _ => Stdio.InTool k client
                end].
Proof.
  intros (Hc & Hi & client & transport & Hp) i st1. unfold st1, i.
  clear st1 i. destruct st as [w tasks]. cbn [fst snd] in *.
  set (i := length tasks).
  set (t1 := Stdio.InGetClient k (Stdio.Joined p)).
  assert (Hcall : stdio_step (Stdio.ECall k name) (w, tasks)
                  = (w, tasks ++ [t1])).
  { simpl. unfold Stdio.getClient. by rewrite Hc, Hi. }
  rewrite Hcall. split; [done|].
  assert (Hi1 : (tasks ++ [t1]) !! i = Some t1)
    by (by apply list_lookup_middle).
  assert (Hput : forall t, <[i := t]> (tasks ++ [t1]) = tasks ++ [t]).
  { intros t. unfold i. by rewrite insert_app_r_alt, Nat.sub_diag by done. }
  pose proof (lookup_lt_Some _ _ _ Hp) as Hlt.
  split.
  { simpl. rewrite Hi1. unfold t1 at 1. cbn [Stdio.getClient_resume].
    by rewrite Hp. }
  split.
  - intros e.
    set (w2 := Stdio.set_promises
                 (<[p := Stdio.Rejected e]> (Stdio.promises w)) w).
    assert (Hst2 : stdio_step (Stdio.EConnectDone p (Some e))
                     (w, tasks ++ [t1])
                   = (w2, tasks ++ [t1])).
    { cbn [Stdio.step]. unfold Stdio.connect_done. by rewrite Hp. }
    assert (Hst3 : stdio_step (Stdio.EResume i) (w2, tasks ++ [t1])
                   = (w2, tasks ++ [Stdio.Finished (Throw e)])).
    { cbn [Stdio.step]. rewrite Hi1. unfold t1.
      cbn [Stdio.getClient_resume].
      assert (Hp2 : Stdio.promises w2 !! p = Some (Stdio.Rejected e)).
      { unfold w2. cbn [Stdio.set_promises Stdio.promises].
        by apply list_lookup_insert_eq. }
      rewrite Hp2. cbn [Stdio.after_getClient]. by rewrite Hput. }
    by rewrite Hst2, Hst3.
  - exists client.
    set (w2 := {| Stdio.clients := <[name := client]> (Stdio.clients w);
                  Stdio.transports :=
                    <[name := transport]> (Stdio.transports w);
                  Stdio.initializing := Stdio.initializing w;
                  Stdio.promises :=
                    <[p := Stdio.Fulfilled client]> (Stdio.promises w);
                  Stdio.objects := Stdio.objects w;
                  Stdio.io := Stdio.io w ++ [Stdio.Connected client] |}).
    assert (Hst2 : stdio_step (Stdio.EConnectDone p None) (w, tasks ++ [t1])
                   = (w2, tasks ++ [t1])).
    { cbn [Stdio.step]. unfold Stdio.connect_done. by rewrite Hp. }
    assert (Hst3 : stdio_step (Stdio.EResume i) (w2, tasks ++ [t1])
                   = (let '(w3, t) :=
                        Stdio.after_getClient k (Return client) w2 in
                      (w3, tasks ++ [t]))).
    { cbn [Stdio.step]. rewrite Hi1. unfold t1.
      cbn [Stdio.getClient_resume].
      assert (Hp2 : Stdio.promises w2 !! p = Some (Stdio.Fulfilled client)).
      { unfold w2. cbn [Stdio.promises]. by apply list_lookup_insert_eq. }
      rewrite Hp2.
      destruct (Stdio.after_getClient k (Return client) _) as [w3 t].
      by rewrite Hput. }
    rewrite Hst2, Hst3.
    destruct k as [|toolName args|]; simpl; by rewrite <- ?app_assoc.
Qed.

(** *** Stdio: the errors a caller can see *)

Lemma stdio_failure_explained_mono evs ev e :
  Stdio.failure_explained stdioServers JSON_parse evs e ->
  Stdio.failure_explained stdioServers JSON_parse (evs ++ [ev]) e.
Proof.
  intros [H|[(p & H)|[(i & H)|(i & result & H & Hx)]]].
  - by left.
  - right; left. exists p. apply elem_of_app. by left.
  - right; right; left. exists i. apply elem_of_app. by left.
  - right; right; right. exists i, result. split; [|done].
    apply elem_of_app. by left.
Qed.

Lemma stdio_failures_explained evs :
  let st := stdio_run evs (Stdio.fresh, []) in
  (forall i e,
     snd st !! i = Some (Stdio.Finished (Throw e)) ->
     Stdio.failure_explained stdioServers JSON_parse evs e)
  /\ (forall p e,
        Stdio.promises (fst st) !! p = Some (Stdio.Rejected e) ->
        Stdio.failure_explained stdioServers JSON_parse evs e).
Proof.
  induction evs as [|ev evs IH] using rev_ind.
  { simpl. split; intros ? ?; by rewrite lookup_nil. }
  rewrite (stdio_run_snoc stdioServers JSON_parse).
  destruct (stdio_run evs (Stdio.fresh, [])) as [w tasks] eqn:Hrun.
  simpl in IH. destruct IH as [IHt IHp].
  assert (Holdt : forall j e',
            tasks !! j = Some (Stdio.Finished (Throw e')) ->
            Stdio.failure_explained stdioServers JSON_parse (evs ++ [ev]) e').
  { intros j e' Hj. by apply stdio_failure_explained_mono, (IHt j). }
  assert (Holdp : forall q e',
            Stdio.promises w !! q = Some (Stdio.Rejected e') ->
            Stdio.failure_explained stdioServers JSON_parse (evs ++ [ev]) e').
  { intros q e' Hq. by apply stdio_failure_explained_mono, (IHp q). }
  destruct ev as [k name|p r|j|j r|name]; simpl.
  - unfold Stdio.getClient.
    destruct (Stdio.clients w !! name) as [client|]; simpl.
    { split; [|done].
      intros j e' [[_ H]|[_ H]]%lookup_snoc_Some; [by eapply Holdt|done]. }
    destruct (Stdio.initializing w !! name) as [q|]; simpl.
    { split; [|done].
      intros j e' [[_ H]|[_ H]]%lookup_snoc_Some; [by eapply Holdt|done]. }
    unfold Stdio.createClient.
    destruct (lookup stdioServers name) as [cfg| |] eqn:Hcfg; simpl.
    + split.
      * intros j e' [[_ H]|[_ H]]%lookup_snoc_Some; [by eapply Holdt|done].
      * intros q e' [[_ H]|[_ H]]%lookup_snoc_Some; [by eapply Holdp|done].
    + split.
      * intros j e' [[_ H]|[_ H]]%lookup_snoc_Some; [by eapply Holdt|done].
      * intros q e' [[_ H]|[_ H]]%lookup_snoc_Some; [by eapply Holdp|done].
    + split.
      * intros j e' [[_ H]|[_ H]]%lookup_snoc_Some; [by eapply Holdt|done].
      * intros q e' [[_ H]|[_ H]]%lookup_snoc_Some; [by eapply Holdp|].
        injection H as <-. left. by exists name.
  - split; [done|]. unfold Stdio.connect_done.
    destruct (Stdio.promises w !! p) as [[s c t|c|e0]|] eqn:Hp; try done.
    destruct r as [err|]; simpl.
    + intros q e' [[_ [H _]]|[_ H]]%list_lookup_insert_Some;
        [|by eapply Holdp].
      injection H as <-. right; left. exists p.
      apply elem_of_app. right. by apply list_elem_of_singleton.
    + intros q e' [[_ [H _]]|[_ H]]%list_lookup_insert_Some;
        [done|by eapply Holdp].
  - destruct (tasks !! j) as [[k f|k client|res]|] eqn:Hj; simpl; try done.
    destruct (Stdio.getClient_resume f w) as [[w1 r]|] eqn:Hres; simpl;
      [|done].
    assert (Hw1 : Stdio.promises w1 = Stdio.promises w
                  /\ forall e', r = Throw e' ->
                       exists q, Stdio.promises w !! q
                                 = Some (Stdio.Rejected e')).
    { unfold Stdio.getClient_resume in Hres.
      destruct f as [client|q|s q].
      - injection Hres as <- <-. by split.
      - destruct (Stdio.promises w !! q) as [[? ? ?|c|e0]|] eqn:Hq;
          try done; injection Hres as <- <-; (split; [done|]);
          intros e' [= <-]; by exists q.
      - destruct (Stdio.promises w !! q) as [[? ? ?|c|e0]|] eqn:Hq;
          try done; injection Hres as <- <-; (split; [done|]);
          intros e' [= <-]; by exists q. }
    destruct Hw1 as [Hprom Hthrow].
    destruct (Stdio.after_getClient k r w1) as [w2 t] eqn:Hafter. simpl.
    assert (Hw2 : Stdio.promises w2 = Stdio.promises w
                  /\ forall e', t = Stdio.Finished (Throw e') -> r = Throw e').
    { unfold Stdio.after_getClient in Hafter.
      destruct r as [client|err].
      - destruct k; injection Hafter as <- <-; by split.
      - injection Hafter as <- <-. split; [done|]. by intros e' [= ->]. }
    destruct Hw2 as [Hprom2 Ht]. split.
    + intros i e' [[_ [H _]]|[_ H]]%list_lookup_insert_Some;
        [|by eapply Holdt].
      destruct (Hthrow e' (Ht e' H)) as [q Hq]. by eapply Holdp.
    + rewrite Hprom2. apply Holdp.
  - destruct (tasks !! j) as [[k f|k client|res]|] eqn:Hj; simpl; try done.
    split; [|done].
    intros i e' [[_ [H _]]|[_ H]]%list_lookup_insert_Some; [|by eapply Holdt].
    assert (Hin : Stdio.EToolDone j r ∈ evs ++ [Stdio.EToolDone j r])
      by (apply elem_of_app; right; by apply list_elem_of_singleton).
    unfold Stdio.after_tool in H.
    destruct r as [result|err].
    + right; right; right. exists j, result. split; [done|].
      destruct k; simpl in H; try done. by injection H.
    + right; right; left. exists j.
      destruct k; simpl in H; by injection H as ->.
  - split; [done|]. unfold Stdio.disconnect.
    by destruct (Stdio.clients w !! name).
Qed.

(** C10: in every state the managers can reach, whatever the
    interleaving of calls, answers and disconnects:
    - HTTP: every [tools/call] and [tools/list] request in the log is
      preceded by an [initialize] request of the same client object and
      by the recording of its successful answer.  A call for a server the
      registry resolves is never turned away for want of a handshake: it
      posts the [initialize] request itself and waits, or, the handshake
      being complete, goes on directly.  On a server that is not
      connected, the call posts [initialize], does nothing until that is
      answered, and then posts its own request, the client's next one,
      with the method and the parameters of the call; if the handshake
      fails, the call fails with that error and its request is not sent.
    - stdio: every tool request in the log is preceded by the completed
      [connect] of its client.  A call for a server the registry
      resolves, which has neither a client nor a creation in progress,
      calls [connect], does nothing until that has settled, and then
      sends its tool request to the client that was connected; if
      [connect] fails, the call fails with that error and no tool request
      is sent.  A call that finds the creation in progress makes no
      [connect] of its own and waits for that one in the same way.
    - A call only ever fails with the error for a name the registry does
      not know, with the error of [connect] or of a request, or with an
      error from unwrapping the result: the core has no error of its own
      for a missing handshake. *)
Theorem tool_requests_follow_handshake
    (http_events : list Http.event) (stdio_events : list Stdio.event) :
  let h := http_run http_events (Http.fresh, []) in
  let s := stdio_run stdio_events (Stdio.fresh, []) in
  let http_call k name := http_step (Http.ECall k name) h in
  let stdio_call k name := stdio_step (Stdio.ECall k name) s in
  Http.handshake_first (Http.io (fst h))
  /\ (forall k name,
        lookup httpServers name <> Absent ->
        exists client,
          (exists r,
             snd (http_call k name)
             = snd h ++ [Http.InInitialize k client (Http.req_id r)]
             /\ Http.req_method r = "initialize"
             /\ exists u init,
                  Http.io (fst (http_call k name))
                  = Http.io (fst h) ++ [Http.Post client u init r])
          \/ (snd (http_call k name) = snd h ++ [Http.AfterInitialize k client]
              /\ Http.io (fst (http_call k name)) = Http.io (fst h)
              /\ Http.handshaken_before client (length (Http.io (fst h)))
                   (Http.io (fst h))))
  /\ (forall k name,
        lookup httpServers name <> Absent ->
        Http.isConnected name (fst h) = false ->
        let i := length (snd h) in
        let st1 := http_call k name in
        exists client u0 init0 r0,
          snd st1 = snd h ++ [Http.InInitialize k client (Http.req_id r0)]
          /\ Http.io (fst st1)
             = Http.io (fst h) ++ [Http.Post client u0 init0 r0]
          /\ Http.req_method r0 = "initialize"
          /\ http_step (Http.EResume i) st1 = st1
          /\ (forall answer e,
                Http.sendRequest_finish JSON_parse answer = Throw e ->
                http_step (Http.ESettle i answer) st1
                = (fst st1, snd h ++ [Http.Finished (Throw e)]))
          /\ (forall answer result,
                Http.sendRequest_finish JSON_parse answer = Return result ->
                let st3 := http_step (Http.EResume i)
                             (http_step (Http.ESettle i answer) st1) in
                match k with
                | Http.KInitialize =>
                    Http.io (fst st3)
                    = Http.io (fst st1)
                      ++ [Http.Handshaken client (Http.req_id r0)]
                    /\ snd st3 = snd h ++ [Http.Finished (Return VUndef)]
                | Http.KListTools =>
                    exists u1 init1 r1,
                      Http.io (fst st3)
                      = Http.io (fst st1)
                        ++ [Http.Handshaken client (Http.req_id r0);
                            Http.Post client u1 init1 r1]
                      /\ Http.req_method r1 = "tools/list"
                      /\ Http.req_params r1 = VUndef
                      /\ Http.req_id r1 = incr (Http.req_id r0)
                      /\ snd st3
                         = snd h ++ [Http.InRequest k client (Http.req_id r1)]
                | Http.KCallTool toolName args =>
                    exists u1 init1 r1,
                      Http.io (fst st3)
                      = Http.io (fst st1)
                        ++ [Http.Handshaken client (Http.req_id r0);
                            Http.Post client u1 init1 r1]
                      /\ Http.req_method r1 = "tools/call"
                      /\ Http.req_params r1
                         = VObj [("name", VStr toolName); ("arguments", args)]
                      /\ Http.req_id r1 = incr (Http.req_id r0)
                      /\ snd st3
                         = snd h ++ [Http.InRequest k client (Http.req_id r1)]
                end))
  /\ (forall i e,
        snd h !! i = Some (Http.Finished (Throw e)) ->
        Http.failure_explained JSON_parse httpServers http_events e)
  /\ Stdio.handshake_first (Stdio.io (fst s))
  /\ (forall k name,
        Stdio.clients (fst s) !! name = None ->
        Stdio.initializing (fst s) !! name = None ->
        Stdio.connects name (Stdio.io (fst (stdio_call k name)))
        = Stdio.connects name (Stdio.io (fst s))
          + Stdio.attempts stdioServers name)
  /\ (forall k name,
        lookup stdioServers name <> Absent ->
        Stdio.clients (fst s) !! name = None ->
        Stdio.initializing (fst s) !! name = None ->
        let i := length (snd s) in
        let p := length (Stdio.promises (fst s)) in
        let st1 := stdio_call k name in
        exists client transport params,
          snd st1 = snd s ++ [Stdio.InGetClient k (Stdio.Owner name p)]
          /\ Stdio.io (fst st1)
             = Stdio.io (fst s)
               ++ [Stdio.Connect name client transport params]
          /\ stdio_step (Stdio.EResume i) st1 = st1
          /\ (forall e,
                let st3 := stdio_step (Stdio.EResume i)
                             (stdio_step (Stdio.EConnectDone p (Some e))
                                st1) in
                snd st3 = snd s ++ [Stdio.Finished (Throw e)]
                /\ Stdio.io (fst st3) = Stdio.io (fst st1))
          /\ (let st3 := stdio_step (Stdio.EResume i)
                           (stdio_step (Stdio.EConnectDone p None) st1) in
              Stdio.io (fst st3)
              = Stdio.io (fst st1)
                ++ Stdio.Connected client
                   :: match k with
                      | Stdio.KInitializeServer => []
                      | Stdio.KCallMCPTool toolName args =>
                          [Stdio.ToolsCall client toolName args]
                      | Stdio.KListTools => [Stdio.ToolsList client]
                      end
              /\ snd st3
                 = snd s
                   ++ [match k with
                       | Stdio.KInitializeServer =>
                           Stdio.Finished (Return VUndef)
                       | _ => Stdio.InTool k client
                       end]))
  /\ (forall k name p,
        Stdio.in_flight name p (fst s) ->
        let i := length (snd s) in
        let st1 := stdio_call k name in
        st1 = (fst s, snd s ++ [Stdio.InGetClient k (Stdio.Joined p)])
        /\ stdio_step (Stdio.EResume i) st1 = st1
        /\ (forall e,
              let st3 := stdio_step (Stdio.EResume i)
                           (stdio_step (Stdio.EConnectDone p (Some e))
                              st1) in
              snd st3 = snd s ++ [Stdio.Finished (Throw e)]
              /\ Stdio.io (fst st3) = Stdio.io (fst s))
        /\ exists client,
             let st3 := stdio_step (Stdio.EResume i)
                          (stdio_step (Stdio.EConnectDone p None) st1) in
             Stdio.io (fst st3)
             = Stdio.io (fst s)
               ++ Stdio.Connected client
                  :: match k with
                     | Stdio.KInitializeServer => []
                     | Stdio.KCallMCPTool toolName args =>
                         [Stdio.ToolsCall client toolName args]
                     | Stdio.KListTools => [Stdio.ToolsList client]
                     end
             /\ snd st3
                = snd s
                  ++ [match k with
                      | Stdio.KInitializeServer =>
                          Stdio.Finished (Return VUndef)
                      | _ => Stdio.InTool k client
                      end])
  /\ (forall i e,
        snd s !! i = Some (Stdio.Finished (Throw e)) ->
        Stdio.failure_explained stdioServers JSON_parse stdio_events e).
Proof.
  intros h s http_call stdio_call. split_and!.
  - by destruct (run_invariant JSON_parse httpServers http_events)
      as ((_ & H & _) & _).
  - intros k name Hknown.
    apply (call_enters_initialize JSON_parse httpServers http_events k name
             Hknown).
  - intros k name Hknown Hconn.
    apply (http_call_performs_handshake http_events k name Hknown Hconn).
  - apply http_failures_explained.
  - by destruct (stdio_run_invariant stdioServers JSON_parse stdio_events)
      as ((H & _) & _).
  - intros k name Hc Hi. unfold stdio_call. destruct s as [w tasks].
    simpl in *.
    destruct (getClient_owner stdioServers name w Hc Hi)
      as (w1 & -> & _ & _ & _ & Hn).
    done.
  - intros k name Hknown Hc Hi.
    apply (stdio_call_connects_first k name s Hknown Hc Hi).
  - intros k name p Hfl. apply (stdio_call_joins_creation k name p s Hfl).
  - apply (stdio_failures_explained stdio_events).
Qed.

End HandshakeProps.

(** ** Examples for the properties above *)

(** A session of [exa] that has completed its handshake is dropped and
    called again. *)
Lemma http_reconnect_fresh_session_witness :
  let reg := Config.httpServers Samples.no_env in
  let step := Http.step Samples.JSON_parse reg in
  let st := Http.run Samples.JSON_parse reg
              [Http.ECall Http.KInitialize "exa";
               Http.ESettle 0
                 (Http.Responds (Samples.answer_200 Samples.body_initialized))]
              (Http.fresh, []) in
  let st' := step (Http.ECall Http.KListTools "exa")
               (step (Http.EDisconnect "exa") st) in
  Http.isConnected "exa" (fst st) = true
  /\ Http.clients (fst st') !! "exa" = Some 1
  /\ Http.ids_of 1 (Http.io (fst st')) = [1%Z]
  /\ Http.isConnected "exa" (fst st') = false.
Proof.
  intros reg step st st'.
  destruct (http_reconnect_fresh_session Samples.JSON_parse reg st
              Http.KListTools "exa")
    as (_ & Hcl & _ & Hio & _ & Hconn).
  - discriminate.
  - split; [reflexivity|]. split; [exact Hcl|]. split; [|exact Hconn].
    unfold st', step. rewrite Hio. reflexivity.
Defined.

(** Three calls for [exa] before any answer. *)
Lemma http_initialize_not_shared_witness :
  let reg := Config.httpServers Samples.no_env in
  let st := Http.run Samples.JSON_parse reg
              [Http.ECall Http.KInitialize "exa";
               Http.ECall (Http.KCallTool "web_search_exa" (VObj [])) "exa";
               Http.ECall Http.KListTools "exa"]
              (Http.fresh, []) in
  Http.ids_of 0 (Http.io (fst st)) = [1%Z; 2%Z; 3%Z]
  /\ Forall (fun r => Http.req_method r = "initialize")
       (Http.requests_of 0 (Http.io (fst st))).
Proof.
  intros reg st.
  destruct (http_initialize_not_shared Samples.JSON_parse reg [] "exa"
              [Http.KInitialize; Http.KCallTool "web_search_exa" (VObj []);
               Http.KListTools])
    as (Hids & Hall & _).
  - reflexivity.
  - discriminate.
  - split; [exact Hids|exact Hall].
Defined.

(** Two answers that differ in their [id] only. *)
Lemma sendRequest_ignores_response_id_witness :
  Http.sendRequest_finish Samples.JSON_parse_call
    (Http.Responds (Samples.answer_200 Samples.body_initialized))
  = Http.sendRequest_finish Samples.JSON_parse_call
      (Http.Responds (Samples.answer_200 Samples.body_initialized_2)).
Proof.
  destruct (sendRequest_ignores_response_id Samples.JSON_parse_call
              (Samples.answer_200 Samples.body_initialized)
              (Samples.answer_200 Samples.body_initialized_2)
              [("jsonrpc", VStr "2.0"); ("id", VNum 1); ("result", VObj [])]
              [("jsonrpc", VStr "2.0"); ("id", VNum 2); ("result", VObj [])])
    as [H _]; [reflexivity|reflexivity|reflexivity|reflexivity|reflexivity
              |reflexivity|exact H].
Defined.

(** Calls for [git] before and after its connection is up. *)
Lemma one_connect_per_server_witness :
  let reg := Config.stdioServers Samples.no_env in
  let evs := [Stdio.ECall Stdio.KInitializeServer "git";
              Stdio.ECall (Stdio.KCallMCPTool "git_status" (VObj [])) "git";
              Stdio.EConnectDone 0 None;
              Stdio.EResume 0; Stdio.EResume 1;
              Stdio.ECall Stdio.KListTools "git"; Stdio.EResume 2] in
  let w := fst (Stdio.run reg Samples.JSON_parse evs (Stdio.fresh, [])) in
  length (Stdio.io w) = 4 /\ Stdio.connects "git" (Stdio.io w) <= 1.
Proof.
  intros reg evs w. split; [reflexivity|].
  apply (one_connect_per_server reg Samples.JSON_parse evs "git").
  repeat (constructor; [split; [discriminate|intros p err; discriminate]|]).
  constructor.
Defined.

(** [memory] is connected, disconnected and called again. *)
Lemma stdio_reconnect_after_disconnect_witness :
  let reg := Config.stdioServers Samples.no_env in
  let step := Stdio.step reg Samples.JSON_parse in
  let st := Stdio.run reg Samples.JSON_parse
              [Stdio.ECall Stdio.KInitializeServer "memory";
               Stdio.EConnectDone 0 None; Stdio.EResume 0]
              (Stdio.fresh, []) in
  let st' := step (Stdio.ECall Stdio.KListTools "memory")
               (step (Stdio.EDisconnect "memory") st) in
  Stdio.connects "memory" (Stdio.io (fst st)) = 1
  /\ Stdio.connects "memory" (Stdio.io (fst st')) = 2
  /\ Stdio.in_flight "memory" 1 (fst st').
Proof.
  intros reg step st st'.
  destruct (stdio_reconnect_after_disconnect reg Samples.JSON_parse st
              Stdio.KListTools "memory" 1)
    as (Hio & _ & _ & Hfl).
  - reflexivity.
  - reflexivity.
  - discriminate.
  - split; [reflexivity|]. split; [|exact Hfl].
    unfold st', step. rewrite Hio. reflexivity.
Defined.

(** [memory] is connected and [github] is being connected when
    [disconnectAll] is called; the connection completes before the
    closes have settled. *)
Lemma disconnectAll_drops_late_client_witness :
  let reg := Config.stdioServers Samples.no_env in
  let w := fst (Stdio.run reg Samples.JSON_parse
                  [Stdio.ECall Stdio.KInitializeServer "memory";
                   Stdio.EConnectDone 0 None; Stdio.EResume 0;
                   Stdio.ECall Stdio.KInitializeServer "github"]
                  (Stdio.fresh, [])) in
  let entries := map_to_list (Stdio.clients w) in
  let w3 := Stdio.disconnectAll_end
              (Stdio.connect_done 1 None (Stdio.disconnectAll_begin entries w)) in
  Stdio.promises w !! 1 = Some (Stdio.Connecting "github" 3 2)
  /\ Stdio.io w3
     = Stdio.io w ++ map (fun entry => Stdio.Close (snd entry)) entries
                  ++ [Stdio.Connected 3]
  /\ Stdio.isConnected "github" w3 = false
  /\ Stdio.getClient_resume (Stdio.Joined 1) w3 = Some (w3, Return 3).
Proof.
  intros reg w entries w3.
  destruct (disconnectAll_drops_late_client w entries "github" 1 3 2)
    as (Hio & Hconn & Hres & _).
  - reflexivity.
  - reflexivity.
  - split; [reflexivity|]. split; [exact Hio|]. split; [exact Hconn|exact Hres].
Defined.

(** [callTool] for a name that is configured nowhere. *)
Lemma callTool_unknown_name_witness :
  let w := {| Index.stdio := (Stdio.fresh, []);
              Index.http := (Http.fresh, []) |} in
  let w1 := Index.callTool Samples.no_env Samples.JSON_parse
              "browser" "navigate" (VObj []) w in
  let st2 := Stdio.step (Config.stdioServers Samples.no_env) Samples.JSON_parse
               (Stdio.EResume 0) (Index.stdio w1) in
  Index.http w1 = (Http.fresh, [])
  /\ Stdio.io (fst st2) = []
  /\ snd st2
     = [Stdio.Finished
          (Throw (Error "Unknown stdio server: browser. Available: memory, seq_thinking, filesystem, supabase, upstash, github, git, polydev, context7, deepwiki, perplexity, morpho, resend"))].
Proof.
  intros w w1 st2.
  destruct (callTool_unknown_name Samples.no_env Samples.JSON_parse []
              (Http.fresh, []) "browser" "navigate" (VObj []))
    as (Hhttp & Hio & Htasks).
  - apply (bool_decide_eq_false_1 _). reflexivity.
  - apply (bool_decide_eq_false_1 _). reflexivity.
  - split; [exact Hhttp|]. split; [exact Hio|exact Htasks].
Defined.

(** The connectivity test without a network and with a GitHub token
    only: the Vercel check stops at its first variable. *)
Lemma selftest_missing_credential_witness :
  let r := SelfTest.main_checks Samples.env_github_token Samples.JSON_parse
             Samples.offline in
  ("vercel", SelfTest.Failed "Missing VERCEL_TOKEN environment variable")
  ∈ SelfTest.results r.
Proof.
  intros r.
  apply (selftest_missing_credential Samples.JSON_parse Samples.offline
           Samples.env_github_token "vercel"
           ["VERCEL_TOKEN"; "VERCEL_TEAM"; "VERCEL_PROJECT"]).
  unfold SelfTest.required. repeat constructor.
Defined.

(** The token the registry reads makes no difference to the test. *)
Lemma selftest_reads_only_its_variables_witness :
  SelfTest.main_checks Samples.env_github_token Samples.JSON_parse
    Samples.offline
  = SelfTest.main_checks Samples.env_github_both Samples.JSON_parse
      Samples.offline.
Proof.
  destruct (selftest_reads_only_its_variables Samples.JSON_parse
              Samples.offline Samples.env_github_token Samples.env_github_both)
    as [H _]; [|exact H].
  intros name Hin. unfold SelfTest.variables_read in Hin.
  repeat (apply elem_of_cons in Hin as [->|Hin]; [reflexivity|]).
  by apply elem_of_nil in Hin.
Defined.

(** A tool call and a ping arrive in one chunk, standard input ends, and
    the tool call is answered: version 1 exits without having looked at
    the ping. *)
Lemma v1_exit_drops_rest_of_chunk_witness :
  let run := Wrapper.run_v1 Samples.JSON_parse_call Samples.blank "pd_token" in
  let chunk := Wrapper.terminated Samples.line_call
               +:+ Wrapper.terminated Samples.line_ping in
  let evs := [Wrapper.V1Data chunk; Wrapper.V1End;
              Wrapper.V1Settle 0
                (Net.Completes 10 (Samples.answer_200 Samples.body_initialized))]
  in
  let started := Wrapper.started_v1 "pd_token" in
  Wrapper.loops_v1 (run [Wrapper.V1Data chunk; Wrapper.V1End] started)
  = [Wrapper.AwaitForward Samples.request_call [Samples.line_ping]]
  /\ Wrapper.exited_v1 (run evs started) = Some 0%Z
  /\ Wrapper.stdout_v1 (run evs started) = [Samples.answer_initialized].
Proof.
  intros run chunk evs started.
  destruct (v1_exit_drops_rest_of_chunk Samples.JSON_parse_call Samples.blank
              "pd_token" [Wrapper.V1Data chunk; Wrapper.V1End] 0
              Samples.request_call [Samples.line_ping]
              (Net.Completes 10 (Samples.answer_200 Samples.body_initialized))
              10%N (Return Samples.answer_initialized))
    as (Hexit & Hout & _).
  - reflexivity.
  - reflexivity.
  - reflexivity.
  - intros j l Hj Hl. destruct j as [|j]; [done|]. by destruct j.
  - reflexivity.
  - split; [reflexivity|]. split; [exact Hexit|exact Hout].
Defined.

(** [github] and [exa], each named twice. *)
Lemma initializeServers_duplicates_witness :
  let w := Index.initializeServers Samples.no_env Samples.JSON_parse
             ["github"; "exa"; "github"; "exa"] Index.fresh in
  Stdio.connects "github" (Stdio.io (fst (Index.stdio w))) = 1
  /\ length (Index.posts_for "exa" (fst (Index.http w))) = 2.
Proof.
  intros w. split.
  - apply (initializeServers_duplicates Samples.no_env Samples.JSON_parse
             ["github"; "exa"; "github"; "exa"] "github");
      [reflexivity|repeat constructor|discriminate].
  - apply (initializeServers_duplicates Samples.no_env Samples.JSON_parse
             ["github"; "exa"; "github"; "exa"] "exa").
    reflexivity.
Defined.

(** HTTP: [callHTTPMCPTool("exa", ...)] on a fresh manager, the
    [initialize] request being answered, after which [listHTTPTools] is
    called for [stripe].  Stdio: [listTools("github")] on a fresh manager,
    whose [connect] fails, after which [callMCPTool] is called for
    [git]. *)
Lemma tool_requests_follow_handshake_witness :
  let http_reg := Config.httpServers Samples.no_env in
  let stdio_reg := Config.stdioServers Samples.no_env in
  let answer := Http.Responds (Samples.answer_200 Samples.body_initialized) in
  let http_events :=
    [Http.ECall (Http.KCallTool "web_search_exa" (VObj [])) "exa";
     Http.ESettle 0 answer; Http.EResume 0] in
  let spawn_failed := JsError "Error" "spawn npx ENOENT" in
  let stdio_events :=
    [Stdio.ECall Stdio.KListTools "github";
     Stdio.EConnectDone 0 (Some spawn_failed); Stdio.EResume 0] in
  let http_step := Http.step Samples.JSON_parse http_reg in
  let stdio_step := Stdio.step stdio_reg Samples.JSON_parse in
  let h := Http.run Samples.JSON_parse http_reg http_events (Http.fresh, []) in
  let s := Stdio.run stdio_reg Samples.JSON_parse stdio_events
             (Stdio.fresh, []) in
  let h3 := http_step (Http.EResume 1)
              (http_step (Http.ESettle 1 answer)
                 (http_step (Http.ECall Http.KListTools "stripe") h)) in
  let s3 := stdio_step (Stdio.EResume 1)
              (stdio_step (Stdio.EConnectDone 1 None)
                 (stdio_step
                    (Stdio.ECall (Stdio.KCallMCPTool "git_status" (VObj []))
                       "git") s)) in
  (Http.handshaken_before 0 2 (Http.io (fst h))
   /\ Http.isConnected "stripe" (fst h) = false
   /\ exists u0 init0 r0 u1 init1 r1,
        Http.io (fst h3)
        = Http.io (fst h)
          ++ [Http.Post 1 u0 init0 r0; Http.Handshaken 1 1;
              Http.Post 1 u1 init1 r1]
        /\ Http.req_method r0 = "initialize"
        /\ Http.req_method r1 = "tools/list"
        /\ snd h3 !! 1 = Some (Http.InRequest Http.KListTools 1 2))
  /\ (snd s !! 0 = Some (Stdio.Finished (Throw spawn_failed))
      /\ Stdio.failure_explained stdio_reg Samples.JSON_parse stdio_events
           spawn_failed
      /\ Stdio.io (fst s3)
         = Stdio.io (fst s)
           ++ [Stdio.Connect "git" 3 2
                 (Stdio.params_of (Config.lookup stdio_reg "git"));
               Stdio.Connected 3;
               Stdio.ToolsCall 3 "git_status" (VObj [])]
      /\ snd s3 !! 1
         = Some (Stdio.InTool (Stdio.KCallMCPTool "git_status" (VObj [])) 3)).
Proof.
  intros http_reg stdio_reg answer http_events spawn_failed stdio_events
    http_step stdio_step h s h3 s3.
  destruct (tool_requests_follow_handshake Samples.JSON_parse http_reg
              stdio_reg http_events stdio_events)
    as (Hfirst & _ & Hhttp & _ & _ & _ & Hstdio & _ & Herr).
  split.
  - split; [eapply Hfirst; reflexivity|]. split; [reflexivity|].
    destruct (Hhttp Http.KListTools "stripe")
      as (client & u0 & init0 & r0 & Htask & Hio & Hm0 & _ & _ & Hanswered).
    { discriminate. }
    { reflexivity. }
    destruct (Hanswered answer (VObj []) eq_refl)
      as (u1 & init1 & r1 & Hio3 & Hm1 & _ & Hid1 & Htask3).
    assert (Hclient : client = 1).
    { apply (f_equal (fun l => l !! 1)) in Htask. by injection Htask. }
    assert (Hid0 : Http.req_id r0 = 1%Z).
    { apply (f_equal (fun l => l !! 1)) in Htask. by injection Htask. }
    subst client. rewrite Hid0 in *.
    exists u0, init0, r0, u1, init1, r1.
    split; [|split; [exact Hm0|split; [exact Hm1|]]].
    + rewrite Hio, <- app_assoc in Hio3. exact Hio3.
    + rewrite Hid1 in Htask3.
      apply (f_equal (fun l => l !! 1)) in Htask3. exact Htask3.
  - split; [reflexivity|]. split; [by apply (Herr 0)|].
    destruct (Hstdio (Stdio.KCallMCPTool "git_status" (VObj [])) "git")
      as (client & transport & params & Htask & Hio & _ & _ & Hio3 & Htask3).
    { discriminate. }
    { reflexivity. }
    { reflexivity. }
    assert (Hcall : client = 3
                    /\ transport = 2
                    /\ params = Stdio.params_of (Config.lookup stdio_reg "git")).
    { apply (f_equal (fun l => l !! 1)) in Hio. by injection Hio. }
    destruct Hcall as (-> & -> & ->). split.
    + rewrite Hio, <- app_assoc in Hio3. exact Hio3.
    + apply (f_equal (fun l => l !! 1)) in Htask3. exact Htask3.
Defined.
